(** * Episode ingest server: a shallow embedding of [server.py]

    The program is one request handler, [Handler.do_POST], on top of
    Python's [http.server], [json] and [time] modules, and a start-up
    block that creates the output directory and serves forever.

    Layout of the development:
    - text and bytes: Python [str] as a list of code points, [bytes] as a
      list of bytes, the decimal conversions [str(int)] and [int(str)];
    - [PyFloat]: binary64 values, [float(str)], [repr(float)], [int(float)];
    - [Json]: the values [json.loads] returns, the encoder of
      [json.dump]/[json.dumps] and the decoder of [json.loads];
    - [Utf8]: [bytes.decode('utf-8')] and [str.encode()];
    - [Server]: the file system, the request handler and the serving loop;
    - [Spec] and [Scenario]: the words of the specification, and a
      concrete clock, disk and requests;
    - the properties: the model on concrete inputs, the lemmas on texts,
      numbers, floats (a decimal text is rounded to the nearest binary64
      value, and [repr] reads back), JSON (what is dumped loads back),
      UTF-8 and the handler, then the claims of the specification, one
      theorem each, and at the end further properties of the handler
      and of start-up. *)

From Stdlib Require Import ZArith NArith List String Ascii Bool Lia.
From Stdlib Require Import Floats.SpecFloat.
From Stdlib Require Import DecimalFacts DecimalPos DecimalN.
From Stdlib Require Import QArith Qpower Qround Lqa.
From stdpp Require Import base option list gmap.

#[local] Open Scope N_scope.

(** ** Text and bytes *)

(** A Python [str] is a sequence of code points. *)
Definition text := list N.

(** A Python [bytes] object. *)
Definition bytes := list Byte.byte.

(** The text of an ASCII literal of the source. *)
Definition T (s : string) : text :=
  map N_of_ascii (list_ascii_of_string s).

Arguments T s%_string.

Definition text_eqb (a b : text) : bool := bool_decide (a = b).

(** [s.startswith(p)] *)
Fixpoint startswith (p s : text) : bool :=
  match p, s with
  | [], _ => true
  | c :: p', d :: s' => (c =? d) && startswith p' s'
  | _ :: _, [] => false
  end.

Module Ch.
Definition tab := 9.
Definition lf := 10.
Definition cr := 13.
Definition space := 32.
Definition quote := 34.
Definition plus := 43.
Definition comma := 44.
Definition minus := 45.
Definition dot := 46.
Definition slash := 47.
Definition zero := 48.
Definition nine := 57.
Definition colon := 58.
Definition lbracket := 91.
Definition backslash := 92.
Definition rbracket := 93.
Definition underscore := 95.
Definition lbrace := 123.
Definition rbrace := 125.
End Ch.

Definition is_digit (c : N) : bool := (48 <=? c) && (c <=? 57).

(** ** Decimal conversions of integers *)

Fixpoint uint_chars (d : Decimal.uint) : text :=
  match d with
  | Decimal.Nil => []
  | Decimal.D0 d => 48 :: uint_chars d
  | Decimal.D1 d => 49 :: uint_chars d
  | Decimal.D2 d => 50 :: uint_chars d
  | Decimal.D3 d => 51 :: uint_chars d
  | Decimal.D4 d => 52 :: uint_chars d
  | Decimal.D5 d => 53 :: uint_chars d
  | Decimal.D6 d => 54 :: uint_chars d
  | Decimal.D7 d => 55 :: uint_chars d
  | Decimal.D8 d => 56 :: uint_chars d
  | Decimal.D9 d => 57 :: uint_chars d
  end.

(** [str(n)] for a natural number. *)
Definition str_of_N (n : N) : text := uint_chars (N.to_uint n).

(** [str(z)], which is also [int.__repr__] and what an f-string
    substitutes for [{z}]. *)
Definition str_of_int (z : Z) : text :=
  match z with
  | Z0 => str_of_N 0
  | Zpos p => str_of_N (Npos p)
  | Zneg p => Ch.minus :: str_of_N (Npos p)
  end.

(** The value of a run of decimal digits, most significant first. *)
Definition digits_value (s : text) : N :=
  fold_left (fun acc c => acc * 10 + (c - 48)) s 0.

(** [int(s)] for a text made of an optional minus sign and digits, as the
    JSON scanner calls it on the integer part of a number. *)
Definition int_of_literal (s : text) : Z :=
  match s with
  | c :: r => if c =? Ch.minus then Z.opp (Z.of_N (digits_value r))
              else Z.of_N (digits_value s)
  | [] => 0%Z
  end.

(** ** Exceptions and results *)

(** The exceptions the modelled code can raise; every one of them derives
    from Python's [Exception]. *)
Inductive exn :=
| TypeError (msg : text)
| ValueError (msg : text)
| OverflowError (msg : text)
| RecursionError (msg : text)
| JSONDecodeError (msg : text) (doc : text) (pos : nat)
| UnicodeDecodeError (object : bytes) (start stop : nat) (reason : text)
| UnicodeEncodeError (object : text) (start stop : nat) (reason : text)
| KeyError (key : text)
| OSError (description : text).

Inductive result (A : Type) :=
| Ok (a : A)
| Raise (e : exn).
Arguments Ok {A} a.
Arguments Raise {A} e.

Definition bind {A B} (r : result A) (k : A -> result B) : result B :=
  match r with
  | Ok a => k a
  | Raise e => Raise e
  end.

Notation "'let*' x ':=' r 'in' k" := (bind r (fun x => k))
  (at level 10, x pattern, r at level 200, k at level 200).

Definition is_ok {A} (r : result A) : bool :=
  match r with Ok _ => true | Raise _ => false end.

(** ** Floating point *)

Module PyFloat.

(** A Python [float] is an IEEE 754 binary64 value. *)
Definition float := spec_float.

Definition prec : Z := 53.
Definition emax : Z := 1024.

#[global] Instance location_eq_dec : EqDecision location.
Proof. solve_decision. Defined.
#[global] Instance float_eq_dec : EqDecision float.
Proof. solve_decision. Defined.

Definition inf : float := S754_infinity false.
Definition neginf : float := S754_infinity true.
Definition nan : float := S754_nan.

(** The binary64 value nearest to [m * 10^e10] (ties to even), with the
    sign [neg]: what a correctly rounded [float(str)] returns. *)
Definition float_of_decimal (neg : bool) (m : N) (e10 : Z) : float :=
  match m with
  | N0 => S754_zero neg
  | Npos p =>
      match e10 with
      | Zneg k =>
          let '(q, e, l) :=
            SFdiv_core_binary prec emax (Zpos p) 0 (10 ^ Zpos k) 0 in
          binary_round_aux prec emax neg q e l
      | _ => binary_round prec emax neg (Z.to_pos (Zpos p * 10 ^ e10)) 0
      end
  end.

(** [float(integer + frac + exp)] for the three groups of the JSON number
    pattern: [integer] is an optional minus sign and digits, [frac] is
    empty or a dot and digits, [exp] is empty or [e]/[E], an optional sign
    and digits. *)
Definition parse_float (integer frac exp : text) : float :=
  let '(neg, idigits) :=
    match integer with
    | c :: r => if c =? Ch.minus then (true, r) else (false, integer)
    | [] => (false, [])
    end in
  let fdigits := tail frac in
  let e :=
    match tail exp with
    | c :: r => if c =? Ch.minus then Z.opp (Z.of_N (digits_value r))
                else if c =? Ch.plus then Z.of_N (digits_value r)
                else Z.of_N (digits_value (c :: r))
    | [] => 0%Z
    end in
  float_of_decimal neg (digits_value (idigits ++ fdigits))
                   (e - Z.of_nat (length fdigits)).

(** *** [repr(float)]: the shortest decimal text that reads back *)

(** [floor (m * 2^e / 10^s)] for any integers [e] and [s]. *)
Definition scaled_floor (m : positive) (e s : Z) : Z :=
  let num := (Zpos m * 2 ^ Z.max e 0 * 10 ^ Z.max (- s) 0)%Z in
  let den := (2 ^ Z.max (- e) 0 * 10 ^ Z.max s 0)%Z in
  (num / den)%Z.

(** Twice the value, scaled the same way, compared with an integer: the
    comparison of [m * 2^e / 10^s] with [c / 2]. *)
Definition scaled_compare_half (m : positive) (e s : Z) (c : Z) : comparison :=
  let num := (Zpos m * 2 ^ Z.max e 0 * 10 ^ Z.max (- s) 0)%Z in
  let den := (2 ^ Z.max (- e) 0 * 10 ^ Z.max s 0)%Z in
  (2 * num ?= c * den)%Z.

(** The decimal exponent [k] with [10^k <= m * 2^e < 10^(k+1)], searched
    downwards from an upper estimate. *)
Fixpoint decimal_exponent_from (fuel : nat) (m : positive) (e k : Z) : Z :=
  match fuel with
  | O => k
  | S fuel' =>
      if (1 <=? scaled_floor m e k)%Z then k
      else decimal_exponent_from fuel' m e (k - 1)
  end.

Definition decimal_exponent (m : positive) (e : Z) : Z :=
  let upper := (Z.max 0 (Zpos (digits2_pos m) + e) + 1)%Z in
  decimal_exponent_from (Z.to_nat (upper + 400)) m e upper.

(** The candidates with [p] significant digits next to [m * 2^e]: the one
    below, the one above, and the one of the two that [repr] prefers:
    the nearer, the even one on a tie. *)
Definition candidate (m : positive) (e k : Z) (p : positive) : option (Z * Z) :=
  let s := (k - Zpos p + 1)%Z in
  let lo := scaled_floor m e s in
  let hi := (lo + 1)%Z in
  let this := S754_finite false m e in
  let ok_lo := bool_decide (float_of_decimal false (Z.to_N lo) s = this) in
  let ok_hi := bool_decide (float_of_decimal false (Z.to_N hi) s = this) in
  match ok_lo, ok_hi with
  | false, false => None
  | true, false => Some (lo, s)
  | false, true => Some (hi, s)
  | true, true =>
      match scaled_compare_half m e s (lo + hi) with
      | Lt => Some (lo, s)
      | Gt => Some (hi, s)
      | Eq => Some (if Z.even lo then lo else hi, s)
      end
  end.

(** The shortest candidate, trying 1 to 17 digits. *)
Fixpoint shortest_from (fuel : nat) (m : positive) (e k : Z) (p : positive)
  : Z * Z :=
  match fuel with
  | O => (scaled_floor m e (k - Zpos p + 1), (k - Zpos p + 1)%Z)
  | S fuel' =>
      match candidate m e k p with
      | Some d => d
      | None => shortest_from fuel' m e k (Pos.succ p)
      end
  end.

(** Digits without trailing zeros, and the position of the decimal point
    after the first [decpt] digits. *)
Fixpoint strip_zeros (fuel : nat) (d s : Z) : Z * Z :=
  match fuel with
  | O => (d, s)
  | S fuel' =>
      if ((d mod 10 =? 0) && (0 <? d))%Z
      then strip_zeros fuel' (d / 10)%Z (s + 1)%Z
      else (d, s)
  end.

Definition shortest_digits (m : positive) (e : Z) : text * Z :=
  let k := decimal_exponent m e in
  let '(d, s) := shortest_from 17 m e k 1 in
  let '(d, s) := strip_zeros 17 d s in
  let ds := str_of_N (Z.to_N d) in
  (ds, (Z.of_nat (length ds) + s)%Z).

Definition zeros (n : Z) : text := repeat Ch.zero (Z.to_nat n).

(** The layout of [repr]: exponent notation when the decimal point falls
    more than 16 digits to the right or 4 or more to the left of the
    first digit; otherwise positional, always with a fractional part. *)
Definition format_repr (ds : text) (decpt : Z) : text :=
  let n := Z.of_nat (length ds) in
  if ((decpt <=? -4) || (16 <? decpt))%Z then
    let x := (decpt - 1)%Z in
    let xs := str_of_N (Z.to_N (Z.abs x)) in
    take 1 ds ++ (if (1 <? n)%Z then Ch.dot :: drop 1 ds else [])
      ++ T "e" ++ [if (x <? 0)%Z then Ch.minus else Ch.plus]
      ++ (if (Z.abs x <? 10)%Z then Ch.zero :: xs else xs)
  else if (decpt <=? 0)%Z then
    T "0." ++ zeros (- decpt) ++ ds
  else if (decpt <? n)%Z then
    take (Z.to_nat decpt) ds ++ Ch.dot :: drop (Z.to_nat decpt) ds
  else
    ds ++ zeros (decpt - n) ++ T ".0".

Definition float_repr (f : float) : text :=
  match f with
  | S754_nan => T "nan"
  | S754_infinity s => if s then T "-inf" else T "inf"
  | S754_zero s => if s then T "-0.0" else T "0.0"
  | S754_finite s m e =>
      let '(ds, decpt) := shortest_digits m e in
      (if s then [Ch.minus] else []) ++ format_repr ds decpt
  end.

(** [int(f)]: truncation towards zero; infinities and NaN raise. *)
Definition int_of_float (f : float) : result Z :=
  match f with
  | S754_nan => Raise (ValueError (T "cannot convert float NaN to integer"))
  | S754_infinity _ =>
      Raise (OverflowError (T "cannot convert float infinity to integer"))
  | S754_zero _ => Ok 0%Z
  | S754_finite s m e =>
      let a := match e with
               | Zneg k => (Zpos m / 2 ^ Zpos k)%Z
               | _ => (Zpos m * 2 ^ e)%Z
               end in
      Ok (if s then Z.opp a else a)
  end.

(** Python's [==] on floats. *)
Definition eqb (a b : float) : bool := SFeqb a b.

End PyFloat.

(** ** JSON values, [json.dump] and [json.loads] *)

Module Json.

(** What [json.loads] returns: [None], [bool], [int], [float], [str],
    [list], and [dict] with [str] keys in insertion order. *)
Unset Elimination Schemes.
Inductive value :=
| VNone
| VBool (b : bool)
| VInt (z : Z)
| VFloat (f : PyFloat.float)
| VStr (s : text)
| VList (items : list value)
| VDict (items : list (text * value)).
Set Elimination Schemes.

(** *** Dictionaries *)

(** [d[k] = v]: replaces the value in place when the key is present,
    appends the key otherwise. *)
Fixpoint dict_set (d : list (text * value)) (k : text) (v : value)
  : list (text * value) :=
  match d with
  | [] => [(k, v)]
  | (k', v') :: d' =>
      if text_eqb k k' then (k', v) :: d' else (k', v') :: dict_set d' k v
  end.

(** [dict(pairs)] *)
Definition dict_of_pairs (pairs : list (text * value)) : list (text * value) :=
  fold_left (fun d kv => dict_set d kv.1 kv.2) pairs [].

(** *** The encoder: [json.encoder] *)

Definition hex_digit (n : N) : N := if n <? 10 then 48 + n else 87 + n.

(** ['\\u{0:04x}'.format(n)] *)
Definition u_escape (n : N) : text :=
  [Ch.backslash; 117; hex_digit (n / 4096 mod 16); hex_digit (n / 256 mod 16);
   hex_digit (n / 16 mod 16); hex_digit (n mod 16)].

(** The replacement of one character in [encode_basestring_ascii]: the
    characters from space to tilde other than the quote and the backslash
    stay; the others are escaped, those above U+FFFF as a surrogate pair. *)
Definition escape_char (c : N) : text :=
  if c =? Ch.quote then [Ch.backslash; Ch.quote]
  else if c =? Ch.backslash then [Ch.backslash; Ch.backslash]
  else if (32 <=? c) && (c <=? 126) then [c]
  else if c =? 8 then T "\b"
  else if c =? 12 then T "\f"
  else if c =? 10 then T "\n"
  else if c =? 13 then T "\r"
  else if c =? 9 then T "\t"
  else if c <? 65536 then u_escape c
  else
    let n := c - 65536 in
    let s1 := N.lor 55296 (N.land (N.shiftr n 10) 1023) in
    let s2 := N.lor 56320 (N.land n 1023) in
    u_escape s1 ++ u_escape s2.

Definition encode_basestring_ascii (s : text) : text :=
  Ch.quote :: concat (map escape_char s) ++ [Ch.quote].

Definition floatstr (o : PyFloat.float) : text :=
  if negb (PyFloat.eqb o o) then T "NaN"
  else if PyFloat.eqb o PyFloat.inf then T "Infinity"
  else if PyFloat.eqb o PyFloat.neginf then T "-Infinity"
  else PyFloat.float_repr o.

(** [sep.join(chunks)] *)
Fixpoint join (sep : text) (chunks : list text) : text :=
  match chunks with
  | [] => []
  | [c] => c
  | c :: cs => c ++ sep ++ join sep cs
  end.

Section Encoder.
(** The encoder's settings: [indent] ([None] or a number of spaces) and
    the two separators. *)
Variable indent : option nat.
Variable item_separator key_separator : text.

(** ['\n' + _indent * level], or nothing without an indent. *)
Definition newline_indent (level : nat) : text :=
  match indent with
  | Some n => Ch.lf :: repeat Ch.space (n * level)
  | None => []
  end.

(** [_iterencode], [_iterencode_list] and [_iterencode_dict], with the
    chunks they yield concatenated. *)
Fixpoint iterencode (o : value) (level : nat) {struct o} : text :=
  match o with
  | VStr s => encode_basestring_ascii s
  | VNone => T "null"
  | VBool true => T "true"
  | VBool false => T "false"
  | VInt z => str_of_int z
  | VFloat f => floatstr f
  | VList [] => T "[]"
  | VList lst =>
      T "[" ++ newline_indent (S level)
        ++ join (item_separator ++ newline_indent (S level))
                (map (fun v => iterencode v (S level)) lst)
        ++ newline_indent level ++ T "]"
  | VDict [] => T "{}"
  | VDict dct =>
      T "{" ++ newline_indent (S level)
        ++ join (item_separator ++ newline_indent (S level))
                (map (fun kv => encode_basestring_ascii kv.1 ++ key_separator
                                  ++ iterencode kv.2 (S level)) dct)
        ++ newline_indent level ++ T "}"
  end.
End Encoder.

(** [json.dumps(obj)]: no indent, separators [', '] and [': ']. *)
Definition dumps (obj : value) : text :=
  iterencode None (T ", ") (T ": ") obj 0.

(** The text [json.dump(obj, fp, indent=n)] writes to [fp]: with an
    indent the item separator is [','] . *)
Definition dump_indent (n : nat) (obj : value) : text :=
  iterencode (Some n) (T ",") (T ": ") obj 0.

(** *** The decoder: [json.decoder] and [json.scanner]

    The decoder works on the text that remains to be read; an error
    carries the length of that remainder, from which the position
    [pos] of [JSONDecodeError(msg, doc, pos)] is recovered. *)

Inductive scan_exn :=
| StopIteration (rest : nat)
| DecodeError (msg : text) (rest : nat)
| Uncaught (e : exn)
| Exhausted.

Inductive scanned (A : Type) :=
| Scanned (a : A)
| Failed (e : scan_exn).
Arguments Scanned {A} a.
Arguments Failed {A} e.

Definition is_ws (c : N) : bool :=
  (c =? Ch.space) || (c =? Ch.tab) || (c =? Ch.lf) || (c =? Ch.cr).

(** [WHITESPACE.match(s, end).end()] *)
Fixpoint skip_ws (s : text) : text :=
  match s with
  | c :: r => if is_ws c then skip_ws r else s
  | [] => []
  end.

Definition hex_value (c : N) : option N :=
  if (48 <=? c) && (c <=? 57) then Some (c - 48)
  else if (97 <=? c) && (c <=? 102) then Some (c - 87)
  else if (65 <=? c) && (c <=? 70) then Some (c - 55)
  else None.

(** [int(esc, 16)] for four hexadecimal digits. *)
Definition hex4 (a b c d : N) : option N :=
  match hex_value a, hex_value b, hex_value c, hex_value d with
  | Some x, Some y, Some z, Some w => Some (((x * 16 + y) * 16 + z) * 16 + w)
  | _, _, _, _ => None
  end.

(** The table [BACKSLASH]. *)
Definition backslash_char (esc : N) : option N :=
  if esc =? Ch.quote then Some Ch.quote
  else if esc =? Ch.backslash then Some Ch.backslash
  else if esc =? Ch.slash then Some Ch.slash
  else if esc =? 98 then Some 8
  else if esc =? 102 then Some 12
  else if esc =? 110 then Some 10
  else if esc =? 114 then Some 13
  else if esc =? 116 then Some 9
  else None.

Definition is_high_surrogate (u : N) : bool := (55296 <=? u) && (u <=? 56319).
Definition is_low_surrogate (u : N) : bool := (56320 <=? u) && (u <=? 57343).
Definition join_surrogates (u u2 : N) : N :=
  65536 + N.lor (N.shiftl (u - 55296) 10) (u2 - 56320).

Definition push (c : N) (r : scanned (text * text)) : scanned (text * text) :=
  match r with
  | Scanned (str, rest) => Scanned (c :: str, rest)
  | Failed e => Failed e
  end.

(** [scanstring(s, end, strict=True)], from the character after the
    opening quote; [begin] locates the opening quote. *)
Fixpoint py_scanstring (s : text) (begin : nat) {struct s}
  : scanned (text * text) :=
  match s with
  | [] => Failed (DecodeError (T "Unterminated string starting at") begin)
  | c :: r =>
      if c =? Ch.quote then Scanned ([], r)
      else if c =? Ch.backslash then
        match r with
        | [] => Failed (DecodeError (T "Unterminated string starting at") begin)
        | esc :: r1 =>
            if esc =? 117 then
              match r1 with
              | h1 :: h2 :: h3 :: h4 :: r2 =>
                  match hex4 h1 h2 h3 h4 with
                  | None => Failed (DecodeError (T "Invalid \uXXXX escape") (length r))
                  | Some uni =>
                      if is_high_surrogate uni then
                        match r2 with
                        | b :: u :: r3 =>
                            if (b =? Ch.backslash) && (u =? 117) then
                              match r3 with
                              | g1 :: g2 :: g3 :: g4 :: r4 =>
                                  match hex4 g1 g2 g3 g4 with
                                  | None =>
                                      Failed (DecodeError (T "Invalid \uXXXX escape")
                                                          (S (length r3)))
                                  | Some uni2 =>
                                      if is_low_surrogate uni2
                                      then push (join_surrogates uni uni2)
                                                (py_scanstring r4 begin)
                                      else push uni (py_scanstring r2 begin)
                                  end
                              | _ => Failed (DecodeError (T "Invalid \uXXXX escape")
                                                         (S (length r3)))
                              end
                            else push uni (py_scanstring r2 begin)
                        | _ => push uni (py_scanstring r2 begin)
                        end
                      else push uni (py_scanstring r2 begin)
                  end
              | _ => Failed (DecodeError (T "Invalid \uXXXX escape") (length r))
              end
            else
              match backslash_char esc with
              | Some ch => push ch (py_scanstring r1 begin)
              | None => Failed (DecodeError (T "Invalid \escape") (S (length r)))
              end
        end
      else if c <? 32 then
        Failed (DecodeError (T "Invalid control character at") (length s))
      else push c (py_scanstring r begin)
  end.

(** The longest run of digits at the head of a text, and what follows. *)
Fixpoint span_digits (s : text) : text * text :=
  match s with
  | c :: r => if is_digit c then let '(ds, r') := span_digits r in (c :: ds, r')
              else ([], s)
  | [] => ([], [])
  end.

(** [NUMBER_RE.match]: the three groups of the pattern and the rest of the
    text. [integer] is an optional minus sign, then a zero or a digit from
    1 to 9 and any digits; [frac] is a dot and one digit or more; [exp]
    is [e] or [E], an optional sign and one digit or more. *)
Definition match_integer (s : text) : option (text * text) :=
  let '(sign, s1) :=
    match s with
    | c :: r => if c =? Ch.minus then ([Ch.minus], r) else ([], s)
    | [] => ([], s)
    end in
  match s1 with
  | c :: r =>
      if c =? Ch.zero then Some (sign ++ [c], r)
      else if is_digit c then
        let '(ds, r') := span_digits r in Some (sign ++ c :: ds, r')
      else None
  | [] => None
  end.

Definition match_frac (s : text) : text * text :=
  match s with
  | c :: r =>
      if c =? Ch.dot then
        match span_digits r with
        | ([], _) => ([], s)
        | (ds, r') => (c :: ds, r')
        end
      else ([], s)
  | [] => ([], s)
  end.

Definition match_exp (s : text) : text * text :=
  match s with
  | c :: r =>
      if (c =? 101) || (c =? 69) then
        let '(sign, r1) :=
          match r with
          | d :: r' => if (d =? Ch.minus) || (d =? Ch.plus) then ([d], r') else ([], r)
          | [] => ([], r)
          end in
        match span_digits r1 with
        | ([], _) => ([], s)
        | (ds, r') => (c :: sign ++ ds, r')
        end
      else ([], s)
  | [] => ([], s)
  end.

Definition match_number (s : text) : option (text * text * text * text) :=
  match match_integer s with
  | Some (integer, r) =>
      let '(frac, r1) := match_frac r in
      let '(exp, r2) := match_exp r1 in
      Some (integer, frac, exp, r2)
  | None => None
  end.

Section Scanner.
(** [parse_constant], the decoder's hook for [NaN], [Infinity] and
    [-Infinity]. *)
Variable parse_constant : text -> result value.

Definition constant (name rest : text) : scanned (value * text) :=
  match parse_constant name with
  | Ok v => Scanned (v, rest)
  | Raise e => Failed (Uncaught e)
  end.

(** A [StopIteration] of [scan_once] becomes "Expecting value". *)
Definition expecting_value {A} (r : scanned A) : scanned A :=
  match r with
  | Failed (StopIteration rest) => Failed (DecodeError (T "Expecting value") rest)
  | _ => r
  end.

(** The loop of [JSONArray], entered before a value. [fuel] bounds the
    number of iterations. *)
Fixpoint JSONArray_loop (scan_once : text -> scanned (value * text))
    (fuel : nat) (s : text) (values : list value) : scanned (value * text) :=
  match fuel with
  | O => Failed Exhausted
  | S fuel' =>
      match expecting_value (scan_once s) with
      | Failed e => Failed e
      | Scanned (v, r) =>
          let r := skip_ws r in
          match r with
          | c :: r' =>
              if c =? Ch.rbracket then Scanned (VList (rev (v :: values)), r')
              else if c =? Ch.comma
              then JSONArray_loop scan_once fuel' (skip_ws r') (v :: values)
              else Failed (DecodeError (T "Expecting ',' delimiter") (length r))
          | [] => Failed (DecodeError (T "Expecting ',' delimiter") 0)
          end
      end
  end.

(** [JSONArray((s, end), scan_once)], from the character after the
    opening bracket. *)
Definition JSONArray (scan_once : text -> scanned (value * text)) (s : text)
  : scanned (value * text) :=
  let s := skip_ws s in
  match s with
  | c :: r =>
      if c =? Ch.rbracket then Scanned (VList [], r)
      else JSONArray_loop scan_once (S (length s)) s []
  | [] => JSONArray_loop scan_once (S (length s)) s []
  end.

(** The loop of [JSONObject], entered after the opening quote of a key. *)
Fixpoint JSONObject_loop (scan_once : text -> scanned (value * text))
    (fuel : nat) (s : text) (begin : nat) (pairs : list (text * value))
  : scanned (value * text) :=
  match fuel with
  | O => Failed Exhausted
  | S fuel' =>
      match py_scanstring s begin with
      | Failed e => Failed e
      | Scanned (key, r) =>
          let r := skip_ws r in
          match r with
          | c :: r1 =>
              if c =? Ch.colon then
                match expecting_value (scan_once (skip_ws r1)) with
                | Failed e => Failed e
                | Scanned (v, r2) =>
                    let r2 := skip_ws r2 in
                    match r2 with
                    | d :: r3 =>
                        if d =? Ch.rbrace
                        then Scanned (VDict (dict_of_pairs (rev ((key, v) :: pairs))), r3)
                        else if d =? Ch.comma then
                          let r3 := skip_ws r3 in
                          match r3 with
                          | q :: r4 =>
                              if q =? Ch.quote
                              then JSONObject_loop scan_once fuel' r4 (length r3)
                                                   ((key, v) :: pairs)
                              else Failed (DecodeError
                                (T "Expecting property name enclosed in double quotes")
                                (length r3))
                          | [] => Failed (DecodeError
                                (T "Expecting property name enclosed in double quotes") 0)
                          end
                        else Failed (DecodeError (T "Expecting ',' delimiter") (length r2))
                    | [] => Failed (DecodeError (T "Expecting ',' delimiter") 0)
                    end
                end
              else Failed (DecodeError (T "Expecting ':' delimiter") (length r))
          | [] => Failed (DecodeError (T "Expecting ':' delimiter") 0)
          end
      end
  end.

(** [JSONObject((s, end), strict, scan_once, ...)], from the character
    after the opening brace. *)
Definition JSONObject (scan_once : text -> scanned (value * text)) (s : text)
  : scanned (value * text) :=
  let s := skip_ws s in
  match s with
  | c :: r =>
      if c =? Ch.quote then JSONObject_loop scan_once (S (length s)) r (length s) []
      else if c =? Ch.rbrace then Scanned (VDict [], r)
      else Failed (DecodeError
             (T "Expecting property name enclosed in double quotes") (length s))
  | [] => Failed (DecodeError
             (T "Expecting property name enclosed in double quotes") 0)
  end.

Definition recursion_error (what : string) : scan_exn :=
  Uncaught (RecursionError
    (T "maximum recursion depth exceeded while decoding a JSON "
       ++ T what ++ T " from a unicode string")).

(** [scan_once(string, idx)]. [depth] is the number of nested
    containers the interpreter's recursion limit still allows. *)
Fixpoint scan_once (depth : nat) (s : text) {struct depth}
  : scanned (value * text) :=
  match s with
  | [] => Failed (StopIteration 0)
  | nextchar :: r =>
      if nextchar =? Ch.quote then
        match py_scanstring r (length s) with
        | Scanned (str, rest) => Scanned (VStr str, rest)
        | Failed e => Failed e
        end
      else if nextchar =? Ch.lbrace then
        match depth with
        | O => Failed (recursion_error "object")
        | S depth' => JSONObject (scan_once depth') r
        end
      else if nextchar =? Ch.lbracket then
        match depth with
        | O => Failed (recursion_error "array")
        | S depth' => JSONArray (scan_once depth') r
        end
      else if startswith (T "null") s then Scanned (VNone, drop 4 s)
      else if startswith (T "true") s then Scanned (VBool true, drop 4 s)
      else if startswith (T "false") s then Scanned (VBool false, drop 5 s)
      else
        match match_number s with
        | Some (integer, frac, exp, rest) =>
            match frac, exp with
            | [], [] => Scanned (VInt (int_of_literal integer), rest)
            | _, _ => Scanned (VFloat (PyFloat.parse_float integer frac exp), rest)
            end
        | None =>
            if startswith (T "NaN") s then constant (T "NaN") (drop 3 s)
            else if startswith (T "Infinity") s then constant (T "Infinity") (drop 8 s)
            else if startswith (T "-Infinity") s then constant (T "-Infinity") (drop 9 s)
            else Failed (StopIteration (length s))
        end
  end.

(** [JSONDecoder.decode(s)] *)
Definition decode (depth : nat) (s : text) : result value :=
  let located rest := (length s - rest)%nat in
  match expecting_value (scan_once depth (skip_ws s)) with
  | Scanned (obj, r) =>
      match skip_ws r with
      | [] => Ok obj
      | c :: r' => Raise (JSONDecodeError (T "Extra data") s (located (S (length r'))))
      end
  | Failed (DecodeError msg rest) => Raise (JSONDecodeError msg s (located rest))
  | Failed (StopIteration rest) => Raise (JSONDecodeError (T "Expecting value") s (located rest))
  | Failed (Uncaught e) => Raise e
  | Failed Exhausted => Raise (RecursionError (T "iteration budget exhausted"))
  end.
End Scanner.

(** The table [_CONSTANTS], the default [parse_constant]. *)
Definition default_parse_constant (name : text) : result value :=
  if text_eqb name (T "NaN") then Ok (VFloat PyFloat.nan)
  else if text_eqb name (T "Infinity") then Ok (VFloat PyFloat.inf)
  else if text_eqb name (T "-Infinity") then Ok (VFloat PyFloat.neginf)
  else Raise (KeyError name).

(** [json.loads(s)] for a [str] argument. *)
Definition loads (depth : nat) (s : text) : result value :=
  if startswith [65279] s
  then Raise (JSONDecodeError (T "Unexpected UTF-8 BOM (decode using utf-8-sig)") s 0)
  else decode default_parse_constant depth s.

End Json.

(** ** UTF-8 *)

Module Utf8.

Definition is_continuation (b : N) : bool := (128 <=? b) && (b <? 192).

Definition prepend (c : N) (r : result text) : result text :=
  match r with
  | Ok t => Ok (c :: t)
  | Raise e => Raise e
  end.

Section Decoder.
(** The whole input, for the error report. *)
Variable object : bytes.

Definition invalid (start width : nat) (reason : string) : result text :=
  Raise (UnicodeDecodeError object start (start + width) (T reason)).

Definition truncated (start : nat) : result text :=
  Raise (UnicodeDecodeError object start (length object)
                            (T "unexpected end of data")).

(** The strict UTF-8 decoder, from the byte at index [pos]. A code
    point is the sum of its bytes, each shifted to its place, less the
    marker bits of all of them: [(ch << 6) + ch2 - ((0xC0 << 6) + 0x80)]
    for two bytes, and so on. *)
Fixpoint decode_from (s : list N) (pos : nat) {struct s} : result text :=
  match s with
  | [] => Ok []
  | ch :: r =>
      if ch <? 128 then prepend ch (decode_from r (pos + 1))
      else if ch <? 194 then invalid pos 1 "invalid start byte"
      else if ch <? 224 then
        match r with
        | [] => truncated pos
        | ch2 :: r2 =>
            if negb (is_continuation ch2)
            then invalid pos 1 "invalid continuation byte"
            else prepend (ch * 64 + ch2 - 12416) (decode_from r2 (pos + 2))
        end
      else if ch <? 240 then
        match r with
        | [] => truncated pos
        | ch2 :: r2 =>
            if negb (is_continuation ch2)
               || (if ch2 <? 160 then ch =? 224 else ch =? 237)
            then invalid pos 1 "invalid continuation byte"
            else
              match r2 with
              | [] => truncated pos
              | ch3 :: r3 =>
                  if negb (is_continuation ch3)
                  then invalid pos 2 "invalid continuation byte"
                  else prepend (ch * 4096 + ch2 * 64 + ch3 - 925824)
                               (decode_from r3 (pos + 3))
              end
        end
      else if ch <? 245 then
        match r with
        | [] => truncated pos
        | ch2 :: r2 =>
            if negb (is_continuation ch2)
               || (if ch2 <? 144 then ch =? 240 else ch =? 244)
            then invalid pos 1 "invalid continuation byte"
            else
              match r2 with
              | [] => truncated pos
              | ch3 :: r3 =>
                  if negb (is_continuation ch3)
                  then invalid pos 2 "invalid continuation byte"
                  else
                    match r3 with
                    | [] => truncated pos
                    | ch4 :: r4 =>
                        if negb (is_continuation ch4)
                        then invalid pos 3 "invalid continuation byte"
                        else prepend
                               (ch * 262144 + ch2 * 4096 + ch3 * 64 + ch4
                                - 63447168)
                               (decode_from r4 (pos + 4))
                    end
              end
        end
      else invalid pos 1 "invalid start byte"
  end.
End Decoder.

(** [b.decode('utf-8')] *)
Definition decode (b : bytes) : result text :=
  decode_from b (map Byte.to_N b) 0.

Definition byte_of_N (n : N) : Byte.byte :=
  match Byte.of_N n with
  | Some b => b
  | None => Byte.x00
  end.

Definition is_surrogate (c : N) : bool := (55296 <=? c) && (c <=? 57343).

(** The UTF-8 encoding of one code point that is not a surrogate. *)
Definition encode_char (c : N) : list N :=
  if c <? 128 then [c]
  else if c <? 2048 then [192 + c / 64; 128 + c mod 64]
  else if c <? 65536 then [224 + c / 4096; 128 + c / 64 mod 64; 128 + c mod 64]
  else [240 + c / 262144; 128 + c / 4096 mod 64; 128 + c / 64 mod 64; 128 + c mod 64].

Fixpoint encode_from (whole s : text) (pos : nat) : result bytes :=
  match s with
  | [] => Ok []
  | c :: r =>
      if is_surrogate c
      then Raise (UnicodeEncodeError whole pos (pos + 1) (T "surrogates not allowed"))
      else
        match encode_from whole r (pos + 1) with
        | Ok b => Ok (map byte_of_N (encode_char c) ++ b)
        | Raise e => Raise e
        end
  end.

(** [s.encode()] *)
Definition encode (s : text) : result bytes := encode_from s s 0.

End Utf8.

(** ** The server *)

Module Server.
Import Json.

Definition PORT : N := 8100.
Definition EPISODES_DIR : text := T "episodes".

(** *** Pieces of the Python library the handler calls *)

(** Python's white space, which [int(str)] strips. *)
Definition is_space (c : N) : bool :=
  ((9 <=? c) && (c <=? 13)) || ((28 <=? c) && (c <=? 32))
  || (c =? 133) || (c =? 160) || (c =? 5760)
  || ((8192 <=? c) && (c <=? 8202)) || (c =? 8232) || (c =? 8233)
  || (c =? 8239) || (c =? 8287) || (c =? 12288).

Fixpoint lstrip (s : text) : text :=
  match s with
  | c :: r => if is_space c then lstrip r else s
  | [] => []
  end.

Definition strip (s : text) : text := rev (lstrip (rev (lstrip s))).

(** Digits with single underscores between them: the value, if the text
    has that form. [after_digit] says whether the previous character was
    a digit. *)
Fixpoint int_digits (s : text) (after_digit : bool) (acc : N) : option N :=
  match s with
  | [] => if after_digit then Some acc else None
  | c :: r =>
      if is_digit c then int_digits r true (acc * 10 + (c - 48))
      else if (c =? Ch.underscore) && after_digit then int_digits r false acc
      else None
  end.

(** [int(s)] for a [str]: white space around, an optional sign, decimal
    digits. Header values are Latin-1 text, where the only decimal digits
    are 0 to 9. *)
Definition int_of_str (s : text) : result Z :=
  let invalid := Raise (ValueError (T "invalid literal for int() with base 10")) in
  let body := strip s in
  let '(neg, ds) :=
    match body with
    | c :: r => if c =? Ch.minus then (true, r)
                else if c =? Ch.plus then (false, r) else (false, body)
    | [] => (false, [])
    end in
  match int_digits ds false 0 with
  | Some n => Ok (if neg then Z.opp (Z.of_N n) else Z.of_N n)
  | None => invalid
  end.

(** [int(x)] where [x] is a header value or [None]. *)
Definition int_of_header (x : option text) : result Z :=
  match x with
  | Some s => int_of_str s
  | None => Raise (TypeError (T "int() argument must be a string, a bytes-like object or a real number, not 'NoneType'"))
  end.

Definition lower_char (c : N) : N := if (65 <=? c) && (c <=? 90) then c + 32 else c.
Definition lower (s : text) : text := map lower_char s.

(** [headers[name]]: the first header of that name, compared without
    case, or [None]. *)
Fixpoint get_header (headers : list (text * text)) (name : text) : option text :=
  match headers with
  | [] => None
  | (k, v) :: rest =>
      if text_eqb (lower k) (lower name) then Some v else get_header rest name
  end.

(** [rfile.read(n)]: at most [n] bytes, the whole stream when [n] is
    negative. *)
Definition read (rfile : bytes) (n : Z) : bytes :=
  if (n <? 0)%Z then rfile else take (Z.to_nat n) rfile.

(** [os.path.join(a, b)] *)
Definition path_join (a b : text) : text :=
  if startswith [Ch.slash] b then b
  else if bool_decide (a = []) || bool_decide (last a = Some Ch.slash) then a ++ b
  else a ++ Ch.slash :: b.

(** The directory part of a path: what precedes its last slash. *)
Fixpoint dirname (p : text) : text :=
  match p with
  | [] => []
  | c :: r =>
      if bool_decide (Ch.slash ∈ r) then c :: dirname r
      else []
  end.

(** *** [str(e)] *)

Definition hex2 (n : N) : text := [hex_digit (n / 16 mod 16); hex_digit (n mod 16)].

Definition count_lf (s : text) : nat := length (filter (fun c => c = Ch.lf) s).

(** Characters after the last line feed. *)
Fixpoint after_last_lf (s : text) : text :=
  match s with
  | [] => []
  | c :: r => if bool_decide (Ch.lf ∈ s) then after_last_lf r else s
  end.

Definition str_of_nat (n : nat) : text := str_of_N (N.of_nat n).

Definition exn_str (e : exn) : text :=
  match e with
  | TypeError msg | ValueError msg | OverflowError msg | RecursionError msg => msg
  | KeyError key => T "'" ++ key ++ T "'"
  | OSError description => description
  | JSONDecodeError msg doc pos =>
      let before := take pos doc in
      msg ++ T ": line " ++ str_of_nat (count_lf before + 1)
          ++ T " column " ++ str_of_nat (length (after_last_lf before) + 1)
          ++ T " (char " ++ str_of_nat pos ++ T ")"
  | UnicodeDecodeError object start stop reason =>
      if bool_decide (stop = S start) then
        T "'utf-8' codec can't decode byte 0x"
          ++ hex2 (from_option Byte.to_N 0 (object !! start))
          ++ T " in position " ++ str_of_nat start ++ T ": " ++ reason
      else
        T "'utf-8' codec can't decode bytes in position " ++ str_of_nat start
          ++ T "-" ++ str_of_nat (stop - 1) ++ T ": " ++ reason
  | UnicodeEncodeError object start stop reason =>
      T "'utf-8' codec can't encode character '\u"
        ++ drop 2 (u_escape (default 0 (object !! start)))
        ++ T "' in position " ++ str_of_nat start ++ T ": " ++ reason
  end.

(** *** The world of one request *)

Inductive node :=
| File (content : text)
| Directory.

(** The file system below the working directory, by relative path. A file
    holds the text written to it. *)
Abbreviation filesystem := (gmap text node).

(** What the handler writes to the connection, call by call. *)
Inductive wire :=
| Status (code : nat)
| Header (keyword value : text)
| EndHeaders
| Body (data : bytes).

(** A parsed request: [self.command], [self.path], [self.headers] and the
    bytes that [self.rfile] holds. *)
Record request := {
  command : text;
  path : text;
  headers : list (text * text);
  rfile : bytes;
}.

(** What the surroundings decide while one request is handled. *)
Record environment := {
  (** the value [time.time()] returns *)
  time_time : PyFloat.float;
  (** how many nested containers the recursion limit lets the decoder enter *)
  recursion_depth : nat;
  (** the error, if any, of opening a file in an existing directory *)
  open_raises : option exn;
  (** whether [json.dump] fails, after how many characters, and how *)
  dump_raises : option (nat * exn);
  (** the values of the [Server] and [Date] headers *)
  version_string : text;
  date_time_string : text;
  (** the page [send_error] renders for a status code *)
  error_page : nat -> bytes;
  (** what the inherited [do_GET] and [do_HEAD] of
      [SimpleHTTPRequestHandler] write: they serve the working directory *)
  static_files : request -> filesystem -> list wire;
}.

Record world := {
  fs : filesystem;
  wfile : list wire;
  stdout : list text;
}.

(** Computations that change the world and may raise. *)
Definition M (A : Type) := world -> world * result A.

Definition ret {A} (a : A) : M A := fun w => (w, Ok a).
Definition raise {A} (e : exn) : M A := fun w => (w, Raise e).
Definition lift {A} (r : result A) : M A := fun w => (w, r).
Definition mbind {A B} (m : M A) (k : A -> M B) : M B :=
  fun w => match m w with
           | (w', Ok a) => k a w'
           | (w', Raise e) => (w', Raise e)
           end.
(** [try: body  except Exception as e: handler] *)
Definition try_except {A} (body : M A) (handler : exn -> M A) : M A :=
  fun w => match body w with
           | (w', Raise e) => handler e w'
           | done => done
           end.

Notation "'do!' x ':=' m 'in' k" := (mbind m (fun x => k))
  (at level 10, x pattern, m at level 200, k at level 200).

Definition write (item : wire) : M unit :=
  fun w => ({| fs := fs w; wfile := wfile w ++ [item]; stdout := stdout w |}, Ok tt).

Definition print (line : text) : M unit :=
  fun w => ({| fs := fs w; wfile := wfile w; stdout := stdout w ++ [line] |}, Ok tt).

Definition set_fs (f : filesystem) : M unit :=
  fun w => ({| fs := f; wfile := wfile w; stdout := stdout w |}, Ok tt).

Definition get_fs : M filesystem := fun w => (w, Ok (fs w)).

Section Handler.
Variable env : environment.

(** [send_response(code)]: the status line, then the [Server] and
    [Date] headers. *)
Definition send_response (code : nat) : M unit :=
  do! _ := write (Status code) in
  do! _ := write (Header (T "Server") (version_string env)) in
  write (Header (T "Date") (date_time_string env)).

Definition send_header (keyword value : text) : M unit :=
  write (Header keyword value).

Definition end_headers : M unit := write EndHeaders.

Definition wfile_write (data : bytes) : M unit := write (Body data).

(** [send_error(code)] *)
Definition send_error (self : request) (code : nat) : M unit :=
  do! _ := send_response code in
  do! _ := send_header (T "Connection") (T "close") in
  let body := error_page env code in
  do! _ := send_header (T "Content-Type") (T "text/html;charset=utf-8") in
  do! _ := send_header (T "Content-Length") (str_of_nat (length body)) in
  do! _ := end_headers in
  if bool_decide (command self = T "HEAD") || bool_decide (body = [])
  then ret tt else wfile_write body.

Definition is_directory (f : filesystem) (p : text) : bool :=
  match f !! p with
  | Some Directory => true
  | _ => false
  end.

(** [with open(filepath, 'w') as f: json.dump(data, f, indent=2)].
    Opening needs the directory of the path and creates or empties the
    file; what [json.dump] wrote before a failure stays in the file. *)
Definition dump_to_file (filepath : text) (data : value) : M unit :=
  do! f := get_fs in
  let parent := dirname filepath in
  if negb (bool_decide (parent = [])) && negb (is_directory f parent) then
    raise (OSError (T "[Errno 2] No such file or directory: '" ++ filepath ++ T "'"))
  else if is_directory f filepath then
    raise (OSError (T "[Errno 21] Is a directory: '" ++ filepath ++ T "'"))
  else
    match open_raises env with
    | Some e => raise e
    | None =>
        let chunks := dump_indent 2 data in
        match dump_raises env with
        | Some (written, e) =>
            do! _ := set_fs (<[filepath := File (take written chunks)]> f) in
            raise e
        | None => set_fs (<[filepath := File chunks]> f)
        end
    end.

(** The response bodies: [json.dumps({...}).encode()]. *)
Definition success_body (filename : text) : result bytes :=
  Utf8.encode (dumps (VDict [(T "status", VStr (T "success"));
                             (T "file", VStr filename)])).

Definition error_body (e : exn) : result bytes :=
  Utf8.encode (dumps (VDict [(T "status", VStr (T "error"));
                             (T "message", VStr (exn_str e))])).

(** The [try] block of [do_POST]. *)
Definition try_block (post_data : bytes) : M unit :=
  do! data :=
    lift (let* s := Utf8.decode post_data in loads (recursion_depth env) s) in
  (* Generate filename *)
  do! timestamp := lift (PyFloat.int_of_float (time_time env)) in
  let filename := T "episode_" ++ str_of_int timestamp ++ T ".json" in
  let filepath := path_join EPISODES_DIR filename in
  (* Save to file *)
  do! _ := dump_to_file filepath data in
  do! _ := print (T "Saved episode to " ++ filepath) in
  do! _ := send_response 200 in
  do! _ := send_header (T "Content-type") (T "application/json") in
  do! _ := end_headers in
  do! body := lift (success_body filename) in
  wfile_write body.

(** The [except Exception as e] block of [do_POST]. *)
Definition except_block (e : exn) : M unit :=
  do! _ := print (T "Error saving episode: " ++ exn_str e) in
  do! _ := send_response 500 in
  do! _ := end_headers in
  do! body := lift (error_body e) in
  wfile_write body.

(** [Handler.do_POST] *)
Definition do_POST (self : request) : M unit :=
  if text_eqb (path self) (T "/save") then
    do! content_length :=
      lift (int_of_header (get_header (headers self) (T "Content-Length"))) in
    let post_data := read (rfile self) content_length in
    try_except (try_block post_data) except_block
  else
    send_error self 404.

(** The inherited [do_GET] and [do_HEAD]. *)
Definition do_static (self : request) : M unit :=
  fun w => ({| fs := fs w; wfile := wfile w ++ static_files env self (fs w);
               stdout := stdout w |}, Ok tt).

(** The dispatch of [handle_one_request]: the method [do_<command>] of
    [Handler] when it has one, else 501. [Handler] defines [do_POST]
    and inherits [do_GET] and [do_HEAD]. *)
Definition handle_one_request (self : request) : M unit :=
  if text_eqb (command self) (T "POST") then do_POST self
  else if text_eqb (command self) (T "GET") || text_eqb (command self) (T "HEAD")
  then do_static self
  else send_error self 501.
End Handler.

(** *** The serving loop *)

(** What a client got: the bytes written to its connection, and the
    exception that left the handler, if one did. The server reports such
    an exception on its console and closes the connection. *)
Record exchange := {
  sent : list wire;
  uncaught : option exn;
}.

(** One turn of [serve_forever]: one connection, one request. *)
Definition process_request (env : environment) (self : request)
    (state : filesystem * list text) : (filesystem * list text) * exchange :=
  let '(w, r) :=
    handle_one_request env self
      {| fs := state.1; wfile := []; stdout := state.2 |} in
  ((fs w, stdout w),
   {| sent := wfile w;
      uncaught := match r with Ok _ => None | Raise e => Some e end |}).

(** [httpd.serve_forever()] over the requests that arrive. *)
Fixpoint serve_forever (state : filesystem * list text)
    (incoming : list (environment * request))
  : (filesystem * list text) * list exchange :=
  match incoming with
  | [] => (state, [])
  | (env, self) :: rest =>
      let '(state', x) := process_request env self state in
      let '(final, xs) := serve_forever state' rest in
      (final, x :: xs)
  end.

(** What can go wrong before the first request is served. *)
Record startup := {
  makedirs_raises : option exn;
  bind_raises : option exn;
}.

(** The [__main__] block. [Raise] is the death of the process at start-up. *)
Definition main (start : startup) (disk : filesystem)
    (incoming : list (environment * request))
  : result ((filesystem * list text) * list exchange) :=
  let* disk :=
    match disk !! EPISODES_DIR with
    | Some _ => Ok disk
    | None =>
        match makedirs_raises start with
        | Some e => Raise e
        | None => Ok (<[EPISODES_DIR := Directory]> disk)
        end
    end in
  match bind_raises start with
  | Some e => Raise e
  | None =>
      Ok (serve_forever
            (disk, [T "Serving at port " ++ str_of_N PORT;
                    T "Episodes will be saved to ./" ++ EPISODES_DIR])
            incoming)
  end.

End Server.

(** * The vocabulary of the specification *)

Import Json Server.

Module Spec.
Definition is_ascii (c : N) : Prop := c < 128.
Definition plain (c : N) : Prop := 32 <= c <= 126 /\ c <> 34 /\ c <> 92.

(** [s] between double quotes. *)
Definition quoted (s : text) : text := Ch.quote :: s ++ [Ch.quote].

(** [episode_<t>.json] and its path under the output directory. *)
Definition episode_name (t : Z) : text := T "episode_" ++ str_of_int t ++ T ".json".
Definition episode_path (t : Z) : text := EPISODES_DIR ++ T "/" ++ episode_name t.

(** The declared length of the body, and the body read. *)
Definition content_length (self : request) : result Z :=
  int_of_header (get_header (headers self) (T "Content-Length")).

(** The payload: the body decoded as UTF-8 and parsed as JSON. *)
Definition payload (env : environment) (post_data : bytes) : result value :=
  let* s := Utf8.decode post_data in loads (recursion_depth env) s.

Definition server_headers (env : environment) : list wire :=
  [Header (T "Server") (version_string env); Header (T "Date") (date_time_string env)].

(** 200, content type [application/json], body
    [{"status": "success", "file": "<filename>"}]. *)
Definition success_response (env : environment) (filename : text) : list wire :=
  Status 200 :: server_headers env
    ++ [Header (T "Content-type") (T "application/json"); EndHeaders;
        Body (map Utf8.byte_of_N
                  (T "{" ++ quoted (T "status") ++ T ": " ++ quoted (T "success")
                     ++ T ", " ++ quoted (T "file") ++ T ": " ++ quoted filename
                     ++ T "}"))].

(** 500, no content type, body [{"status": "error", "message": "<str(e)>"}]
    with the message as a JSON string literal. *)
Definition failure_response (env : environment) (e : exn) : list wire :=
  Status 500 :: server_headers env
    ++ [EndHeaders;
        Body (map Utf8.byte_of_N
                  (T "{" ++ quoted (T "status") ++ T ": " ++ quoted (T "error")
                     ++ T ", " ++ quoted (T "message") ++ T ": "
                     ++ encode_basestring_ascii (exn_str e) ++ T "}"))].

(** The answer of [send_error]. *)
Definition error_response (env : environment) (self : request) (code : nat)
  : list wire :=
  Status code :: server_headers env
    ++ [Header (T "Connection") (T "close");
        Header (T "Content-Type") (T "text/html;charset=utf-8");
        Header (T "Content-Length") (str_of_nat (length (error_page env code)));
        EndHeaders]
    ++ (if bool_decide (command self = T "HEAD") || bool_decide (error_page env code = [])
        then [] else [Body (error_page env code)]).

(** The status code of a response, when it has one. *)
Definition status_of (sent : list wire) : option nat :=
  match sent with
  | Status code :: _ => Some code
  | _ => None
  end.

(** The headers of a response whose name is [keyword], case apart. *)
Definition is_header_named (keyword : text) (w : wire) : bool :=
  match w with
  | Header k _ => text_eqb (lower k) (lower keyword)
  | _ => false
  end.

Definition headers_named (keyword : text) (sent : list wire) : list wire :=
  List.filter (is_header_named keyword) sent.


(** A request the handler treats as a save: POST to [/save]. *)
Definition is_save (self : request) : Prop :=
  command self = T "POST" /\ path self = T "/save".

(** The file of second [t] can be written: the output directory exists,
    the path is not a directory, and neither opening nor dumping fails. *)
Definition writable (env : environment) (f : filesystem) (t : Z) : Prop :=
  is_directory f EPISODES_DIR = true /\ is_directory f (episode_path t) = false
  /\ open_raises env = None /\ dump_raises env = None.

(** The ways the [try] block fails on a body: decoding or parsing, the
    conversion of the clock reading, opening the file, dumping to it. *)
Inductive save_fails (env : environment) (f : filesystem) (post_data : bytes)
  : exn -> Prop :=
| payload_fails e :
    payload env post_data = Raise e -> save_fails env f post_data e
| clock_fails v e :
    payload env post_data = Ok v ->
    PyFloat.int_of_float (time_time env) = Raise e ->
    save_fails env f post_data e
| missing_directory v t :
    payload env post_data = Ok v ->
    PyFloat.int_of_float (time_time env) = Ok t ->
    is_directory f EPISODES_DIR = false ->
    save_fails env f post_data
      (OSError (T "[Errno 2] No such file or directory: '" ++ episode_path t ++ T "'"))
| path_is_directory v t :
    payload env post_data = Ok v ->
    PyFloat.int_of_float (time_time env) = Ok t ->
    is_directory f EPISODES_DIR = true ->
    is_directory f (episode_path t) = true ->
    save_fails env f post_data
      (OSError (T "[Errno 21] Is a directory: '" ++ episode_path t ++ T "'"))
| open_fails v t e :
    payload env post_data = Ok v ->
    PyFloat.int_of_float (time_time env) = Ok t ->
    is_directory f EPISODES_DIR = true ->
    is_directory f (episode_path t) = false ->
    open_raises env = Some e ->
    save_fails env f post_data e
| dump_fails v t written e :
    payload env post_data = Ok v ->
    PyFloat.int_of_float (time_time env) = Ok t ->
    is_directory f EPISODES_DIR = true ->
    is_directory f (episode_path t) = false ->
    open_raises env = None ->
    dump_raises env = Some (written, e) ->
    save_fails env f post_data e.

(** [parse_constant] of a decoder that refuses [NaN], [Infinity] and
    [-Infinity], which standard JSON does not have. *)
Definition refuse_constant (name : text) : result value :=
  Raise (ValueError (T "invalid JSON constant: " ++ name)).

(** Standard JSON: the texts the decoder accepts when it refuses the
    three constants. *)
Definition standard_json (depth : nat) (s : text) : bool :=
  negb (startswith [65279] s) && is_ok (decode refuse_constant depth s).
(** [t] is the clock reading [f] without its fraction: [|t| <= |f| < |t| + 1]
    with the sign of [f]. *)
Definition truncates (f : PyFloat.float) (t : Z) : Prop :=
  match f with
  | S754_zero _ => t = 0%Z
  | S754_finite s m e =>
      let a := if s then Z.opp t else t in
      (0 <= a)%Z
      /\ (a * 2 ^ Z.max (- e) 0 <= Zpos m * 2 ^ Z.max e 0 < (a + 1) * 2 ^ Z.max (- e) 0)%Z
  | _ => False
  end.

(** The state in which [main] starts to serve. *)
Definition serving_state (disk : filesystem) : filesystem * list text :=
  (match disk !! EPISODES_DIR with
   | Some _ => disk
   | None => <[EPISODES_DIR := Directory]> disk
   end,
   [T "Serving at port " ++ str_of_N PORT;
    T "Episodes will be saved to ./" ++ EPISODES_DIR]).
End Spec.

Module Scenario.
Import Spec.

(** A clock reading of 1700000000.75 seconds, and surroundings in which
    nothing fails. *)
Definition env : environment :=
  {| time_time := PyFloat.parse_float (T "1700000000") (T ".75") [];
     recursion_depth := 900;
     open_raises := None;
     dump_raises := None;
     version_string := T "SimpleHTTP/0.6 Python/3.11.4";
     date_time_string := T "Tue, 14 Nov 2023 22:13:20 GMT";
     error_page := fun _ => map Utf8.byte_of_N (T "<html>Error response</html>");
     static_files := fun _ _ => [] |}.

(** A request that declares the length of its body. *)
Definition request_of (method target body : text) : request :=
  {| command := method;
     path := target;
     headers := [(T "Host", T "localhost:8100");
                 (T "Content-Length", str_of_nat (length body))];
     rfile := map Utf8.byte_of_N body |}.

(** The same request without the [Content-Length] header. *)
Definition request_without_length (method target body : text) : request :=
  {| command := method;
     path := target;
     headers := [(T "Host", T "localhost:8100")];
     rfile := map Utf8.byte_of_N body |}.

(** The disk after start-up: the output directory, empty. *)
Definition disk : filesystem := {[ EPISODES_DIR := Directory ]}.

Definition start : filesystem * list text := (disk, []).

(** A save of the JSON text [[1, 2.5]], and the value it denotes. *)
Definition save_request : request := request_of (T "POST") (T "/save") (T "[1, 2.5]").
Definition saved_value : value :=
  VList [VInt 1; VFloat (PyFloat.parse_float (T "2") (T ".5") [])].
Definition second : Z := 1700000000.
End Scenario.

Import Spec.

(** * The vocabulary of the proofs *)

(** ** Rounding to binary64 *)

(** The record of a shift describes [y >= 0]: its mantissa is the integer
    part of [y], its round bit says whether the rest reaches one half, its
    sticky bit whether the rest is anything but zero or one half. *)
Definition rec_ok (y : Q) (mrs : shr_record) : Prop :=
  (0 <= shr_m mrs)%Z
  /\ (inject_Z (shr_m mrs) <= y < inject_Z (shr_m mrs) + 1)%Q
  /\ (shr_r mrs = true <-> (inject_Z (shr_m mrs) + (1 # 2) <= y)%Q)
  /\ (shr_s mrs = false <->
      (y == inject_Z (shr_m mrs) \/ y == inject_Z (shr_m mrs) + (1 # 2))%Q).

(** The exponent of the last place for a number of magnitude [k]. *)
Definition fexp (k : Z) : Z := SpecFloat.fexp PyFloat.prec PyFloat.emax k.

(** [k] is the magnitude of [x]: [2^(k-1) <= x < 2^k]. *)
Definition mag_of (x : Q) (k : Z) : Prop := (2 ^ (k - 1) <= x < 2 ^ k)%Q.

(** The exponent at which [x] is rounded: [fexp] of its magnitude. *)
Definition canon_exp (x : Q) (e0 : Z) : Prop :=
  ((x < 2 ^ (-1021))%Q /\ e0 = (-1074)%Z)
  \/ (exists k, (-1021 < k)%Z /\ mag_of x k /\ e0 = (k - 53)%Z).

(** What [binary_round_aux] does once the mantissa is at the exponent of
    the last place. *)
Definition finish (sx : bool) (mrs : shr_record) (e0 : Z) : spec_float :=
  let '(mrs'', e'') :=
    shr_fexp PyFloat.prec PyFloat.emax
      (round_nearest_even (shr_m mrs) (loc_of_shr_record mrs)) e0 loc_Exact in
  match shr_m mrs'' with
  | Z0 => S754_zero sx
  | Zpos m =>
      if (e'' <=? PyFloat.emax - PyFloat.prec)%Z then S754_finite sx m e''
      else S754_infinity sx
  | _ => S754_nan
  end.

(** [f] is the float nearest to [x > 0] (ties to even), with the sign [sx]. *)
Definition rounds (x : Q) (sx : bool) (f : spec_float) : Prop :=
  exists e0 mrs, canon_exp x e0 /\ rec_ok (x / 2 ^ e0) mrs /\ f = finish sx mrs e0.

(** The location of [r / m2] in the unit interval. *)
Definition location_of (m2 r : Z) : location :=
  if (r =? 0)%Z then loc_Exact else loc_Inexact (2 * r ?= m2)%Z.

(** The value of the decimal [d * 10^e10]. *)
Definition decimal_value (d : positive) (e10 : Z) : Q := (inject_Z (Zpos d) * 10 ^ e10)%Q.

(** The mantissas of binary64 at the exponent [e0]: below [2^53], and at
    least [2^52] except at the least exponent. *)
Definition in_range (e0 m1 : Z) : Prop :=
  (-1074 <= e0)%Z /\ (0 <= m1 <= 2 ^ 53)%Z /\ (e0 = (-1074)%Z \/ (2 ^ 52 <= m1)%Z).

(** The value of the binary64 mantissa [m] at the exponent [e]. *)
Definition binary_value (m : positive) (e : Z) : Q := (inject_Z (Zpos m) * 2 ^ e)%Q.

(** A run of decimal digits. *)
Definition all_digits (s : text) : Prop := Forall (fun c => is_digit c = true) s.

(** The head of a text is not a digit. *)
Definition no_digit_head (s : text) : Prop :=
  match s with c :: _ => is_digit c = false | [] => True end.

(** The sign that [repr] writes. *)
Definition sign_text (neg : bool) : text := if neg then [Ch.minus] else [].

(** The exponent that [float] reads in the group [exp] of a number. *)
Definition exp_value (exp : text) : Z :=
  match tail exp with
  | c :: r => if (c =? Ch.minus)%N then Z.opp (Z.of_N (digits_value r))
              else if (c =? Ch.plus)%N then Z.of_N (digits_value r)
              else Z.of_N (digits_value (c :: r))
  | [] => 0%Z
  end.

(** The text reads as the decimal [d * 10^s]: the three groups of a number
    and nothing else, a fraction or an exponent among them, and [float]
    rounds a decimal of that value. *)
Definition reads_decimal (neg : bool) (s : text) (d : positive) (e10 : Z) : Prop :=
  exists i fr x d' s',
    match_number s = Some (i, fr, x, [])
    /\ (fr <> [] \/ x <> [])
    /\ PyFloat.parse_float i fr x = PyFloat.float_of_decimal neg (Npos d') s'
    /\ (decimal_value d' s' == decimal_value d e10)%Q.

(** The digits of the positive number [d]. *)
Definition digits_of (d : positive) (ds : text) : Prop :=
  exists c r, ds = c :: r /\ (49 <= c <= 57)%N /\ all_digits r /\ digits_value ds = Npos d.

(** ** States of the handler *)

Definition with_fs (w : world) (f : filesystem) : world :=
  {| fs := f; wfile := wfile w; stdout := stdout w |}.

Definition responded (w : world) (items : list wire) (line : text) : world :=
  {| fs := fs w; wfile := wfile w ++ items; stdout := stdout w ++ [line] |}.

(** ** Strings *)

Definition code_point (c : N) : Prop := c <= 1114111.

(** No high surrogate is followed by a low surrogate. *)
Fixpoint no_surrogate_pair (s : text) : Prop :=
  match s with
  | a :: r =>
      match r with
      | b :: _ => ~ (is_high_surrogate a = true /\ is_low_surrogate b = true)
      | [] => True
      end /\ no_surrogate_pair r
  | [] => True
  end.

(** The strings that the encoder writes so that they read back. *)
Definition str_ok (s : text) : Prop := Forall code_point s /\ no_surrogate_pair s.

(** Whether the decoder, after a high surrogate escape, takes the text that
    follows for the second half of a pair (or fails on it). *)
Definition continues_pair (r2 : text) : bool :=
  match r2 with
  | b :: u :: r3 =>
      (b =? Ch.backslash) && (u =? 117) &&
      match r3 with
      | g1 :: g2 :: g3 :: g4 :: _ =>
          match hex4 g1 g2 g3 g4 with
          | Some uni2 => is_low_surrogate uni2
          | None => true
          end
      | _ => true
      end
  | _ => false
  end.

(** ** Numbers *)

(** What may follow a number for the decoder to stop where the number ends. *)
Definition number_stop (rest : text) : Prop :=
  match rest with
  | c :: _ => is_digit c = false /\ c <> Ch.dot /\ c <> 101 /\ c <> 69
              /\ c <> Ch.plus /\ c <> Ch.minus
  | [] => True
  end.

(** The value [scan_once] makes of the groups of a number. *)
Definition number_value (integer frac exp : text) : value :=
  match frac, exp with
  | [], [] => VInt (int_of_literal integer)
  | _, _ => VFloat (PyFloat.parse_float integer frac exp)
  end.

(** ** Values *)

(** The number of containers nested in a value. *)
Fixpoint value_depth (v : value) : nat :=
  match v with
  | VList items => S (foldr (fun x d => Nat.max (value_depth x) d) 0%nat items)
  | VDict items => S (foldr (fun kv d => Nat.max (value_depth kv.2) d) 0%nat items)
  | _ => 0%nat
  end.

(** A float whose text is a JSON number that reads back as the float. The
    infinities and NaN are written as constants. *)
Definition float_reads_back (f : PyFloat.float) : bool :=
  match f with
  | S754_nan | S754_infinity _ => true
  | _ =>
      match match_number (PyFloat.float_repr f) with
      | Some (i, fr, x, []) =>
          negb (bool_decide (fr = []) && bool_decide (x = []))
          && bool_decide (PyFloat.parse_float i fr x = f)
      | _ => false
      end
  end.

Fixpoint floats_read_back (v : value) : bool :=
  match v with
  | VFloat f => float_reads_back f
  | VList items => forallb floats_read_back items
  | VDict items => forallb (fun kv => floats_read_back kv.2) items
  | _ => true
  end.

(** Floats that are binary64 values, strings without a surrogate pair,
    dictionaries without a repeated key. *)
Unset Elimination Schemes.
Inductive well_formed : value -> Prop :=
| wf_none : well_formed VNone
| wf_bool b : well_formed (VBool b)
| wf_int z : well_formed (VInt z)
| wf_float f :
    valid_binary PyFloat.prec PyFloat.emax f = true -> well_formed (VFloat f)
| wf_str s : str_ok s -> well_formed (VStr s)
| wf_list items : Forall well_formed items -> well_formed (VList items)
| wf_dict items :
    NoDup (map fst items) ->
    Forall (fun kv => str_ok kv.1 /\ well_formed kv.2) items ->
    well_formed (VDict items).
Set Elimination Schemes.

(** ** Encoded values *)

Definition all_ws (s : text) : Prop := Forall (fun c => is_ws c = true) s.

(** A value whose text, written with the separators [ws1] and [ws2], reads
    back wherever a number may stop. *)
Definition reads_back (indent : option nat) (ws1 ws2 : text) (depth level : nat)
  (v : value) : Prop :=
  forall rest, number_stop rest ->
    scan_once default_parse_constant depth
      (iterencode indent (Ch.comma :: ws1) (Ch.colon :: ws2) v level ++ rest)
    = Scanned (v, rest).

(** The text of one item of a dictionary. *)
Definition chunk (indent : option nat) (ws1 ws2 : text) (level : nat)
  (kv : text * value) : text :=
  encode_basestring_ascii kv.1 ++ (Ch.colon :: ws2)
    ++ iterencode indent (Ch.comma :: ws1) (Ch.colon :: ws2) kv.2 level.

(** ** Scalar values *)

(** A Unicode scalar value: a code point that is not a surrogate. UTF-8
    decodes to scalar values only. *)
Definition scalar (c : N) : Prop := c <= 1114111 /\ Utf8.is_surrogate c = false.

(** The string starts with the escape of a low surrogate. *)
Definition low_escape_head (s : text) (b : N) : Prop :=
  exists g1 g2 g3 g4 r,
    s = Ch.backslash :: 117 :: g1 :: g2 :: g3 :: g4 :: r /\ hex4 g1 g2 g3 g4 = Some b.

Definition head_not_low (str : text) : Prop :=
  match str with b :: _ => is_low_surrogate b = false | [] => True end.

(** ** Scanners *)

(** A scanner that never runs out of iterations, consumes text when it
    succeeds, and returns values of depth at most [d], well formed when the
    text holds scalar values only. *)
Definition good_scan (scan : text -> scanned (value * text)) (d : nat) : Prop :=
  forall s,
    scan s <> Failed Exhausted
    /\ forall v r, scan s = Scanned (v, r) ->
         (length r < length s)%nat /\ (value_depth v <= d)%nat
         /\ (Forall scalar s -> well_formed v /\ Forall scalar r).

(** An item of a dictionary that the decoder returns. *)
Definition good_pair (kv : text * value) : Prop :=
  str_ok kv.1 /\ well_formed kv.2.

(** A [parse_constant] that returns scalar values (numbers). *)
Definition good_constant (pc : text -> result value) : Prop :=
  forall name v, pc name = Ok v -> value_depth v = 0%nat /\ well_formed v.

(** * Properties *)

(** ** The model on concrete inputs *)

Example float_examples :
  map (fun '(i, f, e) => PyFloat.float_repr (PyFloat.parse_float i f e))
      [(T "1", T ".0", T ""); (T "0", T ".1", T ""); (T "1", T "", T "e16");
       (T "-2", T ".5", T "E-7"); (T "123456789012345678", T ".0", T "");
       (T "0", T ".0001", T ""); (T "5", T "", T "e-324"); (T "1", T "", T "e23");
       (T "9007199254740993", T ".0", T ""); (T "0", T ".30000000000000004", T "");
       (T "1", T "", T "e400"); (T "17", T ".25", T "e2"); (T "-0", T ".0", T "")]
  = [T "1.0"; T "0.1"; T "1e+16"; T "-2.5e-07"; T "1.2345678901234568e+17";
     T "0.0001"; T "5e-324"; T "1e+23"; T "9007199254740992.0";
     T "0.30000000000000004"; T "inf"; T "1725.0"; T "-0.0"].
Proof. vm_compute. reflexivity. Qed.

Example dump_scenario :
  Json.dump_indent 2
    (Json.VDict [(T "action", Json.VStr (T "jump"));
                 (T "reward", Json.VFloat (PyFloat.parse_float (T "1") (T ".0") []))])
  = T "{" ++ [Ch.lf] ++ T "  " ++ [Ch.quote] ++ T "action" ++ [Ch.quote] ++ T ": "
      ++ [Ch.quote] ++ T "jump" ++ [Ch.quote] ++ T "," ++ [Ch.lf]
      ++ T "  " ++ [Ch.quote] ++ T "reward" ++ [Ch.quote] ++ T ": 1.0" ++ [Ch.lf] ++ T "}".
Proof. vm_compute. reflexivity. Qed.

(** The scenario of the specification: POST of
    [{"action":"jump","reward":1.0}] at 1700000000.75 seconds. *)
Example save_scenario :
  let body := T "{" ++ quoted (T "action") ++ T ":" ++ quoted (T "jump") ++ T ","
                ++ quoted (T "reward") ++ T ":1.0}" in
  let stored := T "{" ++ [Ch.lf] ++ T "  " ++ quoted (T "action") ++ T ": "
                  ++ quoted (T "jump") ++ T "," ++ [Ch.lf] ++ T "  "
                  ++ quoted (T "reward") ++ T ": 1.0" ++ [Ch.lf] ++ T "}" in
  let answer := T "{" ++ quoted (T "status") ++ T ": " ++ quoted (T "success") ++ T ", "
                  ++ quoted (T "file") ++ T ": " ++ quoted (T "episode_1700000000.json")
                  ++ T "}" in
  let '(state, x) :=
    process_request Scenario.env (Scenario.request_of (T "POST") (T "/save") body)
      Scenario.start in
  state.1 !! (T "episodes/episode_1700000000.json") = Some (File stored)
  /\ state.2 = [T "Saved episode to episodes/episode_1700000000.json"]
  /\ sent x = [Status 200;
               Header (T "Server") (T "SimpleHTTP/0.6 Python/3.11.4");
               Header (T "Date") (T "Tue, 14 Nov 2023 22:13:20 GMT");
               Header (T "Content-type") (T "application/json");
               EndHeaders;
               Body (map Utf8.byte_of_N answer)]
  /\ uncaught x = None.
Proof. vm_compute. repeat split; reflexivity. Qed.

(** A body that is not JSON: nothing is stored, the answer is 500. *)
Example failure_scenario :
  let '(state, x) :=
    process_request Scenario.env
      (Scenario.request_of (T "POST") (T "/save") (T "not json")) Scenario.start in
  state.1 = Scenario.disk
  /\ state.2 = [T "Error saving episode: Expecting value: line 1 column 1 (char 0)"]
  /\ sent x = [Status 500;
               Header (T "Server") (T "SimpleHTTP/0.6 Python/3.11.4");
               Header (T "Date") (T "Tue, 14 Nov 2023 22:13:20 GMT");
               EndHeaders;
               Body (map Utf8.byte_of_N
                       (T "{" ++ quoted (T "status") ++ T ": " ++ quoted (T "error")
                          ++ T ", " ++ quoted (T "message") ++ T ": "
                          ++ quoted (T "Expecting value: line 1 column 1 (char 0)")
                          ++ T "}"))]
  /\ uncaught x = None.
Proof. vm_compute. repeat split; reflexivity. Qed.

(** ** Texts of ASCII characters *)

Lemma uint_chars_digits d : Forall (fun c => 48 <= c <= 57) (uint_chars d).
Proof. induction d; simpl; constructor; auto; lia. Qed.

Lemma str_of_N_digits n : Forall (fun c => 48 <= c <= 57) (str_of_N n).
Proof. apply uint_chars_digits. Qed.

Lemma str_of_int_plain z : Forall plain (str_of_int z).
Proof.
  assert (H : forall n, Forall plain (str_of_N n)).
  { intros n. eapply Forall_impl; [apply str_of_N_digits|].
    intros c Hc; unfold plain; simpl in Hc; lia. }
  destruct z; simpl; auto. constructor; auto. unfold plain, Ch.minus; lia.
Qed.

Lemma T_plain_episode : Forall plain (T "episode_") /\ Forall plain (T ".json").
Proof. split; repeat constructor; unfold plain; simpl; lia. Qed.

Lemma escape_char_plain c : plain c -> Json.escape_char c = [c].
Proof.
  intros (Hr & Hq & Hb). unfold Json.escape_char, Ch.quote, Ch.backslash.
  destruct (N.eqb_spec c 34); [lia|]. destruct (N.eqb_spec c 92); [lia|].
  destruct (N.leb_spec 32 c); [|lia]. destruct (N.leb_spec c 126); [|lia]. reflexivity.
Qed.

Lemma escape_plain s : Forall plain s -> concat (map Json.escape_char s) = s.
Proof.
  induction 1 as [|c s Hc _ IH]; simpl; [reflexivity|].
  rewrite escape_char_plain, IH by assumption. reflexivity.
Qed.

Lemma hex_digit_ascii n : is_ascii (Json.hex_digit (n mod 16)).
Proof.
  unfold is_ascii, Json.hex_digit. pose proof (N.mod_upper_bound n 16).
  destruct (N.ltb_spec (n mod 16) 10); lia.
Qed.

Lemma u_escape_ascii n : Forall is_ascii (Json.u_escape n).
Proof.
  unfold Json.u_escape. repeat constructor; try apply hex_digit_ascii;
    unfold is_ascii, Ch.backslash; lia.
Qed.

Lemma escape_char_ascii c : Forall is_ascii (Json.escape_char c).
Proof.
  unfold Json.escape_char.
  repeat match goal with
         | |- context [if ?b then _ else _] => destruct b eqn:?
         end;
    try (repeat constructor; unfold is_ascii, Ch.backslash, Ch.quote; simpl; lia);
    try apply u_escape_ascii.
  - apply andb_true_iff in Heqb1 as [_ H%N.leb_le]. repeat constructor. unfold is_ascii; lia.
  - apply Forall_app; split; apply u_escape_ascii.
Qed.

Lemma encode_basestring_ascii_ascii s : Forall is_ascii (Json.encode_basestring_ascii s).
Proof.
  unfold Json.encode_basestring_ascii. constructor; [unfold is_ascii, Ch.quote; lia|].
  apply Forall_app; split; [|repeat constructor; unfold is_ascii, Ch.quote; lia].
  induction s; simpl; [constructor|]. apply Forall_app; split; auto using escape_char_ascii.
Qed.

Lemma encode_from_ascii whole s pos :
  Forall is_ascii s -> Utf8.encode_from whole s pos = Ok (map Utf8.byte_of_N s).
Proof.
  intros H; revert pos; induction H as [|c s Hc _ IH]; intros pos; simpl; [reflexivity|].
  unfold is_ascii in Hc.
  assert (Utf8.is_surrogate c = false) as ->.
  { unfold Utf8.is_surrogate. destruct (N.leb_spec 55296 c); [lia|reflexivity]. }
  rewrite IH. unfold Utf8.encode_char. destruct (N.ltb_spec c 128); [|lia]. reflexivity.
Qed.

Lemma encode_ascii s : Forall is_ascii s -> Utf8.encode s = Ok (map Utf8.byte_of_N s).
Proof. apply encode_from_ascii. Qed.

(** ** Paths and bodies *)

Lemma text_eqb_refl s : text_eqb s s = true.
Proof. unfold text_eqb. apply bool_decide_eq_true_2. reflexivity. Qed.

Lemma text_eqb_eq a b : text_eqb a b = true <-> a = b.
Proof. unfold text_eqb. apply bool_decide_eq_true. Qed.

Lemma text_eqb_neq a b : a <> b -> text_eqb a b = false.
Proof. unfold text_eqb. apply bool_decide_eq_false_2. Qed.

Lemma dirname_join a b :
  Ch.slash ∉ b -> dirname (a ++ Ch.slash :: b) = a.
Proof.
  intros Hb. induction a as [|c a IH]; simpl.
  - rewrite bool_decide_eq_false_2; auto.
  - rewrite bool_decide_eq_true_2; [f_equal; exact IH|].
    apply elem_of_app. right. left.
Qed.

Lemma episode_name_plain t : Forall plain (episode_name t).
Proof.
  unfold episode_name. rewrite !Forall_app.
  pose proof T_plain_episode as [? ?]. auto using str_of_int_plain.
Qed.

Lemma str_of_int_no_slash t : Ch.slash ∉ str_of_int t.
Proof.
  assert (H : forall n, Ch.slash ∉ str_of_N n).
  { intros n Hin. pose proof (str_of_N_digits n) as Hd.
    rewrite Forall_forall in Hd. apply Hd in Hin. unfold Ch.slash in Hin. lia. }
  destruct t; simpl; auto. intros [Heq|Hin]%elem_of_cons; [discriminate|].
  exact (H _ Hin).
Qed.

Lemma episode_name_no_slash t : Ch.slash ∉ episode_name t.
Proof.
  unfold episode_name. rewrite !not_elem_of_app. split; [|split].
  - vm_compute. intros H. repeat (apply elem_of_cons in H as [H|H]; [discriminate|]).
    inversion H.
  - apply str_of_int_no_slash.
  - vm_compute. intros H. repeat (apply elem_of_cons in H as [H|H]; [discriminate|]).
    inversion H.
Qed.

Lemma path_join_episode t :
  path_join EPISODES_DIR (T "episode_" ++ str_of_int t ++ T ".json") = episode_path t.
Proof. reflexivity. Qed.

Lemma dirname_episode_path t : dirname (episode_path t) = EPISODES_DIR.
Proof. apply (dirname_join EPISODES_DIR (episode_name t)), episode_name_no_slash. Qed.

Ltac ascii_text :=
  unfold quoted;
  repeat first
    [ apply encode_basestring_ascii_ascii
    | apply Forall_app; split
    | apply List.Forall_nil
    | apply List.Forall_cons; [exact eq_refl|] ].

Lemma success_body_eq filename :
  Forall plain filename ->
  success_body filename =
    Ok (map Utf8.byte_of_N
          (T "{" ++ quoted (T "status") ++ T ": " ++ quoted (T "success")
             ++ T ", " ++ quoted (T "file") ++ T ": " ++ quoted filename ++ T "}")).
Proof.
  intros Hp. unfold success_body.
  assert (Hd : dumps (VDict [(T "status", VStr (T "success")); (T "file", VStr filename)])
          = T "{" ++ quoted (T "status") ++ T ": " ++ quoted (T "success")
             ++ T ", " ++ quoted (T "file") ++ T ": " ++ quoted filename ++ T "}").
  { unfold dumps. cbn -[T]. unfold encode_basestring_ascii.
    rewrite (escape_plain filename Hp). reflexivity. }
  rewrite Hd. apply encode_ascii.
  rewrite <- Hd. unfold dumps. cbn -[T encode_basestring_ascii].
  ascii_text.
Qed.

Lemma error_body_eq e :
  error_body e =
    Ok (map Utf8.byte_of_N
          (T "{" ++ quoted (T "status") ++ T ": " ++ quoted (T "error")
             ++ T ", " ++ quoted (T "message") ++ T ": "
             ++ encode_basestring_ascii (exn_str e) ++ T "}")).
Proof.
  unfold error_body.
  assert (Hd : dumps (VDict [(T "status", VStr (T "error")); (T "message", VStr (exn_str e))])
          = T "{" ++ quoted (T "status") ++ T ": " ++ quoted (T "error")
             ++ T ", " ++ quoted (T "message") ++ T ": "
             ++ encode_basestring_ascii (exn_str e) ++ T "}").
  { reflexivity. }
  rewrite Hd. apply encode_ascii.
  ascii_text.
Qed.

(** ** Escapes *)

Ltac ndiv := zify; Z.to_euclidean_division_equations; lia.

Lemma hex_value_digit d : d < 16 -> hex_value (hex_digit d) = Some d.
Proof.
  intros Hd. unfold hex_value, hex_digit.
  destruct (N.ltb_spec d 10).
  - destruct (N.leb_spec 48 (48 + d)); [|lia].
    destruct (N.leb_spec (48 + d) 57); [|lia]. cbn [andb]. f_equal. lia.
  - destruct (N.leb_spec (87 + d) 57); [lia|]. rewrite andb_false_r.
    destruct (N.leb_spec 97 (87 + d)); [|lia].
    destruct (N.leb_spec (87 + d) 102); [|lia]. cbn [andb]. f_equal. lia.
Qed.

Lemma hex4_u_escape c :
  c < 65536 ->
  hex4 (hex_digit (c / 4096 mod 16)) (hex_digit (c / 256 mod 16))
       (hex_digit (c / 16 mod 16)) (hex_digit (c mod 16)) = Some c.
Proof.
  intros Hc. unfold hex4.
  rewrite !hex_value_digit by (apply N.mod_upper_bound; lia).
  f_equal.
  replace (c / 4096) with (c / 16 / 16 / 16) by (rewrite !N.Div0.div_div; reflexivity).
  replace (c / 256) with (c / 16 / 16) by (rewrite !N.Div0.div_div; reflexivity).
  ndiv.
Qed.

(** The surrogate pair of a code point above U+FFFF, arithmetically. *)
Lemma lor_shifted a b k : b < 2 ^ k -> N.lor (a * 2 ^ k) b = a * 2 ^ k + b.
Proof.
  intros Hb. rewrite <- N.lxor_lor, N.add_nocarry_lxor; auto;
    apply N.bits_inj; intros i; rewrite N.land_spec, N.bits_0;
    destruct (N.lt_ge_cases i k) as [Hi|Hi].
  1,3: rewrite N.mul_pow2_bits_low by assumption; reflexivity.
  all: destruct (N.eq_dec b 0) as [->|Hnz]; [rewrite N.bits_0, andb_false_r; reflexivity|];
    rewrite (N.bits_above_log2 b i), andb_false_r; [reflexivity|];
    apply N.log2_lt_pow2; [lia|]; eapply N.lt_le_trans; [exact Hb|];
    apply N.pow_le_mono_r; lia.
Qed.

Lemma high_surrogate_of n :
  n < 1048576 ->
  N.lor 55296 (N.land (N.shiftr n 10) 1023) = 55296 + n / 1024.
Proof.
  intros Hn. rewrite N.shiftr_div_pow2. change 1023 with (N.ones 10).
  rewrite N.land_ones. change (2 ^ 10) with 1024.
  rewrite N.mod_small by ndiv.
  change 55296 with (54 * 2 ^ 10). rewrite lor_shifted; [reflexivity|].
  change (2 ^ 10) with 1024. ndiv.
Qed.

Lemma low_surrogate_of n :
  N.lor 56320 (N.land n 1023) = 56320 + n mod 1024.
Proof.
  change 1023 with (N.ones 10). rewrite N.land_ones. change (2 ^ 10) with 1024.
  change 56320 with (55 * 2 ^ 10). rewrite lor_shifted; [reflexivity|].
  change (2 ^ 10) with 1024. ndiv.
Qed.

Lemma join_surrogates_eq u u2 :
  55296 <= u -> 56320 <= u2 < 57344 ->
  join_surrogates u u2 = 65536 + (u - 55296) * 1024 + (u2 - 56320).
Proof.
  intros Hu Hu2. unfold join_surrogates. rewrite N.shiftl_mul_pow2.
  rewrite lor_shifted; [change (2 ^ 10) with 1024; lia|].
  change (2 ^ 10) with 1024. lia.
Qed.

(** ** Reading a string back *)

Lemma scanstring_u h1 h2 h3 h4 uni r2 begin :
  hex4 h1 h2 h3 h4 = Some uni ->
  is_high_surrogate uni && continues_pair r2 = false ->
  py_scanstring (Ch.backslash :: 117 :: h1 :: h2 :: h3 :: h4 :: r2) begin
  = push uni (py_scanstring r2 begin).
Proof.
  intros Hh Hp. cbn [py_scanstring]. 
  change (Ch.backslash =? Ch.quote) with false.
  change (Ch.backslash =? Ch.backslash) with true.
  change (117 =? 117) with true. cbv iota. rewrite Hh.
  destruct (is_high_surrogate uni); [|reflexivity].
  cbn [andb] in Hp. unfold continues_pair in Hp.
  destruct r2 as [|b [|u r3]]; try reflexivity.
  destruct ((b =? Ch.backslash) && (u =? 117)); [|reflexivity].
  cbn [andb] in Hp.
  destruct r3 as [|g1 [|g2 [|g3 [|g4 r4]]]]; try discriminate.
  destruct (hex4 g1 g2 g3 g4); [|discriminate]. rewrite Hp. reflexivity.
Qed.

Lemma scanstring_pair h1 h2 h3 h4 g1 g2 g3 g4 hi lo r4 begin :
  hex4 h1 h2 h3 h4 = Some hi -> is_high_surrogate hi = true ->
  hex4 g1 g2 g3 g4 = Some lo -> is_low_surrogate lo = true ->
  py_scanstring (Ch.backslash :: 117 :: h1 :: h2 :: h3 :: h4
                   :: Ch.backslash :: 117 :: g1 :: g2 :: g3 :: g4 :: r4) begin
  = push (join_surrogates hi lo) (py_scanstring r4 begin).
Proof.
  intros Hh Hhi Hg Hlo. cbn [py_scanstring].
  change (Ch.backslash =? Ch.quote) with false.
  change (Ch.backslash =? Ch.backslash) with true.
  change (117 =? 117) with true. cbv iota. cbn [andb]. rewrite Hh, Hhi, Hg, Hlo.
  reflexivity.
Qed.

Lemma scanstring_simple esc ch r1 begin :
  backslash_char esc = Some ch ->
  py_scanstring (Ch.backslash :: esc :: r1) begin = push ch (py_scanstring r1 begin).
Proof.
  intros Hb. cbn [py_scanstring].
  change (Ch.backslash =? Ch.quote) with false.
  change (Ch.backslash =? Ch.backslash) with true. cbv iota.
  destruct (N.eqb_spec esc 117) as [->|_]; [discriminate|]. rewrite Hb. reflexivity.
Qed.

Lemma scanstring_plain c r begin :
  32 <= c -> c <> Ch.quote -> c <> Ch.backslash ->
  py_scanstring (c :: r) begin = push c (py_scanstring r begin).
Proof.
  intros H32 Hq Hb. cbn [py_scanstring].
  destruct (N.eqb_spec c Ch.quote); [contradiction|].
  destruct (N.eqb_spec c Ch.backslash); [contradiction|].
  destruct (N.ltb_spec c 32); [lia|]. reflexivity.
Qed.

Lemma u_escape_unfold n :
  u_escape n = Ch.backslash :: 117 :: hex_digit (n / 4096 mod 16)
                 :: hex_digit (n / 256 mod 16) :: hex_digit (n / 16 mod 16)
                 :: [hex_digit (n mod 16)].
Proof. reflexivity. Qed.

Lemma scanstring_escape_char c tail begin :
  code_point c ->
  is_high_surrogate c && continues_pair tail = false ->
  py_scanstring (escape_char c ++ tail) begin = push c (py_scanstring tail begin).
Proof.
  unfold code_point. intros Hc Hp. unfold escape_char.
  destruct (N.eqb_spec c Ch.quote) as [->|Hq]; [apply scanstring_simple; reflexivity|].
  destruct (N.eqb_spec c Ch.backslash) as [->|Hb]; [apply scanstring_simple; reflexivity|].
  destruct ((32 <=? c) && (c <=? 126)) eqn:Hplain.
  { apply andb_true_iff in Hplain as [H32%N.leb_le _]. apply scanstring_plain; auto. }
  destruct (N.eqb_spec c 8) as [->|_]; [apply scanstring_simple; reflexivity|].
  destruct (N.eqb_spec c 12) as [->|_]; [apply scanstring_simple; reflexivity|].
  destruct (N.eqb_spec c 10) as [->|_]; [apply scanstring_simple; reflexivity|].
  destruct (N.eqb_spec c 13) as [->|_]; [apply scanstring_simple; reflexivity|].
  destruct (N.eqb_spec c 9) as [->|_]; [apply scanstring_simple; reflexivity|].
  destruct (N.ltb_spec c 65536) as [Hlt|Hge].
  - rewrite u_escape_unfold. cbn [app].
    apply scanstring_u; [apply hex4_u_escape; assumption|assumption].
  - cbv zeta. rewrite high_surrogate_of, low_surrogate_of by lia.
    rewrite !u_escape_unfold. cbn [app].
    assert (Hx : c = 65536 + (c - 65536)) by lia.
    assert (Hn : c - 65536 < 1048576) by lia.
    revert Hx Hn. generalize (c - 65536). intros n Hx Hn.
    pose proof (N.mod_upper_bound n 1024 ltac:(lia)) as Hm.
    assert (Hd : n / 1024 < 1024) by (clear - Hn; ndiv).
    rewrite scanstring_pair with (hi := 55296 + n / 1024) (lo := 56320 + n mod 1024).
    + f_equal. revert Hm Hd. generalize (N.div_mod n 1024 ltac:(lia)).
      generalize (n / 1024) (n mod 1024). intros q r Hqr Hm Hd.
      rewrite join_surrogates_eq by lia. lia.
    + apply hex4_u_escape. lia.
    + unfold is_high_surrogate. apply andb_true_iff; split; apply N.leb_le;
        revert Hd; generalize (n / 1024); intros; lia.
    + apply hex4_u_escape. lia.
    + unfold is_low_surrogate. apply andb_true_iff; split; apply N.leb_le;
        revert Hm; generalize (n mod 1024); intros; lia.
Qed.

Lemma continues_pair_cons b r : b <> Ch.backslash -> continues_pair (b :: r) = false.
Proof.
  intros Hb. unfold continues_pair. destruct r; [reflexivity|].
  destruct (N.eqb_spec b Ch.backslash); [contradiction|]. reflexivity.
Qed.

Lemma continues_pair_simple u r : u <> 117 -> continues_pair (Ch.backslash :: u :: r) = false.
Proof.
  intros Hu. unfold continues_pair.
  destruct (N.eqb_spec u 117); [contradiction|]. rewrite andb_false_r. reflexivity.
Qed.

Lemma continues_pair_u h1 h2 h3 h4 uni r :
  hex4 h1 h2 h3 h4 = Some uni -> is_low_surrogate uni = false ->
  continues_pair (Ch.backslash :: 117 :: h1 :: h2 :: h3 :: h4 :: r) = false.
Proof. intros Hh Hl. unfold continues_pair. rewrite Hh, Hl. reflexivity. Qed.

Lemma continues_pair_escape_char c tail :
  code_point c -> is_low_surrogate c = false ->
  continues_pair (escape_char c ++ tail) = false.
Proof.
  unfold code_point. intros Hc Hl. unfold escape_char.
  destruct (N.eqb_spec c Ch.quote) as [->|Hq]; [apply continues_pair_simple; discriminate|].
  destruct (N.eqb_spec c Ch.backslash) as [->|Hb]; [apply continues_pair_simple; discriminate|].
  destruct ((32 <=? c) && (c <=? 126)) eqn:Hplain.
  { apply continues_pair_cons; assumption. }
  destruct (N.eqb_spec c 8) as [->|_]; [apply continues_pair_simple; discriminate|].
  destruct (N.eqb_spec c 12) as [->|_]; [apply continues_pair_simple; discriminate|].
  destruct (N.eqb_spec c 10) as [->|_]; [apply continues_pair_simple; discriminate|].
  destruct (N.eqb_spec c 13) as [->|_]; [apply continues_pair_simple; discriminate|].
  destruct (N.eqb_spec c 9) as [->|_]; [apply continues_pair_simple; discriminate|].
  destruct (N.ltb_spec c 65536) as [Hlt|Hge].
  - rewrite u_escape_unfold. cbn [app].
    eapply continues_pair_u; [apply hex4_u_escape; assumption|assumption].
  - cbv zeta. rewrite high_surrogate_of by lia.
    rewrite !u_escape_unfold. cbn [app].
    assert (Hn : c - 65536 < 1048576) by lia.
    revert Hn. generalize (c - 65536). intros n Hn.
    assert (Hd : n / 1024 < 1024) by (clear - Hn; ndiv).
    revert Hd. generalize (n / 1024). intros q Hq1.
    eapply continues_pair_u; [apply hex4_u_escape; lia|].
    unfold is_low_surrogate. apply andb_false_iff. left. apply N.leb_gt. lia.
Qed.

Lemma continues_pair_escape s rest :
  Forall code_point s ->
  match s with
  | b :: _ => is_low_surrogate b = false
  | [] => True
  end ->
  continues_pair (concat (map escape_char s) ++ Ch.quote :: rest) = false.
Proof.
  intros Hs Hl. destruct s as [|c s]; cbn [map concat app].
  - apply continues_pair_cons. discriminate.
  - rewrite <- app_assoc. apply continues_pair_escape_char; [|assumption].
    inversion Hs; assumption.
Qed.

(** A string literal of the encoder reads back as the string. *)
Lemma scanstring_escape s rest begin :
  str_ok s ->
  py_scanstring (concat (map escape_char s) ++ Ch.quote :: rest) begin
  = Scanned (s, rest).
Proof.
  intros [Hcp Hnp]. induction s as [|c s IH]; cbn [map concat app].
  - cbn [py_scanstring]. change (Ch.quote =? Ch.quote) with true. reflexivity.
  - inversion Hcp as [|? ? Hc Hs]; subst. destruct Hnp as [Hpair Hnp].
    rewrite <- app_assoc, scanstring_escape_char, IH; auto.
    destruct (is_high_surrogate c) eqn:Hh; [|reflexivity]. cbn [andb].
    apply continues_pair_escape; [assumption|].
    destruct s as [|b s]; [exact I|].
    destruct (is_low_surrogate b); [|reflexivity]. exfalso. apply Hpair. auto.
Qed.

(** ** Reading a number back *)

Lemma is_digit_iff c : is_digit c = true <-> 48 <= c <= 57.
Proof. unfold is_digit. rewrite andb_true_iff, !N.leb_le. reflexivity. Qed.

(** *** Decimal digits *)

Lemma digits_value_acc d acc :
  fold_left (fun a c => a * 10 + (c - 48)) (uint_chars d) (Npos acc)
  = Npos (Pos.of_uint_acc d acc).
Proof.
  revert acc. induction d; intros acc; cbn [uint_chars fold_left Pos.of_uint_acc];
    try reflexivity;
    match goal with
    | |- fold_left _ _ ?a = _ =>
        match goal with
        | |- _ = N.pos (Pos.of_uint_acc _ ?p) =>
            replace a with (Npos p) by lia; apply IHd
        end
    end.
Qed.

Lemma digits_value_uint d : digits_value (uint_chars d) = N.of_uint d.
Proof.
  unfold digits_value, N.of_uint.
  induction d; cbn [uint_chars fold_left Pos.of_uint]; try reflexivity;
    try (change (0 * 10 + (48 - 48)) with 0; exact IHd);
    match goal with
    | |- fold_left _ _ ?a = N.pos (Pos.of_uint_acc _ ?p) =>
        change a with (Npos p); apply digits_value_acc
    end.
Qed.

Lemma digits_value_str_of_N n : digits_value (str_of_N n) = n.
Proof. unfold str_of_N. rewrite digits_value_uint. apply DecimalN.Unsigned.of_to. Qed.

(** [str(n)] is a zero alone, or starts with a digit from 1 to 9. *)
Lemma str_of_N_shape n :
  str_of_N n = [48]
  \/ exists c r, str_of_N n = c :: r /\ 49 <= c <= 57 /\ Forall (fun d => is_digit d = true) r.
Proof.
  unfold str_of_N.
  assert (Hn : Decimal.unorm (N.to_uint n) = N.to_uint n).
  { pose proof (DecimalN.Unsigned.to_of (N.to_uint n)) as H.
    rewrite DecimalN.Unsigned.of_to in H. symmetry. exact H. }
  assert (Hd : forall d, Forall (fun c => is_digit c = true) (uint_chars d)).
  { intros d. eapply Forall_impl; [apply uint_chars_digits|]. intros c Hc.
    apply is_digit_iff. exact Hc. }
  revert Hn. generalize (N.to_uint n). intros d Hn.
  destruct (Decimal.nzhead d) eqn:Hz.
  { left. unfold Decimal.unorm in Hn. rewrite Hz in Hn. subst d. reflexivity. }
  all: rewrite DecimalFacts.unorm_nzhead in Hn by (rewrite Hz; discriminate);
    rewrite Hz in Hn; subst d.
  1: exfalso; exact (DecimalFacts.nzhead_nonzero _ _ Hz).
  all: right; cbn [uint_chars]; eexists _, _; split; [reflexivity|]; split; [lia|apply Hd].
Qed.

Lemma span_digits_app l ds r rest :
  span_digits l = (ds, r) ->
  r <> [] \/ match rest with c :: _ => is_digit c = false | [] => True end ->
  span_digits (l ++ rest) = (ds, r ++ rest).
Proof.
  revert ds r. induction l as [|c l IH]; intros ds r Hs Hr; cbn [span_digits app] in *.
  - injection Hs as <- <-. destruct Hr as [Hr|Hr]; [contradiction|].
    destruct rest as [|d rest]; [reflexivity|]. cbn [span_digits]. rewrite Hr. reflexivity.
  - destruct (is_digit c).
    + destruct (span_digits l) as [ds' r'] eqn:Hl. injection Hs as <- <-.
      rewrite (IH ds' r' eq_refl Hr). reflexivity.
    + injection Hs as <- <-. reflexivity.
Qed.

Lemma span_digits_all ds :
  Forall (fun d => is_digit d = true) ds -> span_digits ds = (ds, []).
Proof.
  induction 1 as [|c ds Hc _ IH]; cbn [span_digits]; [reflexivity|].
  rewrite Hc, IH. reflexivity.
Qed.

Lemma number_stop_digit rest :
  number_stop rest -> match rest with c :: _ => is_digit c = false | [] => True end.
Proof. destruct rest; [auto|]. intros (? & _). assumption. Qed.

Lemma match_integer_app l i r rest :
  match_integer l = Some (i, r) -> number_stop rest ->
  match_integer (l ++ rest) = Some (i, r ++ rest).
Proof.
  intros Hm Hstop. apply number_stop_digit in Hstop.
  assert (Hcore : forall sign s1,
    match s1 with
    | c :: r0 =>
        if c =? Ch.zero then Some (sign ++ [c], r0)
        else if is_digit c then let '(ds, r') := span_digits r0 in Some (sign ++ c :: ds, r')
        else None
    | [] => None
    end = Some (i, r) ->
    match s1 ++ rest with
    | c :: r0 =>
        if c =? Ch.zero then Some (sign ++ [c], r0)
        else if is_digit c then let '(ds, r') := span_digits r0 in Some (sign ++ c :: ds, r')
        else None
    | [] => None
    end = Some (i, r ++ rest)).
  { intros sign [|c r0] H; [discriminate|]. cbn [app].
    destruct (c =? Ch.zero); [injection H as <- <-; reflexivity|].
    destruct (is_digit c); [|discriminate].
    destruct (span_digits r0) as [ds r'] eqn:Hs. injection H as <- <-.
    rewrite (span_digits_app _ _ _ rest Hs); [reflexivity|]. right; assumption. }
  unfold match_integer in *. destruct l as [|c l]; [discriminate|]. cbn [app].
  destruct (c =? Ch.minus).
  - apply Hcore. assumption.
  - apply (Hcore [] (c :: l)). assumption.
Qed.

Lemma match_frac_app r f r1 rest :
  match_frac r = (f, r1) -> number_stop rest ->
  match_frac (r ++ rest) = (f, r1 ++ rest).
Proof.
  intros Hm Hstop. unfold match_frac in *. destruct r as [|c r]; cbn [app].
  - injection Hm as <- <-. destruct rest as [|d rest]; [reflexivity|].
    destruct Hstop as (_ & Hdot & _). destruct (N.eqb_spec d Ch.dot); [contradiction|].
    reflexivity.
  - destruct (c =? Ch.dot); [|injection Hm as <- <-; reflexivity].
    destruct (span_digits r) as [ds r'] eqn:Hs.
    rewrite (span_digits_app _ _ _ rest Hs) by (right; apply number_stop_digit; assumption).
    destruct ds; injection Hm as <- <-; reflexivity.
Qed.

Lemma match_exp_app r x r1 rest :
  match_exp r = (x, r1) -> number_stop rest ->
  match_exp (r ++ rest) = (x, r1 ++ rest).
Proof.
  intros Hm Hstop. unfold match_exp in *. destruct r as [|c r]; cbn [app].
  - injection Hm as <- <-. destruct rest as [|d rest]; [reflexivity|].
    destruct Hstop as (_ & _ & He & HE & _).
    destruct (N.eqb_spec d 101); [contradiction|].
    destruct (N.eqb_spec d 69); [contradiction|]. reflexivity.
  - destruct ((c =? 101) || (c =? 69)); [|injection Hm as <- <-; reflexivity].
    assert (Hsign : forall sign r0,
      match span_digits r0 with
      | ([], _) => ([], c :: r)
      | (ds, r') => (c :: sign ++ ds, r')
      end = (x, r1) ->
      match span_digits (r0 ++ rest) with
      | ([], _) => ([], c :: r ++ rest)
      | (ds, r') => (c :: sign ++ ds, r')
      end = (x, r1 ++ rest)).
    { intros sign r0 H. destruct (span_digits r0) as [ds r'] eqn:Hs.
      rewrite (span_digits_app _ _ _ rest Hs) by (right; apply number_stop_digit; assumption).
      destruct ds; injection H as <- <-; reflexivity. }
    destruct r as [|d r0]; cbn [app].
    + cbn [span_digits] in Hm. injection Hm as <- <-.
      destruct rest as [|d rest]; [reflexivity|].
      destruct Hstop as (Hd & _ & _ & _ & Hplus & Hminus).
      destruct (N.eqb_spec d Ch.minus); [contradiction|].
      destruct (N.eqb_spec d Ch.plus); [contradiction|].
      cbn [orb span_digits]. rewrite Hd. reflexivity.
    + destruct ((d =? Ch.minus) || (d =? Ch.plus)).
      * apply (Hsign [d] r0). assumption.
      * apply (Hsign [] (d :: r0)). assumption.
Qed.

Lemma match_number_app l i f x r rest :
  match_number l = Some (i, f, x, r) -> number_stop rest ->
  match_number (l ++ rest) = Some (i, f, x, r ++ rest).
Proof.
  unfold match_number. intros Hm Hstop.
  destruct (match_integer l) as [[i0 r0]|] eqn:Hi; [|discriminate].
  rewrite (match_integer_app _ _ _ rest Hi Hstop).
  destruct (match_frac r0) as [f0 r1] eqn:Hf.
  rewrite (match_frac_app _ _ _ rest Hf Hstop).
  destruct (match_exp r1) as [x0 r2] eqn:Hx.
  rewrite (match_exp_app _ _ _ rest Hx Hstop).
  injection Hm as <- <- <- <-. reflexivity.
Qed.

Lemma match_number_head l q :
  match_number l = Some q -> exists c l', l = c :: l' /\ (c = Ch.minus \/ is_digit c = true).
Proof.
  unfold match_number, match_integer. intros Hm. destruct l as [|c l]; [discriminate|].
  exists c, l. split; [reflexivity|].
  destruct (N.eqb_spec c Ch.minus); [left; assumption|right].
  destruct (N.eqb_spec c Ch.zero) as [->|_]; [reflexivity|].
  destruct (is_digit c); [reflexivity|discriminate].
Qed.

Lemma scan_once_eq pc depth s :
  scan_once pc depth s =
    match s with
    | [] => Failed (StopIteration 0)
    | nextchar :: r =>
        if nextchar =? Ch.quote then
          match py_scanstring r (length s) with
          | Scanned (str, rest) => Scanned (VStr str, rest)
          | Failed e => Failed e
          end
        else if nextchar =? Ch.lbrace then
          match depth with
          | O => Failed (recursion_error "object")
          | S depth' => JSONObject (scan_once pc depth') r
          end
        else if nextchar =? Ch.lbracket then
          match depth with
          | O => Failed (recursion_error "array")
          | S depth' => JSONArray (scan_once pc depth') r
          end
        else if startswith (T "null") s then Scanned (VNone, drop 4 s)
        else if startswith (T "true") s then Scanned (VBool true, drop 4 s)
        else if startswith (T "false") s then Scanned (VBool false, drop 5 s)
        else
          match match_number s with
          | Some (integer, frac, exp, rest) =>
              match frac, exp with
              | [], [] => Scanned (VInt (int_of_literal integer), rest)
              | _, _ => Scanned (VFloat (PyFloat.parse_float integer frac exp), rest)
              end
          | None =>
              if startswith (T "NaN") s then constant pc (T "NaN") (drop 3 s)
              else if startswith (T "Infinity") s then constant pc (T "Infinity") (drop 8 s)
              else if startswith (T "-Infinity") s then constant pc (T "-Infinity") (drop 9 s)
              else Failed (StopIteration (length s))
          end
    end.
Proof. destruct depth; reflexivity. Qed.

Lemma startswith_head_neq a p c s : a <> c -> startswith (a :: p) (c :: s) = false.
Proof. intros H. cbn [startswith]. destruct (N.eqb_spec a c); [contradiction|reflexivity]. Qed.

Ltac literal_heads :=
  change (T "null") with (110 :: T "ull");
  change (T "true") with (116 :: T "rue");
  change (T "false") with (102 :: T "alse");
  change (T "NaN") with (78 :: T "aN");
  change (T "Infinity") with (73 :: T "nfinity");
  change (T "-Infinity") with (45 :: T "Infinity").

Lemma scan_once_number pc depth l i f x rest :
  match_number l = Some (i, f, x, []) -> number_stop rest ->
  scan_once pc depth (l ++ rest) = Scanned (number_value i f x, rest).
Proof.
  intros Hm Hstop. pose proof (match_number_head _ _ Hm) as (c & l' & -> & Hc).
  assert (Hr : 45 <= c <= 57).
  { destruct Hc as [->|Hc%is_digit_iff]; unfold Ch.minus; lia. }
  pose proof (match_number_app _ _ _ _ _ rest Hm Hstop) as Happ.
  rewrite scan_once_eq. cbn [app] in *.
  destruct (N.eqb_spec c Ch.quote) as [Heq|_]; [unfold Ch.quote in Heq; lia|].
  destruct (N.eqb_spec c Ch.lbrace) as [Heq|_]; [unfold Ch.lbrace in Heq; lia|].
  destruct (N.eqb_spec c Ch.lbracket) as [Heq|_]; [unfold Ch.lbracket in Heq; lia|].
  literal_heads. rewrite !startswith_head_neq by lia.
  rewrite Happ. unfold number_value. destruct f, x; reflexivity.
Qed.

Lemma match_number_digits c r :
  49 <= c <= 57 -> Forall (fun d => is_digit d = true) r ->
  forall sign, sign = [] \/ sign = [Ch.minus] ->
  match_number (sign ++ c :: r) = Some (sign ++ c :: r, [], [], []).
Proof.
  intros Hc Hr sign Hsign. unfold match_number, match_integer.
  assert (Hz : (c =? Ch.zero) = false).
  { destruct (N.eqb_spec c Ch.zero) as [Heq|_]; [unfold Ch.zero in Heq; lia|reflexivity]. }
  assert (Hm : (c =? Ch.minus) = false).
  { destruct (N.eqb_spec c Ch.minus) as [Heq|_]; [unfold Ch.minus in Heq; lia|reflexivity]. }
  assert (Hd : is_digit c = true) by (apply is_digit_iff; lia).
  destruct Hsign as [-> | ->]; cbn [app].
  - rewrite Hm. cbv beta iota zeta. rewrite Hz, Hd, (span_digits_all r Hr). reflexivity.
  - change (Ch.minus =? Ch.minus) with true. cbv beta iota zeta.
    rewrite Hz, Hd, (span_digits_all r Hr). reflexivity.
Qed.

Lemma match_number_str_of_int z :
  match_number (str_of_int z) = Some (str_of_int z, [], [], []).
Proof.
  assert (Hpos : forall p, exists c r, str_of_N (Npos p) = c :: r /\ 49 <= c <= 57
                            /\ Forall (fun d => is_digit d = true) r).
  { intros p. destruct (str_of_N_shape (Npos p)) as [H0|H]; [|exact H].
    pose proof (digits_value_str_of_N (Npos p)) as Hv. rewrite H0 in Hv. discriminate. }
  destruct z as [|p|p]; cbn [str_of_int].
  - reflexivity.
  - destruct (Hpos p) as (c & r & -> & Hc & Hr).
    apply (match_number_digits c r Hc Hr []). left; reflexivity.
  - destruct (Hpos p) as (c & r & -> & Hc & Hr).
    apply (match_number_digits c r Hc Hr [Ch.minus]). right; reflexivity.
Qed.

Lemma int_of_literal_str_of_int z : int_of_literal (str_of_int z) = z.
Proof.
  assert (Hhead : forall n, exists c r, str_of_N n = c :: r /\ 48 <= c <= 57).
  { intros n. destruct (str_of_N_shape n) as [->|(c & r & -> & Hc & _)].
    - exists 48, []. split; [reflexivity|lia].
    - exists c, r. split; [reflexivity|lia]. }
  assert (Hn : forall n, int_of_literal (str_of_N n) = Z.of_N n).
  { intros n. destruct (Hhead n) as (c & r & He & Hc).
    unfold int_of_literal. rewrite He.
    destruct (N.eqb_spec c Ch.minus) as [Heq|_]; [unfold Ch.minus in Heq; lia|].
    rewrite <- He, digits_value_str_of_N. reflexivity. }
  destruct z as [|p|p]; cbn [str_of_int].
  - apply (Hn 0).
  - apply (Hn (Npos p)).
  - unfold int_of_literal. change (Ch.minus =? Ch.minus) with true. cbv iota.
    rewrite digits_value_str_of_N. reflexivity.
Qed.

(** An integer reads back. *)
Lemma scan_once_int pc depth z rest :
  number_stop rest ->
  scan_once pc depth (str_of_int z ++ rest) = Scanned (VInt z, rest).
Proof.
  intros Hstop.
  rewrite (scan_once_number pc depth _ _ _ _ rest (match_number_str_of_int z) Hstop).
  unfold number_value. rewrite int_of_literal_str_of_int. reflexivity.
Qed.

(** ** Values *)

(** Induction on values, through the lists they contain. *)
Lemma value_ind (P : value -> Prop) :
  P VNone -> (forall b, P (VBool b)) -> (forall z, P (VInt z)) ->
  (forall f, P (VFloat f)) -> (forall s, P (VStr s)) ->
  (forall items, Forall P items -> P (VList items)) ->
  (forall items, Forall (fun kv => P kv.2) items -> P (VDict items)) ->
  forall v, P v.
Proof.
  intros HN HB HI HF HS HL HD. fix IH 1.
  intros [|b|z|f|s|items|items].
  - exact HN.
  - apply HB.
  - apply HI.
  - apply HF.
  - apply HS.
  - apply HL. induction items as [|v items IHitems]; constructor; [apply IH|exact IHitems].
  - apply HD. induction items as [|[k v] items IHitems]; constructor;
      [apply IH|exact IHitems].
Qed.

Lemma skip_ws_app ws s : Forall (fun c => is_ws c = true) ws -> skip_ws (ws ++ s) = skip_ws s.
Proof. induction 1 as [|c ws Hc _ IH]; cbn [app skip_ws]; [reflexivity|]. rewrite Hc. exact IH. Qed.

Lemma skip_ws_head c s : is_ws c = false -> skip_ws (c :: s) = c :: s.
Proof. intros H. cbn [skip_ws]. rewrite H. reflexivity. Qed.

(** [scan_once] does not skip white space, and does not take a closing
    bracket for a value. *)
Lemma scan_once_head pc depth s x :
  scan_once pc depth s = Scanned x ->
  exists c r, s = c :: r /\ is_ws c = false /\ c <> Ch.rbracket /\ c <> Ch.rbrace.
Proof.
  intros H. destruct s as [|c r]; [rewrite scan_once_eq in H; discriminate|].
  exists c, r. split; [reflexivity|].
  assert (Hbad : forall b, In b [Ch.space; Ch.tab; Ch.lf; Ch.cr; Ch.rbracket; Ch.rbrace] -> c <> b).
  { intros b Hb ->. rewrite scan_once_eq in H.
    cbn [In] in Hb. destruct Hb as [<-|[<-|[<-|[<-|[<-|[<-|[]]]]]]]; discriminate H. }
  split; [|split; apply Hbad; cbn; auto 10].
  unfold is_ws.
  repeat match goal with
         | |- context [c =? ?b] =>
             destruct (N.eqb_spec c b) as [Heq|_];
             [exfalso; apply (Hbad b); [cbn; auto 10|exact Heq]|]
         end.
  reflexivity.
Qed.

Lemma eqb_refl_finite s m e : PyFloat.eqb (S754_finite s m e) (S754_finite s m e) = true.
Proof.
  unfold PyFloat.eqb, SFeqb, SFcompare. rewrite Z.compare_refl.
  assert (H : Pos.compare_cont Eq m m = Eq) by apply Pos.compare_refl.
  rewrite H. destruct s; reflexivity.
Qed.

Lemma floatstr_finite f :
  match f with S754_nan | S754_infinity _ => False | _ => True end ->
  floatstr f = PyFloat.float_repr f.
Proof.
  destruct f as [s|s| |s m e]; try contradiction; intros _.
  - destruct s; reflexivity.
  - unfold floatstr. rewrite eqb_refl_finite. destruct s; reflexivity.
Qed.

(** A float reads back. *)
Lemma scan_once_float depth f rest :
  float_reads_back f = true -> number_stop rest ->
  scan_once default_parse_constant depth (floatstr f ++ rest) = Scanned (VFloat f, rest).
Proof.
  intros Hf Hstop.
  assert (Hfin : match f with S754_nan | S754_infinity _ => False | _ => True end ->
                 scan_once default_parse_constant depth (floatstr f ++ rest)
                 = Scanned (VFloat f, rest)).
  { intros Hfin. rewrite (floatstr_finite f Hfin).
    assert (Hm : exists i fr x, match_number (PyFloat.float_repr f) = Some (i, fr, x, [])
                 /\ number_value i fr x = VFloat f).
    { destruct f as [s|s| |s m e]; try contradiction; cbn [float_reads_back] in Hf;
        (destruct (match_number _) as [[[[i fr] x] [|? ?]]|]; [|discriminate..];
         apply andb_true_iff in Hf as [Hne Heq];
         apply bool_decide_eq_true in Heq;
         exists i, fr, x; split; [reflexivity|];
         unfold number_value; destruct fr, x; try discriminate Hne; rewrite Heq; reflexivity). }
    destruct Hm as (i & fr & x & Hm & Hv).
    rewrite (scan_once_number _ depth _ _ _ _ rest Hm Hstop), Hv. reflexivity. }
  destruct f as [s|s| |s m e]; try (apply Hfin; exact I).
  - rewrite scan_once_eq. destruct s; reflexivity.
  - rewrite scan_once_eq. reflexivity.
Qed.

(** ** Floats: shifting a mantissa *)

Section Shift.
#[local] Open Scope Q_scope.

Lemma inject_Z_xO p : inject_Z (Zpos p~0) == 2 * inject_Z (Zpos p).
Proof. change (Zpos p~0) with (2 * Zpos p)%Z. rewrite inject_Z_mult. reflexivity. Qed.

Lemma inject_Z_xI p : inject_Z (Zpos p~1) == 2 * inject_Z (Zpos p) + 1.
Proof.
  change (Zpos p~1) with (2 * Zpos p + 1)%Z. rewrite inject_Z_plus, inject_Z_mult. reflexivity.
Qed.

Lemma rec_ok_shr_1 y mrs : rec_ok y mrs -> rec_ok (y * (1 # 2)) (shr_1 mrs).
Proof.
  destruct mrs as [m r s]. unfold rec_ok. cbn [shr_m shr_r shr_s shr_1].
  intros (Hm & Hy & Hr & Hs).
  assert (Hrs : r || s = false <-> y == inject_Z m).
  { destruct r, s; cbn [orb]; split; intros H; try discriminate; try reflexivity.
    - exfalso. destruct Hr as [Hr _]. specialize (Hr eq_refl). lra.
    - exfalso. destruct Hr as [Hr _]. specialize (Hr eq_refl). lra.
    - exfalso. destruct Hs as [_ Hs]. specialize (Hs (or_introl H)). discriminate.
    - destruct Hs as [Hs _]. destruct (Hs eq_refl) as [E|E]; [exact E|].
      exfalso. destruct Hr as [_ Hr]. rewrite E in Hr.
      specialize (Hr ltac:(lra)). discriminate. }
  destruct m as [|[p|p|]|p]; try lia; cbn [shr_m shr_r shr_s].
  - (* 0 *)
    change (inject_Z 0) with 0 in *.
    split; [lia|]. split; [lra|]. split.
    + split; [discriminate|]. intros H. exfalso. lra.
    + rewrite Hrs. split; intros H; [left; lra|]. destruct H as [H|H]; lra.
  - (* 2p+1 *)
    pose proof (inject_Z_xI p) as E. set (a := inject_Z (Zpos p)) in *.
    set (b := inject_Z (Zpos p~1)) in *.
    split; [lia|]. split; [lra|]. split.
    + split; [intros _; lra|reflexivity].
    + rewrite Hrs. split; intros H; [right; lra|]. destruct H as [H|H]; lra.
  - (* 2p *)
    pose proof (inject_Z_xO p) as E. set (a := inject_Z (Zpos p)) in *.
    set (b := inject_Z (Zpos p~0)) in *.
    split; [lia|]. split; [lra|]. split.
    + split; [discriminate|]. intros H. exfalso. lra.
    + rewrite Hrs. split; intros H; [left; lra|]. destruct H as [H|H]; lra.
  - (* 1 *)
    change (inject_Z 1) with 1 in *. change (inject_Z 0) with 0.
    split; [lia|]. split; [lra|]. split.
    + split; [intros _; lra|reflexivity].
    + rewrite Hrs. split; intros H; [right; lra|]. destruct H as [H|H]; lra.
Qed.

Lemma rec_ok_Qeq y y' mrs : y == y' -> rec_ok y mrs -> rec_ok y' mrs.
Proof.
  intros E (Hm & Hy & Hr & Hs). unfold rec_ok. rewrite <- E. auto.
Qed.

Lemma two_pow_pos n : 0 < 2 ^ n.
Proof. apply Qpower_0_lt. reflexivity. Qed.

Lemma rec_ok_iter p : forall y mrs,
  rec_ok y mrs -> rec_ok (y / 2 ^ Zpos p) (SpecFloat.iter_pos shr_1 p mrs).
Proof.
  induction p as [p IH|p IH|]; intros y mrs H; cbn [SpecFloat.iter_pos].
  - apply rec_ok_shr_1, IH, IH in H. revert H. apply rec_ok_Qeq.
    replace (Zpos p~1) with (1 + (Zpos p + Zpos p))%Z by lia.
    rewrite !Qpower_plus by discriminate.
    pose proof (two_pow_pos (Zpos p)). change (2 ^ 1) with 2. field. lra.
  - apply IH, IH in H. revert H. apply rec_ok_Qeq.
    replace (Zpos p~0) with (Zpos p + Zpos p)%Z by lia.
    rewrite !Qpower_plus by discriminate.
    pose proof (two_pow_pos (Zpos p)). field. lra.
  - apply rec_ok_shr_1 in H. revert H. apply rec_ok_Qeq. change (2 ^ 1) with 2. field.
Qed.

Lemma rec_ok_unique y r1 r2 : rec_ok y r1 -> rec_ok y r2 -> r1 = r2.
Proof.
  destruct r1 as [m1 a1 b1], r2 as [m2 a2 b2]. unfold rec_ok. cbn [shr_m shr_r shr_s].
  intros (_ & Hy1 & Hr1 & Hs1) (_ & Hy2 & Hr2 & Hs2).
  assert (m1 = m2) as <-.
  { assert (inject_Z m1 < inject_Z m2 + 1) as H1 by lra.
    assert (inject_Z m2 < inject_Z m1 + 1) as H2 by lra.
    change 1 with (inject_Z 1) in H1, H2. rewrite <- inject_Z_plus in H1, H2.
    rewrite <- Zlt_Qlt in H1, H2. lia. }
  assert (a1 = a2) as <-.
  { destruct a1, a2; try reflexivity.
    - symmetry. apply Hr2, Hr1. reflexivity.
    - apply Hr1, Hr2. reflexivity. }
  assert (b1 = b2) as <-.
  { destruct b1, b2; try reflexivity.
    - apply Hs1, Hs2. reflexivity.
    - symmetry. apply Hs2, Hs1. reflexivity. }
  reflexivity.
Qed.

End Shift.

(** ** Floats: the exponent of the last place *)

Section Canonical.
#[local] Open Scope Z_scope.
#[local] Open Scope Q_scope.

Lemma fexp_eq k : fexp k = Z.max (k - 53) (-1074).
Proof. reflexivity. Qed.

Lemma digits2_pos_bounds p :
  (2 ^ (Zpos (digits2_pos p) - 1) <= Zpos p < 2 ^ Zpos (digits2_pos p))%Z.
Proof.
  induction p as [p IH|p IH|]; cbn [digits2_pos]; [| |cbn; lia].
  - rewrite Pos2Z.inj_succ. replace (Z.succ (Zpos (digits2_pos p)) - 1)%Z
      with (Z.succ (Zpos (digits2_pos p) - 1)) by lia.
    rewrite !Z.pow_succ_r by lia. lia.
  - rewrite Pos2Z.inj_succ. replace (Z.succ (Zpos (digits2_pos p)) - 1)%Z
      with (Z.succ (Zpos (digits2_pos p) - 1)) by lia.
    rewrite !Z.pow_succ_r by lia. lia.
Qed.

Lemma two_pow_inject n : (0 <= n)%Z -> inject_Z (2 ^ n) == 2 ^ n.
Proof. intros H. rewrite Zpower_Qpower by assumption. reflexivity. Qed.

Lemma two_pow_add a b : 2 ^ (a + b) == 2 ^ a * 2 ^ b.
Proof. apply Qpower_plus. discriminate. Qed.

Lemma two_pow_le a b : (a <= b)%Z -> 2 ^ a <= 2 ^ b.
Proof. intros H. apply Qpower_le_compat_l; [assumption|]. discriminate. Qed.

Lemma two_pow_lt a b : (a < b)%Z -> 2 ^ a < 2 ^ b.
Proof. intros H. apply Qpower_lt_compat_l; [assumption|]. reflexivity. Qed.

Lemma two_pow_lt_inv a b : 2 ^ a < 2 ^ b -> (a < b)%Z.
Proof. intros H. apply (Qpower_lt_compat_l_inv 2); [assumption|]. reflexivity. Qed.

(** [x / 2^e] and [x]. *)
Lemma scaled_le x e a b : a * 2 ^ e <= x -> x < b * 2 ^ e -> a <= x / 2 ^ e < b.
Proof.
  intros H1 H2. pose proof (two_pow_pos e) as Hp.
  split.
  - apply Qle_shift_div_l; assumption.
  - apply Qlt_shift_div_r; assumption.
Qed.

Lemma unscaled_le x e a b : a <= x / 2 ^ e < b -> a * 2 ^ e <= x /\ x < b * 2 ^ e.
Proof.
  intros [H1 H2]. pose proof (two_pow_pos e) as Hp.
  assert (E : x == x / 2 ^ e * 2 ^ e) by (field; lra).
  split.
  - rewrite E. apply Qmult_le_compat_r; lra.
  - rewrite E. apply Qmult_lt_compat_r; lra.
Qed.

Lemma mag_of_record x e m :
  (0 < m)%Z -> inject_Z m <= x / 2 ^ e < inject_Z m + 1 ->
  mag_of x (Zdigits2 m + e).
Proof.
  intros Hm Hy. destruct m as [|p|p]; try lia. cbn [Zdigits2].
  pose proof (digits2_pos_bounds p) as [Hlo Hhi].
  set (d := Zpos (digits2_pos p)) in *.
  assert (Hd : (0 <= d - 1)%Z) by (unfold d; lia).
  apply unscaled_le in Hy as [H1 H2]. unfold mag_of.
  replace (d + e - 1)%Z with ((d - 1) + e)%Z by lia.
  rewrite !two_pow_add. pose proof (two_pow_pos e) as Hp.
  split.
  - eapply Qle_trans; [|exact H1]. apply Qmult_le_compat_r; [|lra].
    rewrite <- two_pow_inject by assumption. rewrite <- Zle_Qle. assumption.
  - eapply Qlt_le_trans; [exact H2|]. apply Qmult_le_compat_r; [|lra].
    rewrite <- two_pow_inject by lia.
    change 1 with (inject_Z 1). rewrite <- inject_Z_plus, <- Zle_Qle. lia.
Qed.

Lemma mag_unique x k k' : mag_of x k -> mag_of x k' -> k = k'.
Proof.
  intros [H1 H2] [H3 H4].
  assert (k - 1 < k')%Z by (apply two_pow_lt_inv; lra).
  assert (k' - 1 < k)%Z by (apply two_pow_lt_inv; lra).
  lia.
Qed.

Lemma mag_le x k k' : 2 ^ (k - 1) <= x -> x < 2 ^ k' -> (k <= k')%Z.
Proof.
  intros H1 H2. assert (k - 1 < k')%Z by (apply two_pow_lt_inv; lra). lia.
Qed.

Lemma canon_exp_of_mag x k : mag_of x k -> canon_exp x (fexp k).
Proof.
  intros Hk. rewrite fexp_eq. destruct (Z_le_gt_dec k (-1021)) as [H|H].
  - left. split; [|lia]. destruct Hk as [_ Hk].
    eapply Qlt_le_trans; [exact Hk|]. apply two_pow_le. assumption.
  - right. exists k. split; [lia|]. split; [assumption|]. lia.
Qed.

Lemma canon_exp_unique x e1 e2 : canon_exp x e1 -> canon_exp x e2 -> e1 = e2.
Proof.
  intros [[H1 ->]|(k1 & Hk1 & Hm1 & ->)] [[H2 ->]|(k2 & Hk2 & Hm2 & ->)].
  - reflexivity.
  - exfalso. destruct Hm2 as [Hm2 _].
    assert (k2 <= -1021)%Z by (eapply mag_le; eassumption). lia.
  - exfalso. destruct Hm1 as [Hm1 _].
    assert (k1 <= -1021)%Z by (eapply mag_le; eassumption). lia.
  - rewrite (mag_unique x k1 k2); auto.
Qed.

(** With a magnitude, the exponent is [fexp] of it. *)
Lemma canon_exp_mag x k e0 : mag_of x k -> canon_exp x e0 -> e0 = fexp k.
Proof. intros Hk He. apply (canon_exp_unique x); [assumption|apply canon_exp_of_mag, Hk]. Qed.

Lemma canon_exp_ge x e0 : canon_exp x e0 -> (-1074 <= e0)%Z.
Proof. intros [[_ ->]|(k & Hk & _ & ->)]; lia. Qed.

Lemma shr_m_of_loc m l : shr_m (shr_record_of_loc m l) = m.
Proof. destruct l as [|[]]; reflexivity. Qed.

(** The first shift of [binary_round_aux] brings a mantissa that is fine
    enough to the exponent of the last place. *)
Lemma shr_fexp_spec x m e l e0 :
  rec_ok (x / 2 ^ e) (shr_record_of_loc m l) -> canon_exp x e0 -> (e <= e0)%Z ->
  exists mrs,
    shr_fexp PyFloat.prec PyFloat.emax m e l = (mrs, e0) /\ rec_ok (x / 2 ^ e0) mrs.
Proof.
  intros Hrec Hc Hle. unfold shr_fexp.
  change (SpecFloat.fexp PyFloat.prec PyFloat.emax) with fexp.
  assert (Hf : fexp (Zdigits2 m + e) = e0).
  { pose proof Hrec as (Hm & Hy & _). rewrite shr_m_of_loc in Hm, Hy.
    destruct (Z.eq_dec m 0%Z) as [->|Hm0].
    - cbn [Zdigits2]. change (inject_Z 0) with 0 in Hy.
      apply unscaled_le in Hy as [_ Hy]. rewrite Qplus_0_l, Qmult_1_l in Hy.
      rewrite fexp_eq. destruct Hc as [[_ ->]|(k & Hk & [Hk1 _] & ->)]; [lia|].
      exfalso. assert (k <= e)%Z by (eapply mag_le; eassumption). lia.
    - symmetry. apply (canon_exp_mag x); [|assumption].
      apply mag_of_record; [lia|assumption]. }
  rewrite Hf. unfold shr. destruct (e0 - e)%Z as [|p|p] eqn:Hd; try lia.
  - assert (e0 = e) as -> by lia. eexists; split; [reflexivity|assumption].
  - replace (e + Zpos p)%Z with e0 by lia. eexists; split; [reflexivity|].
    apply (rec_ok_iter p) in Hrec. revert Hrec. apply rec_ok_Qeq.
    replace e0 with (e + Zpos p)%Z by lia. rewrite two_pow_add.
    pose proof (two_pow_pos e). pose proof (two_pow_pos (Zpos p)). field. lra.
Qed.

Lemma binary_round_aux_rounds x sx m e l e0 :
  rec_ok (x / 2 ^ e) (shr_record_of_loc m l) -> canon_exp x e0 -> (e <= e0)%Z ->
  rounds x sx (binary_round_aux PyFloat.prec PyFloat.emax sx m e l).
Proof.
  intros Hrec Hc Hle. destruct (shr_fexp_spec x m e l e0 Hrec Hc Hle) as (mrs & Hs & Hok).
  exists e0, mrs. split; [assumption|]. split; [assumption|].
  unfold binary_round_aux, finish. rewrite Hs. reflexivity.
Qed.

Lemma rounds_unique x sx f f' : rounds x sx f -> rounds x sx f' -> f = f'.
Proof.
  intros (e1 & r1 & Hc1 & Hr1 & ->) (e2 & r2 & Hc2 & Hr2 & ->).
  assert (e1 = e2) as <- by (eapply canon_exp_unique; eassumption).
  assert (r1 = r2) as <- by (eapply rec_ok_unique; eassumption).
  reflexivity.
Qed.

Lemma canon_exp_Qeq x x' e0 : x == x' -> canon_exp x e0 -> canon_exp x' e0.
Proof.
  intros E [[H ->]|(k & Hk & Hm & ->)].
  - left. rewrite <- E. auto.
  - right. exists k. unfold mag_of in *. rewrite <- E. auto.
Qed.

Lemma rounds_Qeq x x' sx f : x == x' -> rounds x sx f -> rounds x' sx f.
Proof.
  intros E (e0 & mrs & Hc & Hr & ->). exists e0, mrs.
  split; [eapply canon_exp_Qeq; eassumption|]. split; [|reflexivity].
  revert Hr. apply rec_ok_Qeq. rewrite E. reflexivity.
Qed.

End Canonical.

(** ** Floats: rounding an integer and a quotient *)

Section Decimal.
#[local] Open Scope Z_scope.
#[local] Open Scope Q_scope.

Lemma new_location_spec m2 r : (0 <= r < m2)%Z -> new_location m2 r = location_of m2 r.
Proof.
  intros Hr. unfold new_location, new_location_even, new_location_odd, location_of.
  destruct (Z.even m2) eqn:He; [reflexivity|].
  destruct (r =? 0)%Z; [reflexivity|]. f_equal.
  assert (Ho : Z.odd m2 = true) by (rewrite <- Z.negb_even, He; reflexivity).
  apply Z.odd_spec in Ho as [c Hc].
  destruct (Z.compare_spec (2 * r + 1) m2), (Z.compare_spec (2 * r) m2);
    try reflexivity; lia.
Qed.

Lemma rec_ok_exact y m :
  (0 <= m)%Z -> y == inject_Z m -> rec_ok y (shr_record_of_loc m loc_Exact).
Proof.
  intros Hm E. unfold rec_ok. cbn [shr_record_of_loc shr_m shr_r shr_s].
  split; [assumption|]. split; [lra|]. split.
  - split; [discriminate|]. intros H. exfalso. lra.
  - split; [intros _; left; assumption|reflexivity].
Qed.

(** The quotient and the remainder of a division give the mantissa and the
    location. *)
Lemma rec_ok_div y q r m2 :
  (0 <= q)%Z -> (0 <= r < m2)%Z -> y == inject_Z q + inject_Z r / inject_Z m2 ->
  rec_ok y (shr_record_of_loc q (location_of m2 r)).
Proof.
  intros Hq Hr E. set (t := inject_Z r / inject_Z m2) in *.
  assert (HM : 0 < inject_Z m2) by (change 0 with (inject_Z 0); rewrite <- Zlt_Qlt; lia).
  assert (Ht0 : 0 <= t).
  { apply Qle_shift_div_l; [assumption|]. rewrite Qmult_0_l.
    change 0 with (inject_Z 0). rewrite <- Zle_Qle. lia. }
  assert (Ht1 : t < 1).
  { apply Qlt_shift_div_r; [assumption|]. rewrite Qmult_1_l. rewrite <- Zlt_Qlt. lia. }
  assert (Hz : (r = 0)%Z <-> t == 0).
  { split.
    - intros ->. unfold t. change (inject_Z 0) with 0. field. lra.
    - intros H. assert (inject_Z r == 0) as Hr0.
      { setoid_replace (inject_Z r) with (t * inject_Z m2) using relation Qeq by (unfold t; field; lra).
        rewrite H. ring. }
      change 0 with (inject_Z 0) in Hr0. apply (proj1 (inject_Z_injective r 0%Z)) in Hr0. exact Hr0. }
  assert (Hhalf : forall c : comparison, (2 * r ?= m2)%Z = c ->
            match c with Lt => t < 1 # 2 | Eq => t == 1 # 2 | Gt => (1 # 2) < t end).
  { intros c Hc.
    assert (E2 : inject_Z (2 * r) == 2 * t * inject_Z m2).
    { rewrite inject_Z_mult. unfold t. change (inject_Z 2) with 2. field. lra. }
    assert (HMne : ~ inject_Z m2 == 0) by lra.
    destruct (Z.compare_spec (2 * r) m2) as [H|H|H]; subst c.
    - rewrite H in E2. assert (2 * t == 1); [|lra].
      apply (proj1 (Qmult_inj_r (2 * t) 1 (inject_Z m2) HMne)). rewrite <- E2. ring.
    - rewrite Zlt_Qlt, E2 in H.
      assert (2 * t < 1); [|lra].
      apply (proj1 (Qmult_lt_r (2 * t) 1 (inject_Z m2) HM)). lra.
    - rewrite Zlt_Qlt, E2 in H.
      assert (1 < 2 * t); [|lra].
      apply (proj1 (Qmult_lt_r 1 (2 * t) (inject_Z m2) HM)). lra. }
  unfold rec_ok, location_of. destruct (Z.eqb_spec r 0) as [Hr0|Hr0].
  - apply Hz in Hr0. cbn [shr_record_of_loc shr_m shr_r shr_s].
    split; [assumption|]. split; [lra|]. split.
    + split; [discriminate|]. intros H. exfalso. lra.
    + split; [intros _; left; lra|reflexivity].
  - assert (Hn : ~ t == 0) by (intros H; apply Hz in H; contradiction).
    specialize (Hhalf _ eq_refl). destruct (2 * r ?= m2)%Z;
      cbn [shr_record_of_loc shr_m shr_r shr_s];
      (split; [assumption|]); (split; [lra|]); split.
    + split; [intros _; lra|reflexivity].
    + split; [intros _; right; lra|reflexivity].
    + split; [discriminate|]. intros H. exfalso. lra.
    + split; [discriminate|]. intros [H|H]; exfalso; lra.
    + split; [intros _; lra|reflexivity].
    + split; [discriminate|]. intros [H|H]; exfalso; lra.
Qed.

Lemma inject_Z_pos p : 0 < inject_Z (Zpos p).
Proof. change 0 with (inject_Z 0). rewrite <- Zlt_Qlt. lia. Qed.

(** [binary_round] rounds [mx * 2^ex]. *)
Lemma binary_round_rounds sx mx ex :
  rounds (inject_Z (Zpos mx) * 2 ^ ex) sx (binary_round PyFloat.prec PyFloat.emax sx mx ex).
Proof.
  set (x := inject_Z (Zpos mx) * 2 ^ ex).
  pose proof (two_pow_pos ex) as Hp.
  assert (Hy : x / 2 ^ ex == inject_Z (Zpos mx)) by (unfold x; field; lra).
  assert (Hmag : mag_of x (Zdigits2 (Zpos mx) + ex)).
  { apply mag_of_record; [lia|]. rewrite Hy. lra. }
  cbn [Zdigits2] in Hmag. pose proof (canon_exp_of_mag _ _ Hmag) as Hc.
  unfold binary_round. change (SpecFloat.fexp PyFloat.prec PyFloat.emax) with fexp.
  set (e0 := fexp (Zpos (digits2_pos mx) + ex)) in *.
  unfold shl_align. destruct (e0 - ex)%Z as [|d|d] eqn:Hd.
  - apply (binary_round_aux_rounds x sx _ _ _ e0); [|assumption|lia].
    apply rec_ok_exact; [lia|assumption].
  - apply (binary_round_aux_rounds x sx _ _ _ e0); [|assumption|lia].
    apply rec_ok_exact; [lia|assumption].
  - apply (binary_round_aux_rounds x sx _ _ _ e0); [|assumption|lia].
    apply rec_ok_exact; [lia|].
    change (Pos.iter xO mx d) with (shift_pos d mx). rewrite shift_pos_correct.
    rewrite Z.pow_pos_fold, inject_Z_mult, two_pow_inject by lia.
    unfold x. replace ex with (Zpos d + e0)%Z at 1 by lia. rewrite two_pow_add.
    pose proof (two_pow_pos e0). field. lra.
Qed.

(** The division of two integers, rounded. *)
Lemma div_rounds sx p1 p2 :
  let '(q, e, l) := SFdiv_core_binary PyFloat.prec PyFloat.emax (Zpos p1) 0 (Zpos p2) 0 in
  rounds (inject_Z (Zpos p1) / inject_Z (Zpos p2)) sx
    (binary_round_aux PyFloat.prec PyFloat.emax sx q e l).
Proof.
  unfold SFdiv_core_binary. cbn [Zdigits2].
  change (SpecFloat.fexp PyFloat.prec PyFloat.emax) with fexp.
  rewrite !Z.add_0_r. change (0 - 0)%Z with 0%Z.
  set (d1 := Zpos (digits2_pos p1)). set (d2 := Zpos (digits2_pos p2)).
  set (e' := Z.min (fexp (d1 - d2)) 0). set (s := (0 - e')%Z).
  assert (Hs : (0 <= s)%Z) by (unfold s, e'; lia).
  set (m' := match s with Z.pos _ => Z.shiftl (Zpos p1) s | 0%Z => Zpos p1 | Z.neg _ => 0%Z end).
  assert (Hm' : m' = (Zpos p1 * 2 ^ s)%Z).
  { unfold m'. destruct s as [|p|p] eqn:E; try lia.
    apply Z.shiftl_mul_pow2. lia. }
  pose proof (Z_div_mod m' (Zpos p2) ltac:(lia)) as Hdiv.
  destruct (Z.div_eucl m' (Zpos p2)) as [q r]. destruct Hdiv as [Hqr Hr].
  set (x := inject_Z (Zpos p1) / inject_Z (Zpos p2)).
  pose proof (inject_Z_pos p1) as H1. pose proof (inject_Z_pos p2) as H2.
  pose proof (two_pow_pos e') as Hpe. pose proof (two_pow_pos s) as Hps.
  assert (Hpow : 2 ^ s * 2 ^ e' == 1).
  { rewrite <- two_pow_add. replace (s + e')%Z with 0%Z by (unfold s; lia). reflexivity. }
  assert (Hq : (0 <= q)%Z).
  { assert (0 <= m')%Z by (rewrite Hm'; pose proof (Z.pow_pos_nonneg 2 s); lia). nia. }
  assert (Hy : x / 2 ^ e' == inject_Z q + inject_Z r / inject_Z (Zpos p2)).
  { assert (E : inject_Z (Zpos p1) * 2 ^ s == inject_Z (Zpos p2) * inject_Z q + inject_Z r).
    { rewrite <- two_pow_inject, <- !inject_Z_mult, <- inject_Z_plus by assumption.
      rewrite <- Hm', Hqr. reflexivity. }
    unfold x. apply (Qmult_inj_r _ _ (inject_Z (Zpos p2) * 2 ^ e')); [nra|].
    setoid_replace (inject_Z (Zpos p1) / inject_Z (Zpos p2) / 2 ^ e' * (inject_Z (Zpos p2) * 2 ^ e'))
      with (inject_Z (Zpos p1) * (2 ^ s * 2 ^ e')) using relation Qeq by (rewrite Hpow; field; lra).
    setoid_replace ((inject_Z q + inject_Z r / inject_Z (Zpos p2)) * (inject_Z (Zpos p2) * 2 ^ e'))
      with ((inject_Z (Zpos p2) * inject_Z q + inject_Z r) * 2 ^ e') using relation Qeq by (field; lra).
    rewrite <- E. ring. }
  rewrite new_location_spec by assumption.
  pose proof (rec_ok_div _ q r (Zpos p2) Hq Hr Hy) as Hrec.
  (* the magnitude of the quotient *)
  pose proof (digits2_pos_bounds p1) as [Hl1 Hh1]. pose proof (digits2_pos_bounds p2) as [Hl2 Hh2].
  fold d1 in Hl1, Hh1. fold d2 in Hl2, Hh2.
  assert (Hd1 : (0 < d1)%Z) by (unfold d1; lia). assert (Hd2 : (0 < d2)%Z) by (unfold d2; lia).
  assert (Hxlo : 2 ^ (d1 - d2 - 1) < x).
  { unfold x. apply Qlt_shift_div_l; [assumption|].
    replace (d1 - d2 - 1)%Z with ((d1 - 1) + - d2)%Z by lia.
    rewrite two_pow_add, Qpower_opp.
    rewrite Zlt_Qlt in Hh2. rewrite Zle_Qle in Hl1.
    rewrite two_pow_inject in Hh2, Hl1 by lia.
    pose proof (two_pow_pos d2). pose proof (two_pow_pos (d1 - 1)).
    apply Qlt_le_trans with (2 ^ (d1 - 1)); [|assumption].
    setoid_replace (2 ^ (d1 - 1)) with (2 ^ (d1 - 1) * / 2 ^ d2 * 2 ^ d2) using relation Qeq at 2 by (field; lra).
    apply Qmult_lt_l; [|assumption]. apply Qmult_lt_0_compat; [assumption|].
    apply Qinv_lt_0_compat. assumption. }
  assert (Hxhi : x < 2 ^ (d1 - d2 + 1)).
  { unfold x. apply Qlt_shift_div_r; [assumption|].
    replace (d1 - d2 + 1)%Z with (d1 + - (d2 - 1))%Z by lia.
    rewrite two_pow_add, Qpower_opp.
    rewrite Zlt_Qlt in Hh1. rewrite Zle_Qle in Hl2.
    rewrite two_pow_inject in Hh1, Hl2 by lia.
    pose proof (two_pow_pos d1). pose proof (two_pow_pos (d2 - 1)).
    apply Qlt_le_trans with (2 ^ d1); [assumption|].
    setoid_replace (2 ^ d1) with (2 ^ d1 * / 2 ^ (d2 - 1) * 2 ^ (d2 - 1)) using relation Qeq at 1 by (field; lra).
    apply Qmult_le_l; [|assumption]. apply Qmult_lt_0_compat; [assumption|].
    apply Qinv_lt_0_compat. assumption. }
  destruct (Z.eq_dec q 0%Z) as [->|Hq0].
  - (* the quotient is below the last place *)
    destruct Hrec as (_ & Hrec & _). rewrite shr_m_of_loc in Hrec.
    change (inject_Z 0) with 0 in Hrec. apply unscaled_le in Hrec as [_ Hrec].
    rewrite Qplus_0_l, Qmult_1_l in Hrec.
    assert (He' : (d1 - d2 - 1 < e')%Z) by (apply two_pow_lt_inv; lra).
    assert (e' = (-1074)%Z) as He by (unfold e' in *; rewrite fexp_eq in *; lia).
    apply (binary_round_aux_rounds x sx _ _ _ (-1074)%Z).
    + apply (rec_ok_div _ 0%Z r (Zpos p2) Hq Hr Hy).
    + left. split; [|reflexivity]. rewrite He in Hrec.
      eapply Qlt_trans; [exact Hrec|]. apply two_pow_lt. lia.
    + lia.
  - pose proof Hrec as (_ & Hrec' & _). rewrite shr_m_of_loc in Hrec'.
    pose proof (mag_of_record x e' q ltac:(lia) Hrec') as Hmag.
    set (k := (Zdigits2 q + e')%Z) in *.
    assert (Hk : (d1 - d2 <= k)%Z).
    { destruct Hmag as [_ Hmag]. assert (d1 - d2 - 1 < k)%Z by (apply two_pow_lt_inv; lra). lia. }
    apply (binary_round_aux_rounds x sx _ _ _ (fexp k)).
    + assumption.
    + apply canon_exp_of_mag. assumption.
    + unfold e'. rewrite !fexp_eq. lia.
Qed.

End Decimal.

(** ** Floats: what [float(str)] returns *)

Section FloatOfDecimal.
#[local] Open Scope Z_scope.
#[local] Open Scope Q_scope.

Lemma ten_pow_pos n : 0 < 10 ^ n.
Proof. apply Qpower_0_lt. reflexivity. Qed.

Lemma ten_pow_inject n : (0 <= n)%Z -> inject_Z (10 ^ n) == 10 ^ n.
Proof. intros H. rewrite Zpower_Qpower by assumption. reflexivity. Qed.

Lemma ten_pow_add a b : 10 ^ (a + b) == 10 ^ a * 10 ^ b.
Proof. apply Qpower_plus. discriminate. Qed.

Lemma decimal_value_pos d e10 : 0 < decimal_value d e10.
Proof.
  unfold decimal_value. apply Qmult_lt_0_compat; [apply inject_Z_pos|apply ten_pow_pos].
Qed.

(** [float(str)] rounds the decimal that the text denotes. *)
Lemma float_of_decimal_rounds neg d e10 :
  rounds (decimal_value d e10) neg (PyFloat.float_of_decimal neg (Npos d) e10).
Proof.
  unfold PyFloat.float_of_decimal, decimal_value. destruct e10 as [|k|k].
  - pose proof (binary_round_rounds neg (Z.to_pos (Zpos d * 10 ^ 0)) 0) as H.
    revert H. apply rounds_Qeq. change (10 ^ 0)%Z with 1%Z. rewrite Z.mul_1_r.
    cbn [Z.to_pos]. change (2 ^ 0) with 1. change (10 ^ 0) with 1. ring.
  - pose proof (binary_round_rounds neg (Z.to_pos (Zpos d * 10 ^ Zpos k)) 0) as H.
    revert H. apply rounds_Qeq.
    assert (Hp : (0 < 10 ^ Zpos k)%Z) by (apply Z.pow_pos_nonneg; lia).
    rewrite Z2Pos.id by lia. rewrite inject_Z_mult, ten_pow_inject by lia.
    change (2 ^ 0) with 1. ring.
  - assert (Hp : (0 < 10 ^ Zpos k)%Z) by (apply Z.pow_pos_nonneg; lia).
    destruct (10 ^ Zpos k)%Z as [|p2|p2] eqn:E; try lia.
    pose proof (div_rounds neg d p2) as H.
    destruct (SFdiv_core_binary PyFloat.prec PyFloat.emax (Zpos d) 0 (Zpos p2) 0)
      as [[q e] l].
    revert H. apply rounds_Qeq.
    change (Z.neg k) with (- Zpos k)%Z. rewrite Qpower_opp.
    rewrite <- ten_pow_inject, E by lia. reflexivity.
Qed.

(** Two decimals of the same value give the same float. *)
Lemma float_of_decimal_ext neg d e10 d' e10' :
  decimal_value d e10 == decimal_value d' e10' ->
  PyFloat.float_of_decimal neg (Npos d) e10 = PyFloat.float_of_decimal neg (Npos d') e10'.
Proof.
  intros E. apply (rounds_unique (decimal_value d e10) neg).
  - apply float_of_decimal_rounds.
  - apply (rounds_Qeq (decimal_value d' e10')); [symmetry; assumption|].
    apply float_of_decimal_rounds.
Qed.

Lemma finish_sign sx sx' mrs e0 m e :
  finish sx mrs e0 = S754_finite sx m e -> finish sx' mrs e0 = S754_finite sx' m e.
Proof.
  unfold finish.
  destruct (shr_fexp _ _ _ _ _) as [mrs'' e''].
  destruct (shr_m mrs'') as [|p|p]; try discriminate.
  destruct (e'' <=? _)%Z; try discriminate. intros [= <- <-]. reflexivity.
Qed.

(** The sign is that of the text. *)
Lemma float_of_decimal_sign neg neg' d e10 m e :
  PyFloat.float_of_decimal neg (Npos d) e10 = S754_finite neg m e ->
  PyFloat.float_of_decimal neg' (Npos d) e10 = S754_finite neg' m e.
Proof.
  intros H. pose proof (float_of_decimal_rounds neg d e10) as (e0 & mrs & Hc & Hr & Hf).
  pose proof (float_of_decimal_rounds neg' d e10) as (e0' & mrs' & Hc' & Hr' & Hf').
  assert (e0' = e0) as -> by (eapply canon_exp_unique; eassumption).
  assert (mrs' = mrs) as -> by (eapply rec_ok_unique; eassumption).
  rewrite Hf'. rewrite Hf in H. eapply finish_sign. exact H.
Qed.

End FloatOfDecimal.

(** ** Floats: the mantissa rounded *)

Section Finish.
#[local] Open Scope Z_scope.
#[local] Open Scope Q_scope.

Lemma digits2_unique p k :
  (2 ^ (k - 1) <= Zpos p < 2 ^ k)%Z -> (0 < k)%Z -> Zpos (digits2_pos p) = k.
Proof.
  intros [H1 H2] Hk. pose proof (digits2_pos_bounds p) as [H3 H4].
  set (d := Zpos (digits2_pos p)) in *. assert (0 < d)%Z by (unfold d; lia).
  assert (d - 1 < k)%Z by (apply (Z.pow_lt_mono_r_iff 2); lia).
  assert (k - 1 < d)%Z by (apply (Z.pow_lt_mono_r_iff 2); lia).
  lia.
Qed.

Lemma digits2_le p k : (Zpos p < 2 ^ k)%Z -> (0 <= k)%Z -> (Zpos (digits2_pos p) <= k)%Z.
Proof.
  intros H2 Hk. pose proof (digits2_pos_bounds p) as [H3 H4].
  set (d := Zpos (digits2_pos p)) in *. assert (0 < d)%Z by (unfold d; lia).
  assert (d - 1 < k)%Z by (apply (Z.pow_lt_mono_r_iff 2); lia).
  lia.
Qed.

Lemma fexp_in_range e0 p :
  in_range e0 (Zpos p) -> (Zpos p < 2 ^ 53)%Z -> fexp (Zpos (digits2_pos p) + e0) = e0.
Proof.
  intros (He & Hm & Hn) Hlt. rewrite fexp_eq.
  pose proof (digits2_le p 53 Hlt ltac:(lia)) as Hd.
  destruct Hn as [->|Hn]; [lia|].
  rewrite (digits2_unique p 53) by lia. lia.
Qed.

Lemma shr_fexp_exact m e :
  fexp (Zdigits2 m + e) = e ->
  shr_fexp PyFloat.prec PyFloat.emax m e loc_Exact = (shr_record_of_loc m loc_Exact, e).
Proof.
  intros H. unfold shr_fexp. change (SpecFloat.fexp PyFloat.prec PyFloat.emax) with fexp.
  rewrite H, Z.sub_diag. reflexivity.
Qed.

(** What [finish] returns, by the mantissa rounded. *)
Lemma finish_spec sx mrs e0 :
  let m1 := round_nearest_even (shr_m mrs) (loc_of_shr_record mrs) in
  in_range e0 m1 ->
  finish sx mrs e0 =
    if (m1 =? 0)%Z then S754_zero sx
    else if (m1 =? 2 ^ 53)%Z then
      if (e0 + 1 <=? 971)%Z then S754_finite sx (2 ^ 52)%positive (e0 + 1)
      else S754_infinity sx
    else if (e0 <=? 971)%Z then S754_finite sx (Z.to_pos m1) e0 else S754_infinity sx.
Proof.
  intros m1 Hr. unfold finish. fold m1. destruct Hr as (He & Hm & Hn).
  destruct (Z.eqb_spec m1 0) as [->|H0].
  - unfold shr_fexp, shr. cbn [Zdigits2 shr_record_of_loc].
    change (SpecFloat.fexp PyFloat.prec PyFloat.emax) with fexp. rewrite fexp_eq.
    destruct (Z.max (0 + e0 - 53) (-1074) - e0)%Z eqn:E; try reflexivity. lia.
  - destruct (Z.eqb_spec m1 (2 ^ 53)) as [->|H1].
    + unfold shr_fexp, shr.
      change (SpecFloat.fexp PyFloat.prec PyFloat.emax) with fexp. rewrite fexp_eq.
      change (Zdigits2 (2 ^ 53)) with 54%Z.
      replace (Z.max (54 + e0 - 53) (-1074) - e0)%Z with 1%Z by lia.
      cbn [SpecFloat.iter_pos shr_record_of_loc shr_1 shr_m]. reflexivity.
    + destruct m1 as [|p|p] eqn:Em; try lia.
      rewrite shr_fexp_exact.
      * cbn [shr_record_of_loc shr_m Z.to_pos]. reflexivity.
      * cbn [Zdigits2]. apply fexp_in_range; [repeat split; [lia|lia|lia|assumption]|lia].
Qed.

Lemma round_nearest_even_cases m l :
  round_nearest_even m l = m \/ round_nearest_even m l = (m + 1)%Z.
Proof. destruct l as [|[]]; cbn; auto. destruct (Z.even m); auto. Qed.

(** The mantissa at the exponent of the last place is in range. *)
Lemma canon_in_range x e0 mrs :
  canon_exp x e0 -> rec_ok (x / 2 ^ e0) mrs ->
  (shr_m mrs < 2 ^ 53)%Z /\ in_range e0 (shr_m mrs)
  /\ in_range e0 (round_nearest_even (shr_m mrs) (loc_of_shr_record mrs)).
Proof.
  intros Hc (Hm & Hy & _). pose proof (canon_exp_ge _ _ Hc) as He.
  apply unscaled_le in Hy as [H1 H2].
  assert (Hlt : (shr_m mrs < 2 ^ 53)%Z).
  { rewrite Zlt_Qlt, two_pow_inject by lia.
    pose proof (two_pow_pos e0) as Hp.
    apply (proj1 (Qmult_lt_r _ _ (2 ^ e0) Hp)). eapply Qle_lt_trans; [exact H1|].
    rewrite <- two_pow_add.
    destruct Hc as [[Hx ->]|(k & Hk & [_ Hx] & ->)].
    - exact Hx.
    - replace (53 + (k - 53))%Z with k by lia. exact Hx. }
  assert (Hlo : e0 = (-1074)%Z \/ (2 ^ 52 <= shr_m mrs)%Z).
  { destruct Hc as [[Hx ->]|(k & Hk & [Hx _] & ->)]; [left; reflexivity|right].
    assert (2 ^ 52 < shr_m mrs + 1)%Z; [|lia].
    rewrite Zlt_Qlt, inject_Z_plus, two_pow_inject by lia.
    pose proof (two_pow_pos (k - 53)) as Hp.
    apply (proj1 (Qmult_lt_r _ _ (2 ^ (k - 53)) Hp)). eapply Qle_lt_trans; [|exact H2].
    rewrite <- two_pow_add. replace (52 + (k - 53))%Z with (k - 1)%Z by lia. exact Hx. }
  split; [assumption|]. split; [repeat split; try lia; assumption|].
  destruct (round_nearest_even_cases (shr_m mrs) (loc_of_shr_record mrs)) as [->| ->];
    repeat split; try lia; destruct Hlo; auto; right; lia.
Qed.

(** [float(str)] returns binary64 values. *)
Lemma rounds_valid x sx f :
  rounds x sx f -> valid_binary PyFloat.prec PyFloat.emax f = true.
Proof.
  intros (e0 & mrs & Hc & Hr & ->).
  destruct (canon_in_range x e0 mrs Hc Hr) as (_ & _ & Hin).
  rewrite (finish_spec sx mrs e0 Hin).
  set (m1 := round_nearest_even _ _) in *.
  destruct (Z.eqb_spec m1 0); [reflexivity|].
  destruct Hin as (He & Hm & Hn).
  destruct (Z.eqb_spec m1 (2 ^ 53)).
  - destruct (Z.leb_spec (e0 + 1) 971); [|reflexivity].
    cbn [valid_binary]. unfold bounded, canonical_mantissa.
    change (SpecFloat.fexp PyFloat.prec PyFloat.emax) with fexp. rewrite fexp_eq.
    change (Zpos (digits2_pos (2 ^ 52))) with 53%Z.
    apply andb_true_iff. split; [apply Z.eqb_eq; lia|apply Z.leb_le; unfold PyFloat.emax, PyFloat.prec; lia].
  - destruct (Z.leb_spec e0 971); [|reflexivity].
    destruct m1 as [|p|p] eqn:Em; try lia.
    cbn [valid_binary Z.to_pos]. unfold bounded, canonical_mantissa.
    change (SpecFloat.fexp PyFloat.prec PyFloat.emax) with fexp.
    rewrite fexp_in_range by (try lia; repeat split; try lia; assumption).
    apply andb_true_iff. split; [apply Z.eqb_eq; lia|apply Z.leb_le; unfold PyFloat.emax, PyFloat.prec; lia].
Qed.

End Finish.

(** ** Floats: the numbers that round to a value *)

Section Near.
#[local] Open Scope Z_scope.
#[local] Open Scope Q_scope.

Lemma rec_ok_exists y : 0 <= y -> exists mrs, rec_ok y mrs.
Proof.
  intros Hy. set (m := Qfloor y).
  exists {| shr_m := m;
            shr_r := Qle_bool (inject_Z m + (1 # 2)) y;
            shr_s := negb (Qeq_bool y (inject_Z m) || Qeq_bool y (inject_Z m + (1 # 2))) |}.
  unfold rec_ok. cbn [shr_m shr_r shr_s].
  pose proof (Qfloor_le y) as H1. pose proof (Qlt_floor y) as H2. fold m in H1, H2.
  rewrite inject_Z_plus in H2. change (inject_Z 1) with 1 in H2.
  split; [|split; [|split]].
  - change 0%Z with (Qfloor 0). apply Qfloor_resp_le. assumption.
  - lra.
  - apply Qle_bool_iff.
  - rewrite negb_false_iff, orb_true_iff, !Qeq_bool_iff. reflexivity.
Qed.

Lemma rec_ok_floor y mrs m :
  rec_ok y mrs -> inject_Z m <= y < inject_Z m + 1 -> shr_m mrs = m.
Proof.
  intros (_ & Hy & _) Hm.
  assert (inject_Z (shr_m mrs) < inject_Z (m + 1)) as H1
      by (rewrite inject_Z_plus; change (inject_Z 1) with 1; lra).
  assert (inject_Z m < inject_Z (shr_m mrs + 1)) as H2
      by (rewrite inject_Z_plus; change (inject_Z 1) with 1; lra).
  rewrite <- Zlt_Qlt in H1, H2. lia.
Qed.

(** Below the middle of two mantissas the lower is taken, above it the
    upper. *)
Lemma round_low y mrs m :
  rec_ok y mrs -> inject_Z m <= y < inject_Z m + (1 # 2) ->
  round_nearest_even (shr_m mrs) (loc_of_shr_record mrs) = m.
Proof.
  intros Hr Hy. pose proof (rec_ok_floor y mrs m Hr ltac:(lra)) as Hm.
  destruct Hr as (_ & _ & Hb & _). destruct mrs as [m0 r s]. cbn [shr_m shr_r] in *. subst m0.
  destruct r; [exfalso; destruct Hb as [Hb _]; specialize (Hb eq_refl); lra|].
  destruct s; reflexivity.
Qed.

Lemma round_high y mrs m :
  rec_ok y mrs -> inject_Z m - (1 # 2) < y < inject_Z m ->
  round_nearest_even (shr_m mrs) (loc_of_shr_record mrs) = m.
Proof.
  intros Hr Hy.
  assert (E : inject_Z (m - 1) == inject_Z m - 1).
  { unfold Z.sub. rewrite inject_Z_plus. reflexivity. }
  pose proof (rec_ok_floor y mrs (m - 1)%Z Hr ltac:(lra)) as Hm.
  destruct Hr as (_ & _ & Hb & Hs). destruct mrs as [m0 r s]. cbn [shr_m shr_r shr_s] in *.
  subst m0. rewrite E in Hb, Hs.
  destruct r; [|exfalso; destruct Hb as [_ Hb]; specialize (Hb ltac:(lra)); discriminate].
  destruct s; [cbn; lia|].
  exfalso. destruct Hs as [Hs _]. destruct (Hs eq_refl); lra.
Qed.

Lemma bounded_cases m e :
  bounded PyFloat.prec PyFloat.emax m e = true ->
  (e <= 971)%Z /\ (-1074 <= e)%Z /\ (Zpos m < 2 ^ 53)%Z
  /\ (e = (-1074)%Z \/ (2 ^ 52 <= Zpos m)%Z).
Proof.
  unfold bounded, canonical_mantissa. intros [H1 H2]%andb_true_iff.
  apply Z.eqb_eq in H1. apply Z.leb_le in H2.
  change (SpecFloat.fexp PyFloat.prec PyFloat.emax) with fexp in H1. rewrite fexp_eq in H1.
  unfold PyFloat.emax, PyFloat.prec in H2.
  pose proof (digits2_pos_bounds m) as [H3 H4]. set (d := Zpos (digits2_pos m)) in *.
  assert (0 < d)%Z by (unfold d; lia).
  split; [lia|]. split; [lia|].
  assert (Hd : (d <= 53)%Z) by lia.
  split.
  - eapply Z.lt_le_trans; [exact H4|]. apply Z.pow_le_mono_r; lia.
  - destruct (Z.eq_dec e (-1074)%Z); [left; assumption|right].
    assert (d = 53%Z) as Hd53 by lia. rewrite Hd53 in H3. exact H3.
Qed.

Lemma finish_in_range sx mrs e m :
  round_nearest_even (shr_m mrs) (loc_of_shr_record mrs) = Zpos m ->
  (e <= 971)%Z -> (-1074 <= e)%Z -> (Zpos m < 2 ^ 53)%Z ->
  (e = (-1074)%Z \/ (2 ^ 52 <= Zpos m)%Z) ->
  finish sx mrs e = S754_finite sx m e.
Proof.
  intros Hm H1 H2 H3 H4. rewrite finish_spec; rewrite Hm.
  - destruct (Z.eqb_spec (Zpos m) 0); [lia|]. destruct (Z.eqb_spec (Zpos m) (2 ^ 53)); [lia|].
    destruct (Z.leb_spec e 971); [|lia]. reflexivity.
  - repeat split; try lia; assumption.
Qed.

(** A number in the interval of a binary64 value rounds to it. *)
Lemma rounds_near sx m e z :
  bounded PyFloat.prec PyFloat.emax m e = true ->
  (inject_Z (Zpos m) * 2 ^ e <= z /\ z < inject_Z (Zpos m) * 2 ^ e + 2 ^ e * (1 # 2))
  \/ (inject_Z (Zpos m) * 2 ^ e - 2 ^ e * (1 # 2) < z /\ z < inject_Z (Zpos m) * 2 ^ e
      /\ (Zpos m <> 2 ^ 52 \/ e = -1074)%Z)
  \/ (inject_Z (Zpos m) * 2 ^ e - 2 ^ e * (1 # 4) < z /\ z < inject_Z (Zpos m) * 2 ^ e
      /\ (Zpos m = 2 ^ 52 /\ e <> -1074)%Z) ->
  rounds z sx (S754_finite sx m e).
Proof.
  intros Hb Hz. destruct (bounded_cases m e Hb) as (He1 & He2 & Hm1 & Hm2).
  set (M := inject_Z (Zpos m)) in *. pose proof (two_pow_pos e) as Hp. set (h := 2 ^ e) in *.
  assert (HM1 : M + 1 <= 2 ^ 53).
  { unfold M. rewrite <- two_pow_inject by lia. change 1 with (inject_Z 1).
    rewrite <- inject_Z_plus, <- Zle_Qle. lia. }
  assert (HM0 : 1 <= M).
  { unfold M. change 1 with (inject_Z 1). rewrite <- Zle_Qle. lia. }
  assert (HM2 : (2 ^ 52 <= Zpos m)%Z -> 2 ^ 52 <= M).
  { intros H. unfold M. rewrite <- two_pow_inject by lia. rewrite <- Zle_Qle. assumption. }
  assert (Hsame : (M - (1 # 2)) * h < z -> z < (M + (1 # 2)) * h ->
                  (z < M * h -> (Zpos m <> 2 ^ 52 \/ e = -1074)%Z) -> canon_exp z e).
  { intros Hlo Hhi Hnb. destruct (Z.eq_dec e (-1074)%Z) as [E|E].
    - left. split; [|assumption]. eapply Qlt_le_trans; [exact Hhi|].
      replace (-1021)%Z with (53 + e)%Z by lia. rewrite two_pow_add. fold h.
      apply Qmult_le_compat_r; lra.
    - right. exists (53 + e)%Z. split; [lia|]. split; [|lia]. destruct Hm2 as [|Hm2]; [lia|].
      specialize (HM2 Hm2). unfold mag_of. replace (53 + e - 1)%Z with (52 + e)%Z by lia.
      rewrite !two_pow_add. fold h. split.
      + destruct (Qlt_le_dec z (M * h)) as [Hlt|Hge].
        * destruct (Hnb Hlt) as [Hne|]; [|lia].
          assert (2 ^ 52 + 1 <= M).
          { unfold M. rewrite <- two_pow_inject by lia. change 1 with (inject_Z 1).
            rewrite <- inject_Z_plus, <- Zle_Qle. lia. }
          apply Qlt_le_weak. eapply Qle_lt_trans; [|exact Hlo].
          apply Qmult_le_compat_r; lra.
        * eapply Qle_trans; [|exact Hge]. apply Qmult_le_compat_r; lra.
      + eapply Qlt_le_trans; [exact Hhi|]. apply Qmult_le_compat_r; lra. }
  assert (Hzpos : 0 < z).
  { destruct Hz as [[H _]|[(H & _)|(H & _)]].
    - eapply Qlt_le_trans; [|exact H]. apply Qmult_lt_0_compat; lra.
    - eapply Qle_lt_trans; [|exact H].
      setoid_replace (M * h - h * (1 # 2)) with ((M - (1 # 2)) * h) using relation Qeq by ring.
      apply Qmult_le_0_compat; lra.
    - eapply Qle_lt_trans; [|exact H].
      setoid_replace (M * h - h * (1 # 4)) with ((M - (1 # 4)) * h) using relation Qeq by ring.
      apply Qmult_le_0_compat; lra. }
  assert (Hy0 : forall e', 0 <= z / 2 ^ e').
  { intros e'. apply Qle_shift_div_l; [apply two_pow_pos|]. lra. }
  destruct Hz as [[H1 H2]|[(H1 & H2 & Hnb)|(H1 & H2 & Hbd & Hne)]].
  - (* at or above the value *)
    destruct (rec_ok_exists (z / h) (Hy0 e)) as [mrs Hrec].
    exists e, mrs. split; [|split; [assumption|]].
    + apply Hsame; [|lra|]. 
      * eapply Qlt_le_trans; [|exact H1]. apply Qmult_lt_r; lra.
      * intros H. exfalso. lra.
    + symmetry. apply finish_in_range; try assumption.
      apply (round_low (z / h)); [assumption|]. fold M. split.
      * apply Qle_shift_div_l; assumption.
      * apply Qlt_shift_div_r; [assumption|]. lra.
  - (* below the value, in the same binade *)
    destruct (rec_ok_exists (z / h) (Hy0 e)) as [mrs Hrec].
    exists e, mrs. split; [|split; [assumption|]].
    + apply Hsame; [lra|lra|]. intros _. assumption.
    + symmetry. apply finish_in_range; try assumption.
      apply (round_high (z / h)); [assumption|]. fold M. split.
      * apply Qlt_shift_div_l; [assumption|]. lra.
      * apply Qlt_shift_div_r; assumption.
  - (* below the least value of a binade *)
    assert (EM : M == 2 ^ 52).
    { unfold M. rewrite Hbd. rewrite two_pow_inject by lia. reflexivity. }
    assert (Eh : h == 2 * 2 ^ (e - 1)).
    { unfold h. replace e with (1 + (e - 1))%Z at 1 by lia. rewrite two_pow_add. reflexivity. }
    pose proof (two_pow_pos (e - 1)) as Hp'. set (h' := 2 ^ (e - 1)) in *.
    destruct (rec_ok_exists (z / h') (Hy0 (e - 1)%Z)) as [mrs Hrec].
    exists (e - 1)%Z, mrs. split; [|split; [assumption|]].
    + assert (Hmag : mag_of z (52 + e)).
      { unfold mag_of. replace (52 + e - 1)%Z with (52 + (e - 1))%Z by lia.
        replace (52 + e)%Z with (53 + (e - 1))%Z by lia.
        rewrite !two_pow_add. fold h'. rewrite EM, Eh in H1, H2.
        change (2 ^ 53) with (2 * 2 ^ 52). split; [|lra].
        apply Qlt_le_weak. eapply Qle_lt_trans; [|exact H1].
        assert (1 <= 2 ^ 52) by (rewrite <- EM; exact HM0). lra. }
      replace (e - 1)%Z with (fexp (52 + e)) by (rewrite fexp_eq; lia).
      apply canon_exp_of_mag. assumption.
    + symmetry.
      assert (Hr : round_nearest_even (shr_m mrs) (loc_of_shr_record mrs) = (2 ^ 53)%Z).
      { apply (round_high (z / h')); [assumption|].
        rewrite two_pow_inject by lia. change (2 ^ 53) with (2 * 2 ^ 52).
        rewrite EM, Eh in H1, H2. split.
        - apply Qlt_shift_div_l; [assumption|]. lra.
        - apply Qlt_shift_div_r; [assumption|]. lra. }
      rewrite finish_spec; rewrite Hr.
      * cbn [Z.eqb]. replace (e - 1 + 1)%Z with e by lia.
        destruct (Z.leb_spec e 971); [|lia].
        f_equal. apply Pos2Z.inj. rewrite Hbd. reflexivity.
      * repeat split; try lia.
Qed.

End Near.

(** ** Floats: the decimal exponent of [repr] *)

Section Shortest.
#[local] Open Scope Z_scope.
#[local] Open Scope Q_scope.

Lemma pow_ratio b e :
  (0 < b)%Z ->
  inject_Z (b ^ Z.max e 0) / inject_Z (b ^ Z.max (- e) 0) == inject_Z b ^ e.
Proof.
  intros Hb. destruct (Z_le_gt_dec 0 e) as [He|He].
  - rewrite Z.max_l, Z.max_r by lia. rewrite Z.pow_0_r, Zpower_Qpower by assumption.
    change (inject_Z 1) with 1. field.
  - rewrite Z.max_r, Z.max_l by lia. rewrite Z.pow_0_r, Zpower_Qpower by lia.
    replace e with (- - e)%Z at 2 by lia. rewrite (Qpower_opp _ (- e)).
    change (inject_Z 1) with 1. field.
    apply Qpower_not_0. change 0 with (inject_Z 0). rewrite inject_Z_injective. lia.
Qed.

Lemma pow_max_pos b e : (0 < b)%Z -> 0 < inject_Z (b ^ Z.max e 0).
Proof.
  intros Hb. change 0 with (inject_Z 0). rewrite <- Zlt_Qlt.
  apply Z.pow_pos_nonneg; lia.
Qed.

(** [scaled_floor m e s] is the floor of [m * 2^e / 10^s]. *)
Lemma scaled_floor_spec m e s :
  (0 <= PyFloat.scaled_floor m e s)%Z
  /\ inject_Z (PyFloat.scaled_floor m e s) * 10 ^ s <= binary_value m e
  /\ binary_value m e < (inject_Z (PyFloat.scaled_floor m e s) + 1) * 10 ^ s.
Proof.
  unfold PyFloat.scaled_floor, binary_value.
  set (a := (2 ^ Z.max e 0)%Z). set (b := (2 ^ Z.max (- e) 0)%Z).
  set (c := (10 ^ Z.max (- s) 0)%Z). set (d := (10 ^ Z.max s 0)%Z).
  pose proof (pow_max_pos 2 e ltac:(lia)) as Ha. pose proof (pow_max_pos 2 (- e) ltac:(lia)) as Hb.
  pose proof (pow_max_pos 10 (- s) ltac:(lia)) as Hc. pose proof (pow_max_pos 10 s ltac:(lia)) as Hd.
  fold a in Ha. fold b in Hb. fold c in Hc. fold d in Hd.
  pose proof (pow_ratio 2 e ltac:(lia)) as E2. fold a b in E2.
  pose proof (pow_ratio 10 s ltac:(lia)) as E10. fold d in E10.
  replace (- s)%Z with (- s)%Z in E10 by reflexivity. fold c in E10.
  change (inject_Z 2) with 2 in E2. change (inject_Z 10) with 10 in E10.
  rewrite <- E2, <- E10.
  set (num := (Zpos m * a * c)%Z). set (den := (b * d)%Z).
  assert (Hden : (0 < den)%Z).
  { unfold den. change 0 with (inject_Z 0) in Hb, Hd. rewrite <- Zlt_Qlt in Hb, Hd. lia. }
  assert (Hnum : (0 <= num)%Z).
  { unfold num. change 0 with (inject_Z 0) in Ha, Hc. rewrite <- Zlt_Qlt in Ha, Hc. nia. }
  set (q := (num / den)%Z).
  assert (Hq0 : (0 <= q)%Z) by (apply Z.div_pos; lia).
  assert (Hlo : (den * q <= num)%Z) by (apply Z.mul_div_le; lia).
  assert (Hhi : (num < den * (q + 1))%Z).
  { pose proof (Z.mul_succ_div_gt num den Hden). unfold q. lia. }
  rewrite Zle_Qle in Hlo. rewrite Zlt_Qlt in Hhi. unfold num, den in Hlo, Hhi.
  rewrite !inject_Z_mult in Hlo, Hhi. rewrite inject_Z_plus in Hhi.
  change (inject_Z 1) with 1 in Hhi.
  set (A := inject_Z a) in *. set (B := inject_Z b) in *.
  set (C := inject_Z c) in *. set (D := inject_Z d) in *.
  set (M := inject_Z (Zpos m)) in *. set (Qq := inject_Z q) in *.
  assert (HBC : 0 < B * C) by (apply Qmult_lt_0_compat; assumption).
  split; [assumption|]. split.
  - apply (proj1 (Qmult_le_r _ _ (B * C) HBC)).
    setoid_replace (Qq * (D / C) * (B * C)) with (B * D * Qq) using relation Qeq by (field; lra).
    setoid_replace (M * (A / B) * (B * C)) with (M * A * C) using relation Qeq by (field; lra).
    assumption.
  - apply (proj1 (Qmult_lt_r _ _ (B * C) HBC)).
    setoid_replace ((Qq + 1) * (D / C) * (B * C)) with (B * D * (Qq + 1)) using relation Qeq
      by (field; lra).
    setoid_replace (M * (A / B) * (B * C)) with (M * A * C) using relation Qeq by (field; lra).
    assumption.
Qed.

Lemma binary_value_pos m e : 0 < binary_value m e.
Proof. apply Qmult_lt_0_compat; [apply inject_Z_pos|apply two_pow_pos]. Qed.

(** *** The decimal exponent *)

Lemma decimal_exponent_from_spec fuel m e k0 :
  (1 <= PyFloat.scaled_floor m e (PyFloat.decimal_exponent_from fuel m e k0))%Z
  \/ PyFloat.decimal_exponent_from fuel m e k0 = (k0 - Z.of_nat fuel)%Z.
Proof.
  revert k0. induction fuel as [|fuel IH]; intros k0; cbn [PyFloat.decimal_exponent_from].
  - right. lia.
  - destruct (Z.leb_spec 1 (PyFloat.scaled_floor m e k0)) as [H|H]; [left; assumption|].
    destruct (IH (k0 - 1)%Z) as [H'|H']; [left; assumption|right]. lia.
Qed.

Lemma least_value_decimal : 10 ^ (-400) <= 2 ^ (-1074).
Proof.
  change (-400)%Z with (Z.opp 400). change (-1074)%Z with (Z.opp 1074). rewrite !Qpower_opp.
  pose proof (two_pow_pos 1074). pose proof (ten_pow_pos 400).
  apply Qle_shift_inv_l; [assumption|].
  apply (proj1 (Qmult_le_r _ _ (10 ^ 400) ltac:(assumption))).
  setoid_replace (/ 10 ^ 400 * 2 ^ 1074 * 10 ^ 400) with (2 ^ 1074) using relation Qeq
    by (field; lra).
  rewrite Qmult_1_l. rewrite <- two_pow_inject, <- ten_pow_inject by lia.
  rewrite <- Zle_Qle. apply Z.leb_le. vm_compute. reflexivity.
Qed.

(** The decimal exponent that [repr] starts from is not above the value. *)
Lemma decimal_exponent_le m e :
  (-1074 <= e)%Z -> 10 ^ PyFloat.decimal_exponent m e <= binary_value m e.
Proof.
  intros He. unfold PyFloat.decimal_exponent.
  set (upper := (Z.max 0 (Zpos (digits2_pos m) + e) + 1)%Z).
  destruct (decimal_exponent_from_spec (Z.to_nat (upper + 400)) m e upper) as [H| ->].
  - set (k := PyFloat.decimal_exponent_from _ m e upper) in *.
    destruct (scaled_floor_spec m e k) as (_ & Hlo & _).
    eapply Qle_trans; [|exact Hlo]. rewrite Zle_Qle in H. change (inject_Z 1) with 1 in H.
    pose proof (ten_pow_pos k).
    setoid_replace (10 ^ k) with (1 * 10 ^ k) using relation Qeq at 1 by ring.
    apply Qmult_le_compat_r; lra.
  - rewrite Z2Nat.id by (unfold upper; lia).
    replace (upper - (upper + 400))%Z with (-400)%Z by lia.
    eapply Qle_trans; [exact least_value_decimal|].
    eapply Qle_trans; [apply (two_pow_le (-1074) e He)|].
    unfold binary_value. pose proof (two_pow_pos e).
    setoid_replace (2 ^ e) with (1 * 2 ^ e) using relation Qeq at 1 by ring.
    apply Qmult_le_compat_r; [|lra].
    change 1 with (inject_Z 1). rewrite <- Zle_Qle. lia.
Qed.

End Shortest.

(** ** Floats: the digits of [repr] *)

Section Candidates.
#[local] Open Scope Z_scope.
#[local] Open Scope Q_scope.

(** A decimal in the interval of a binary64 value reads as that value. *)
Lemma float_of_decimal_near m e d s :
  bounded PyFloat.prec PyFloat.emax m e = true ->
  (binary_value m e <= decimal_value d s
   /\ decimal_value d s < binary_value m e + 2 ^ e * (1 # 2))
  \/ (binary_value m e - 2 ^ e * (1 # 2) < decimal_value d s
      /\ decimal_value d s < binary_value m e
      /\ (Zpos m <> 2 ^ 52 \/ e = -1074)%Z)
  \/ (binary_value m e - 2 ^ e * (1 # 4) < decimal_value d s
      /\ decimal_value d s < binary_value m e
      /\ (Zpos m = 2 ^ 52 /\ e <> -1074)%Z) ->
  PyFloat.float_of_decimal false (Npos d) s = S754_finite false m e.
Proof.
  intros Hb Hz. apply (rounds_unique (decimal_value d s) false).
  - apply float_of_decimal_rounds.
  - apply rounds_near; assumption.
Qed.

(** With 17 digits, the decimal below the value or the one above reads
    back. *)
Lemma seventeen_digits m e k :
  bounded PyFloat.prec PyFloat.emax m e = true ->
  10 ^ k <= binary_value m e ->
  let lo := PyFloat.scaled_floor m e (k - 16) in
  PyFloat.float_of_decimal false (Z.to_N lo) (k - 16) = S754_finite false m e
  \/ PyFloat.float_of_decimal false (Z.to_N (lo + 1)) (k - 16) = S754_finite false m e.
Proof.
  intros Hb Hk lo. destruct (bounded_cases m e Hb) as (He1 & He2 & Hm1 & Hm2).
  destruct (scaled_floor_spec m e (k - 16)) as (Hlo0 & Hlo & Hhi). fold lo in Hlo0, Hlo, Hhi.
  pose proof (ten_pow_pos (k - 16)) as Ht. set (t := 10 ^ (k - 16)) in *.
  pose proof (two_pow_pos e) as Hh.
  assert (Ek : 10 ^ k == t * 10000000000000000).
  { replace k with ((k - 16) + 16)%Z at 1 by lia. rewrite ten_pow_add. reflexivity. }
  rewrite Ek in Hk.
  assert (HM : inject_Z (Zpos m) + 1 <= 9007199254740992).
  { change 1 with (inject_Z 1). rewrite <- inject_Z_plus.
    change 9007199254740992 with (inject_Z (2 ^ 53)). rewrite <- Zle_Qle. lia. }
  assert (Hx : binary_value m e <= 9007199254740991 * 2 ^ e).
  { unfold binary_value. apply Qmult_le_compat_r; lra. }
  assert (Hpos : (0 < lo)%Z).
  { destruct (Z_lt_le_dec 0 lo) as [H|H]; [assumption|exfalso].
    assert (inject_Z lo <= 0) by (change 0 with (inject_Z 0); rewrite <- Zle_Qle; assumption).
    assert ((inject_Z lo + 1) * t <= 1 * t) by (apply Qmult_le_compat_r; lra).
    lra. }
  destruct lo as [|plo|plo] eqn:Elo; try lia.
  assert (Ehi : Z.to_N (Zpos plo + 1) = Npos (plo + 1)) by reflexivity.
  rewrite Ehi. cbn [Z.to_N].
  assert (Evhi : decimal_value (plo + 1) (k - 16) == inject_Z (Zpos plo) * t + t).
  { unfold decimal_value. rewrite Pos2Z.inj_add, inject_Z_plus. fold t.
    change (inject_Z 1) with 1. ring. }
  assert (Evlo : decimal_value plo (k - 16) == inject_Z (Zpos plo) * t) by reflexivity.
  set (L := inject_Z (Zpos plo)) in *. set (x := binary_value m e) in *. set (h := 2 ^ e) in *.
  assert (Hhi' : x < L * t + t) by lra.
  destruct (Z.eq_dec (Zpos m) (2 ^ 52)%Z) as [Em|Em];
    [destruct (Z.eq_dec e (-1074)%Z) as [Ee|Ee]|].
  - (* the least exponent *)
    destruct (Qlt_le_dec (x - L * t) (h * (1 # 2))) as [Hd|Hd].
    + left. apply float_of_decimal_near; [assumption|]. fold x h. rewrite Evlo.
      destruct (Qlt_le_dec (L * t) x) as [Hlt|Hge].
      * right. left. split; [lra|]. split; [lra|]. right. assumption.
      * left. split; lra.
    + right. apply float_of_decimal_near; [assumption|]. fold x h. rewrite Evhi.
      left. split; lra.
  - (* the least mantissa of a binade *)
    assert (Hx' : x == 4503599627370496 * h).
    { unfold x, binary_value. rewrite Em. reflexivity. }
    destruct (Qlt_le_dec (x - L * t) (h * (1 # 4))) as [Hd|Hd].
    + left. apply float_of_decimal_near; [assumption|]. fold x h. rewrite Evlo.
      destruct (Qlt_le_dec (L * t) x) as [Hlt|Hge].
      * right. right. split; [lra|]. split; [lra|]. split; assumption.
      * left. split; lra.
    + right. apply float_of_decimal_near; [assumption|]. fold x h. rewrite Evhi.
      left. split; lra.
  - destruct (Qlt_le_dec (x - L * t) (h * (1 # 2))) as [Hd|Hd].
    + left. apply float_of_decimal_near; [assumption|]. fold x h. rewrite Evlo.
      destruct (Qlt_le_dec (L * t) x) as [Hlt|Hge].
      * right. left. split; [lra|]. split; [lra|]. left. assumption.
      * left. split; lra.
    + right. apply float_of_decimal_near; [assumption|]. fold x h. rewrite Evhi.
      left. split; lra.
Qed.

Lemma candidate_sound m e k p d s :
  PyFloat.candidate m e k p = Some (d, s) ->
  PyFloat.float_of_decimal false (Z.to_N d) s = S754_finite false m e.
Proof.
  unfold PyFloat.candidate. cbv zeta.
  destruct (bool_decide _) eqn:Hlo; destruct (bool_decide _) eqn:Hhi in |- *.
  - apply bool_decide_eq_true in Hlo, Hhi.
    destruct (PyFloat.scaled_compare_half _ _ _ _); [destruct (Z.even _)| |];
      intros [= <- <-]; assumption.
  - apply bool_decide_eq_true in Hlo. intros [= <- <-]. assumption.
  - apply bool_decide_eq_true in Hhi. intros [= <- <-]. assumption.
  - discriminate.
Qed.

Lemma candidate_seventeen m e :
  bounded PyFloat.prec PyFloat.emax m e = true ->
  PyFloat.candidate m e (PyFloat.decimal_exponent m e) 17 <> None.
Proof.
  intros Hb. destruct (bounded_cases m e Hb) as (_ & He & _).
  pose proof (seventeen_digits m e _ Hb (decimal_exponent_le m e He)) as H.
  cbv zeta in H. unfold PyFloat.candidate. cbv zeta.
  set (k := PyFloat.decimal_exponent m e) in *.
  replace (k - Zpos 17 + 1)%Z with (k - 16)%Z by lia.
  destruct H as [H|H].
  - rewrite (bool_decide_eq_true_2 _ H). destruct (bool_decide _); [|discriminate].
    destruct (PyFloat.scaled_compare_half _ _ _ _); discriminate.
  - rewrite (bool_decide_eq_true_2 _ H). destruct (bool_decide _); [|discriminate].
    destruct (PyFloat.scaled_compare_half _ _ _ _); discriminate.
Qed.

(** The digits that [repr] chooses read back as the float. *)
Lemma shortest_from_sound m e k fuel :
  PyFloat.candidate m e k 17 <> None ->
  forall p d s, (Pos.to_nat p + fuel = 18)%nat -> (1 <= fuel)%nat ->
  PyFloat.shortest_from fuel m e k p = (d, s) ->
  PyFloat.float_of_decimal false (Z.to_N d) s = S754_finite false m e.
Proof.
  intros H17. induction fuel as [|fuel IH]; intros p d s Hp Hf; [lia|].
  cbn [PyFloat.shortest_from].
  destruct (PyFloat.candidate m e k p) as [[d' s']|] eqn:Hc.
  - intros [= <- <-]. eapply candidate_sound. exact Hc.
  - destruct fuel as [|fuel'].
    + exfalso. assert (p = 17%positive) as -> by lia. contradiction.
    + apply IH; lia.
Qed.

Lemma strip_zeros_spec fuel : forall d s d' s',
  (0 < d)%Z -> PyFloat.strip_zeros fuel d s = (d', s') ->
  (0 < d')%Z /\ inject_Z d' * 10 ^ s' == inject_Z d * 10 ^ s.
Proof.
  induction fuel as [|fuel IH]; intros d s d' s' Hd; cbn [PyFloat.strip_zeros].
  - intros [= <- <-]. split; [assumption|reflexivity].
  - destruct ((d mod 10 =? 0)%Z && (0 <? d)%Z) eqn:Hz.
    + apply andb_true_iff in Hz as [Hz _]. apply Z.eqb_eq in Hz.
      assert (Ed : d = (10 * (d / 10))%Z).
      { pose proof (Z.div_mod d 10 ltac:(lia)). lia. }
      intros H. apply IH in H; [|lia]. destruct H as [H1 H2]. split; [assumption|].
      rewrite H2. rewrite Ed at 2. rewrite inject_Z_mult, ten_pow_add.
      change (inject_Z 10) with 10. change (10 ^ 1) with 10. ring.
    + intros [= <- <-]. split; [assumption|reflexivity].
Qed.

(** The digits and the decimal point of [repr]: the digits are those of a
    positive number [d], and [d * 10^(decpt - length ds)] reads back as
    the float. *)
Lemma shortest_digits_spec m e ds decpt :
  bounded PyFloat.prec PyFloat.emax m e = true ->
  PyFloat.shortest_digits m e = (ds, decpt) ->
  exists d : positive,
    ds = str_of_N (Npos d)
    /\ forall neg d' s',
         decimal_value d' s' == decimal_value d (decpt - Z.of_nat (length ds)) ->
         PyFloat.float_of_decimal neg (Npos d') s' = S754_finite neg m e.
Proof.
  intros Hb. unfold PyFloat.shortest_digits.
  destruct (PyFloat.shortest_from 17 m e (PyFloat.decimal_exponent m e) 1) as [d0 s0] eqn:Hs.
  pose proof (shortest_from_sound m e _ 17 (candidate_seventeen m e Hb) 1%positive d0 s0
                ltac:(reflexivity) ltac:(lia) Hs) as Hd0.
  assert (Hpos : (0 < d0)%Z).
  { destruct d0 as [|p|p]; [discriminate| lia |discriminate]. }
  destruct (PyFloat.strip_zeros 17 d0 s0) as [d1 s1] eqn:Hz.
  destruct (strip_zeros_spec 17 d0 s0 d1 s1 Hpos Hz) as [Hd1 Ev].
  intros [= <- <-]. destruct d1 as [|d|d]; try lia. destruct d0 as [|p0|p0]; try lia.
  exists d. cbn [Z.to_N]. split; [reflexivity|].
  intros neg d' s' E. apply (float_of_decimal_sign false).
  rewrite <- Hd0. cbn [Z.to_N]. apply float_of_decimal_ext.
  rewrite E. unfold decimal_value. rewrite <- Ev. 
  replace (Z.of_nat (length (str_of_N (N.pos d))) + s1 - Z.of_nat (length (str_of_N (N.pos d))))%Z
    with s1 by lia.
  reflexivity.
Qed.

End Candidates.

(** ** Floats: the groups of a number *)

Section NumberText.
#[local] Open Scope N_scope.

Lemma span_digits_run ds rest :
  all_digits ds -> no_digit_head rest -> span_digits (ds ++ rest) = (ds, rest).
Proof.
  intros Hds Hrest.
  apply (span_digits_app ds ds [] rest); [apply span_digits_all; assumption|].
  right. exact Hrest.
Qed.

Lemma digit_not_minus c : is_digit c = true -> (c =? Ch.minus) = false.
Proof. intros H%is_digit_iff. apply N.eqb_neq. unfold Ch.minus. lia. Qed.

(** The integer group: a zero, or a digit from 1 to 9 and digits. *)
Lemma match_integer_zero neg rest :
  match_integer (sign_text neg ++ Ch.zero :: rest) = Some (sign_text neg ++ [Ch.zero], rest).
Proof. destruct neg; reflexivity. Qed.

Lemma match_integer_run neg c r rest :
  49 <= c <= 57 -> all_digits r -> no_digit_head rest ->
  match_integer (sign_text neg ++ c :: r ++ rest) = Some (sign_text neg ++ c :: r, rest).
Proof.
  intros Hc Hr Hrest.
  assert (Hz : (c =? Ch.zero) = false) by (apply N.eqb_neq; unfold Ch.zero; lia).
  assert (Hd : is_digit c = true) by (apply is_digit_iff; lia).
  assert (Hm : (c =? Ch.minus) = false) by (apply digit_not_minus; assumption).
  destruct neg; cbn [sign_text app]; unfold match_integer.
  - change (Ch.minus =? Ch.minus) with true. cbv iota. rewrite Hz, Hd.
    rewrite span_digits_run by assumption. reflexivity.
  - rewrite Hm. rewrite Hz, Hd. rewrite span_digits_run by assumption. reflexivity.
Qed.

Lemma match_frac_run fd rest :
  fd <> [] -> all_digits fd -> no_digit_head rest ->
  match_frac (Ch.dot :: fd ++ rest) = (Ch.dot :: fd, rest).
Proof.
  intros Hne Hfd Hrest. unfold match_frac. change (Ch.dot =? Ch.dot) with true. cbv iota.
  rewrite span_digits_run by assumption. destruct fd; [contradiction|reflexivity].
Qed.

Lemma match_frac_none s :
  match s with c :: _ => c <> Ch.dot | [] => True end -> match_frac s = ([], s).
Proof.
  destruct s as [|c r]; [reflexivity|]. intros H. unfold match_frac.
  apply N.eqb_neq in H. rewrite H. reflexivity.
Qed.

Lemma match_exp_run sg xd :
  sg = Ch.minus \/ sg = Ch.plus -> xd <> [] -> all_digits xd ->
  match_exp (101 :: sg :: xd) = (101 :: sg :: xd, []).
Proof.
  intros Hsg Hne Hxd. unfold match_exp. change (101 =? 101) with true. cbn [orb].
  assert (Hs : (sg =? Ch.minus) || (sg =? Ch.plus) = true).
  { destruct Hsg as [-> | ->]; reflexivity. }
  rewrite Hs. pose proof (span_digits_run xd [] Hxd I) as Hsp. rewrite app_nil_r in Hsp.
  rewrite Hsp. destruct xd; [contradiction|reflexivity].
Qed.

(** *** The value of digits *)

Lemma digits_value_fold s acc :
  fold_left (fun a c => a * 10 + (c - 48)) s acc
  = acc * 10 ^ N.of_nat (length s) + digits_value s.
Proof.
  unfold digits_value. revert acc. induction s as [|c s IH]; intros acc.
  - cbn. lia.
  - cbn [fold_left length]. rewrite IH, (IH (0 * 10 + (c - 48))).
    rewrite Nat2N.inj_succ, N.pow_succ_r by lia. lia.
Qed.

Lemma digits_value_app a b :
  digits_value (a ++ b) = digits_value a * 10 ^ N.of_nat (length b) + digits_value b.
Proof. unfold digits_value at 1. rewrite fold_left_app. apply digits_value_fold. Qed.

Lemma digits_value_zeros n : digits_value (PyFloat.zeros n) = 0.
Proof.
  unfold PyFloat.zeros. induction (Z.to_nat n) as [|k IH]; [reflexivity|].
  change (repeat Ch.zero (S k)) with ([Ch.zero] ++ repeat Ch.zero k).
  rewrite digits_value_app, IH. reflexivity.
Qed.

Lemma all_digits_zeros n : all_digits (PyFloat.zeros n).
Proof.
  unfold PyFloat.zeros, all_digits. apply Forall_forall. intros c Hc.
  apply list_elem_of_In, repeat_spec in Hc. subst c. reflexivity.
Qed.

Lemma length_zeros n : length (PyFloat.zeros n) = Z.to_nat n.
Proof. apply repeat_length. Qed.

Lemma all_digits_str_of_N n : all_digits (str_of_N n).
Proof.
  eapply Forall_impl; [apply str_of_N_digits|]. intros c Hc. apply is_digit_iff. exact Hc.
Qed.

(** The digits of a positive number start with a digit from 1 to 9. *)
Lemma str_of_pos_shape d :
  exists c r, str_of_N (Npos d) = c :: r /\ 49 <= c <= 57 /\ all_digits r.
Proof.
  destruct (str_of_N_shape (Npos d)) as [H|H]; [|exact H].
  exfalso. pose proof (digits_value_str_of_N (Npos d)) as E. rewrite H in E. discriminate.
Qed.

End NumberText.

(** ** Floats: the layouts of [repr] *)

Section Layouts.
#[local] Open Scope N_scope.

Lemma digits_of_str d : digits_of d (str_of_N (Npos d)).
Proof.
  destruct (str_of_pos_shape d) as (c & r & Hds & Hc & Hr).
  exists c, r. split; [assumption|]. split; [assumption|]. split; [assumption|].
  apply digits_value_str_of_N.
Qed.

Lemma digits_of_all d ds : digits_of d ds -> all_digits ds.
Proof.
  intros (c & r & -> & Hc & Hr & _). constructor; [apply is_digit_iff; lia|assumption].
Qed.

Lemma parse_float_parts neg c r fpart xpart :
  is_digit c = true ->
  PyFloat.parse_float (sign_text neg ++ c :: r) fpart xpart
  = PyFloat.float_of_decimal neg (digits_value ((c :: r) ++ tail fpart))
      (exp_value xpart - Z.of_nat (length (tail fpart))).
Proof.
  intros Hc. pose proof (digit_not_minus c Hc) as Hm.
  unfold PyFloat.parse_float, exp_value. destruct neg; cbn [sign_text app].
  - change (Ch.minus =? Ch.minus) with true. reflexivity.
  - rewrite Hm. reflexivity.
Qed.

Lemma match_number_parts s i r1 fr r2 x :
  match_integer s = Some (i, r1) -> match_frac r1 = (fr, r2) -> match_exp r2 = (x, []) ->
  match_number s = Some (i, fr, x, []).
Proof. intros H1 H2 H3. unfold match_number. rewrite H1, H2, H3. reflexivity. Qed.

Lemma match_exp_nil : match_exp [] = ([], []).
Proof. reflexivity. Qed.

(** Positional notation with the point before the digits. *)
Lemma reads_small neg d decpt ds :
  digits_of d ds -> (decpt <= 0)%Z ->
  reads_decimal neg (sign_text neg ++ T "0." ++ PyFloat.zeros (- decpt) ++ ds) d
    (decpt - Z.of_nat (length ds)).
Proof.
  intros Eds Hd. pose proof Eds as (c & r & Hds & Hc & Hr & Hval).
  assert (Hall : all_digits (PyFloat.zeros (- decpt) ++ ds)).
  { apply Forall_app. split; [apply all_digits_zeros|eapply digits_of_all; eassumption]. }
  assert (Hne : PyFloat.zeros (- decpt) ++ ds <> []).
  { rewrite Hds. destruct (PyFloat.zeros (- decpt)); discriminate. }
  exists (sign_text neg ++ [Ch.zero]), (Ch.dot :: PyFloat.zeros (- decpt) ++ ds), [], d,
    (decpt - Z.of_nat (length ds))%Z.
  split; [|split; [left; discriminate|split; [|reflexivity]]].
  - change (T "0.") with [Ch.zero; Ch.dot]. cbn [app].
    eapply match_number_parts.
    + apply match_integer_zero.
    + pose proof (match_frac_run _ [] Hne Hall I) as H. rewrite app_nil_r in H. exact H.
    + reflexivity.
  - rewrite (parse_float_parts neg Ch.zero []) by reflexivity. cbn [tail].
    f_equal.
    + change ([Ch.zero] ++ PyFloat.zeros (- decpt) ++ ds)
        with ([Ch.zero] ++ (PyFloat.zeros (- decpt) ++ ds)).
      rewrite !digits_value_app, digits_value_zeros, Hval. reflexivity.
    + unfold exp_value. cbn [tail]. rewrite length_app, length_zeros. lia.
Qed.

(** Positional notation with the point among the digits. *)
Lemma reads_middle neg d decpt ds :
  digits_of d ds -> (0 < decpt < Z.of_nat (length ds))%Z ->
  reads_decimal neg
    (sign_text neg ++ take (Z.to_nat decpt) ds ++ Ch.dot :: drop (Z.to_nat decpt) ds) d
    (decpt - Z.of_nat (length ds)).
Proof.
  intros Eds Hd. pose proof Eds as (c & r & Hds & Hc & Hr & Hval).
  set (k := Z.to_nat decpt) in *.
  assert (Hk : (0 < k < length ds)%nat) by (unfold k; lia).
  assert (Hall : all_digits ds) by (eapply digits_of_all; eassumption).
  destruct k as [|k'] eqn:Ek; [lia|].
  assert (Htake : take (S k') ds = c :: take k' r) by (rewrite Hds; reflexivity).
  assert (Hdrop : drop (S k') ds <> []).
  { intros H. apply (f_equal length) in H. rewrite length_drop in H. cbn in H. lia. }
  assert (Hdd : all_digits (drop (S k') ds)) by (apply Forall_drop; assumption).
  assert (Htd : all_digits (take k' r)) by (apply Forall_take; assumption).
  exists (sign_text neg ++ take (S k') ds), (Ch.dot :: drop (S k') ds), [], d,
    (decpt - Z.of_nat (length ds))%Z.
  split; [|split; [left; discriminate|split; [|reflexivity]]].
  - eapply match_number_parts.
    + rewrite Htake. cbn [app]. apply match_integer_run; [assumption|assumption|reflexivity].
    + pose proof (match_frac_run _ [] Hdrop Hdd I) as H. rewrite app_nil_r in H. exact H.
    + reflexivity.
  - rewrite Htake. rewrite (parse_float_parts neg c (take k' r)) by (apply is_digit_iff; lia).
    rewrite <- Htake. cbn [tail]. rewrite take_drop, Hval. f_equal.
    unfold exp_value. cbn [tail]. rewrite length_drop. lia.
Qed.

Lemma shifted_decimal d z :
  (0 <= z)%Z ->
  exists d',
    (Npos d * 10 ^ N.of_nat (Z.to_nat z) + 0) * 10 ^ N.of_nat 1 + 0 = Npos d'
    /\ (decimal_value d' (-1) == decimal_value d z)%Q.
Proof.
  intros Hz. set (V := (Npos d * 10 ^ N.of_nat (Z.to_nat z) + 0) * 10 ^ N.of_nat 1 + 0).
  assert (HV : Z.of_N V = (Zpos d * 10 ^ z * 10)%Z).
  { unfold V. rewrite !N.add_0_r, !N2Z.inj_mul, !N2Z.inj_pow, !nat_N_Z, Z2Nat.id by lia.
    reflexivity. }
  assert (Hp : (0 < 10 ^ z)%Z) by (apply Z.pow_pos_nonneg; lia).
  destruct V as [|d']; [cbn in HV; lia|]. exists d'. split; [reflexivity|].
  unfold decimal_value. change (Zpos d') with (Z.of_N (Npos d')). rewrite HV.
  rewrite !inject_Z_mult, ten_pow_inject by assumption.
  change (inject_Z 10) with 10%Q. change (10 ^ (-1))%Q with (1 # 10)%Q. ring.
Qed.

(** Positional notation with the point after the digits. *)
Lemma reads_large neg d decpt ds :
  digits_of d ds -> (Z.of_nat (length ds) <= decpt)%Z ->
  reads_decimal neg
    (sign_text neg ++ ds ++ PyFloat.zeros (decpt - Z.of_nat (length ds)) ++ T ".0") d
    (decpt - Z.of_nat (length ds)).
Proof.
  intros Eds Hd. pose proof Eds as (c & r & Hds & Hc & Hr & Hval).
  set (z := (decpt - Z.of_nat (length ds))%Z) in *.
  assert (Hall : all_digits (r ++ PyFloat.zeros z)).
  { apply Forall_app. split; [assumption|apply all_digits_zeros]. }
  destruct (shifted_decimal d z ltac:(lia)) as (d' & Hd' & Ev).
  exists (sign_text neg ++ c :: r ++ PyFloat.zeros z), [Ch.dot; Ch.zero], [], d', (-1)%Z.
  split; [|split; [left; discriminate|split; [|exact Ev]]].
  - change (T ".0") with [Ch.dot; Ch.zero]. rewrite Hds. cbn [app].
    eapply match_number_parts.
    + rewrite (app_assoc r). apply match_integer_run; [assumption|assumption|reflexivity].
    + apply (match_frac_run [Ch.zero] []); [discriminate|repeat constructor|exact I].
    + reflexivity.
  - rewrite (parse_float_parts neg c _) by (apply is_digit_iff; lia). cbn [tail length].
    f_equal. rewrite app_comm_cons, <- Hds.
    rewrite !digits_value_app, digits_value_zeros, Hval, length_zeros. cbn [length].
    exact Hd'.
Qed.

End Layouts.

(** ** Floats: [repr] reads back *)

Section Repr.
#[local] Open Scope N_scope.

Lemma str_of_N_nonempty n : str_of_N n <> [].
Proof.
  destruct (str_of_N_shape n) as [H|(c & r & H & _)]; rewrite H; discriminate.
Qed.

(** Exponent notation. *)
Lemma reads_exponent neg d decpt ds :
  digits_of d ds ->
  let n := Z.of_nat (length ds) in
  let x := (decpt - 1)%Z in
  let xs := str_of_N (Z.to_N (Z.abs x)) in
  reads_decimal neg
    (sign_text neg ++ take 1 ds ++ (if (1 <? n)%Z then Ch.dot :: drop 1 ds else [])
       ++ T "e" ++ [if (x <? 0)%Z then Ch.minus else Ch.plus]
       ++ (if (Z.abs x <? 10)%Z then Ch.zero :: xs else xs))
    d (decpt - Z.of_nat (length ds)).
Proof.
  intros Eds n x xs. pose proof Eds as (c & r & Hds & Hc & Hr & Hval).
  set (xd := if (Z.abs x <? 10)%Z then Ch.zero :: xs else xs).
  set (sg := if (x <? 0)%Z then Ch.minus else Ch.plus).
  assert (Hxd : all_digits xd).
  { unfold xd. destruct (Z.abs x <? 10)%Z; [constructor; [reflexivity|]|];
      apply all_digits_str_of_N. }
  assert (Hxne : xd <> []).
  { unfold xd. destruct (Z.abs x <? 10)%Z; [discriminate|apply str_of_N_nonempty]. }
  assert (Hxv : digits_value xd = Z.to_N (Z.abs x)).
  { unfold xd. destruct (Z.abs x <? 10)%Z.
    - change (Ch.zero :: xs) with ([Ch.zero] ++ xs). rewrite digits_value_app.
      unfold xs. rewrite digits_value_str_of_N. reflexivity.
    - apply digits_value_str_of_N. }
  assert (Hsg : sg = Ch.minus \/ sg = Ch.plus).
  { unfold sg. destruct (x <? 0)%Z; auto. }
  assert (Hexp : exp_value (101 :: sg :: xd) = x).
  { unfold exp_value. cbn [tail]. rewrite Hxv. unfold sg.
    destruct (Z.ltb_spec x 0).
    - change (Ch.minus =? Ch.minus) with true. cbv iota. lia.
    - change (Ch.plus =? Ch.minus) with false. change (Ch.plus =? Ch.plus) with true.
      cbv iota. lia. }
  assert (Hd1 : is_digit c = true) by (apply is_digit_iff; lia).
  change (T "e") with [101]. rewrite Hds. cbn [take drop app].
  fold sg xd. subst n. rewrite Hds. cbn [length].
  destruct r as [|c2 r'].
  - (* one digit *)
    change (1 <? Z.of_nat 1)%Z with false. cbv iota. cbn [app].
    exists (sign_text neg ++ [c]), [], (101 :: sg :: xd), d, (decpt - 1)%Z.
    split; [|split; [right; discriminate|split; [|reflexivity]]].
    + eapply match_number_parts.
      * apply (match_integer_run neg c []); [assumption|constructor|reflexivity].
      * apply match_frac_none. discriminate.
      * apply match_exp_run; assumption.
    + rewrite (parse_float_parts neg c []) by assumption. cbn [tail length app].
      rewrite Hds in Hval. rewrite Hval, Hexp. f_equal. lia.
  - assert (H1 : (1 <? Z.of_nat (S (length (c2 :: r'))))%Z = true).
    { apply Z.ltb_lt. cbn [length]. lia. }
    rewrite H1.
    exists (sign_text neg ++ [c]), (Ch.dot :: c2 :: r'), (101 :: sg :: xd), d,
      (decpt - Z.of_nat (S (length (c2 :: r'))))%Z.
    split; [|split; [right; discriminate|split; [|reflexivity]]].
    + eapply match_number_parts.
      * apply (match_integer_run neg c [] (Ch.dot :: (c2 :: r') ++ 101 :: sg :: xd));
          [assumption|constructor|reflexivity].
      * apply match_frac_run; [discriminate|assumption|reflexivity].
      * apply match_exp_run; assumption.
    + rewrite (parse_float_parts neg c []) by assumption. cbn [tail app].
      rewrite Hds in Hval. rewrite Hval, Hexp. f_equal. cbn [length]. lia.
Qed.

(** Whatever the layout, the text of [repr] reads as the decimal. *)
Lemma format_repr_reads neg d decpt ds :
  digits_of d ds ->
  reads_decimal neg (sign_text neg ++ PyFloat.format_repr ds decpt) d
    (decpt - Z.of_nat (length ds)).
Proof.
  intros Eds. unfold PyFloat.format_repr.
  destruct ((decpt <=? -4)%Z || (16 <? decpt)%Z).
  - apply reads_exponent. assumption.
  - destruct (Z.leb_spec decpt 0).
    + apply reads_small; assumption.
    + destruct (Z.ltb_spec decpt (Z.of_nat (length ds))).
      * apply reads_middle; [assumption|lia].
      * apply reads_large; [assumption|lia].
Qed.

(** [float(str)] returns binary64 values. *)
Lemma float_of_decimal_valid neg n e10 :
  valid_binary PyFloat.prec PyFloat.emax (PyFloat.float_of_decimal neg n e10) = true.
Proof.
  destruct n as [|d]; [reflexivity|].
  apply (rounds_valid (decimal_value d e10) neg). apply float_of_decimal_rounds.
Qed.

Lemma parse_float_valid i fr x :
  valid_binary PyFloat.prec PyFloat.emax (PyFloat.parse_float i fr x) = true.
Proof.
  unfold PyFloat.parse_float.
  destruct (match i with
            | c :: r => if c =? Ch.minus then (true, r) else (false, i)
            | [] => (false, [])
            end) as [neg idigits].
  apply float_of_decimal_valid.
Qed.

(** The [repr] of a binary64 value is a JSON number with a fraction or an
    exponent that [float] reads back as the value. *)
Theorem float_reads_back_valid f :
  valid_binary PyFloat.prec PyFloat.emax f = true -> float_reads_back f = true.
Proof.
  destruct f as [s|s| |neg m e]; intros Hv; try reflexivity.
  - destruct s; vm_compute; reflexivity.
  - cbn [valid_binary] in Hv. unfold float_reads_back, PyFloat.float_repr.
    destruct (PyFloat.shortest_digits m e) as [ds decpt] eqn:Hs.
    destruct (shortest_digits_spec m e ds decpt Hv Hs) as (d & Hds & Hback).
    assert (Eds : digits_of d ds) by (rewrite Hds; apply digits_of_str).
    destruct (format_repr_reads neg d decpt ds Eds) as (i & fr & x & d' & s' & Hm & Hne & Hp & Ev).
    change (if neg then [Ch.minus] else []) with (sign_text neg). rewrite Hm.
    rewrite Hp, (Hback neg d' s' Ev).
    rewrite (bool_decide_eq_true_2 (S754_finite neg m e = S754_finite neg m e) eq_refl).
    rewrite andb_true_r. apply negb_true_iff, andb_false_iff.
    destruct Hne as [H|H]; [left|right]; apply bool_decide_eq_false_2; assumption.
Qed.

End Repr.

(** ** Reading a value back *)

Lemma number_stop_ws c r : is_ws c = true -> number_stop (c :: r).
Proof.
  unfold is_ws, number_stop, is_digit. intros H.
  repeat (apply orb_true_iff in H as [H|H]); apply N.eqb_eq in H; subst c;
    repeat split; discriminate.
Qed.

Lemma number_stop_closing closing c rest :
  all_ws closing -> c = Ch.rbracket \/ c = Ch.rbrace -> number_stop (closing ++ c :: rest).
Proof.
  intros Hws Hc. destruct Hws as [|w ws Hw _]; cbn [app].
  - destruct Hc as [-> | ->]; repeat split; discriminate.
  - apply number_stop_ws. assumption.
Qed.

Lemma number_stop_comma r : number_stop (Ch.comma :: r).
Proof. repeat split; discriminate. Qed.

Lemma skip_ws_scanned pc depth s x : scan_once pc depth s = Scanned x -> skip_ws s = s.
Proof.
  intros H. destruct (scan_once_head _ _ _ _ H) as (c & r & -> & Hc & _).
  apply skip_ws_head. assumption.
Qed.

Lemma dict_set_fresh d k v : k ∉ map fst d -> dict_set d k v = d ++ [(k, v)].
Proof.
  induction d as [|[k' v'] d IH]; cbn [dict_set map fst app]; intros Hk; [reflexivity|].
  apply not_elem_of_cons in Hk as [Hne Hk].
  rewrite text_eqb_neq by assumption. rewrite IH by assumption. reflexivity.
Qed.

Lemma dict_of_pairs_acc acc items :
  NoDup (map fst (acc ++ items)) ->
  fold_left (fun d kv => dict_set d kv.1 kv.2) items acc = acc ++ items.
Proof.
  revert acc. induction items as [|[k v] items IH]; intros acc Hnd; cbn [fold_left].
  - rewrite app_nil_r. reflexivity.
  - cbn [fst snd]. rewrite dict_set_fresh.
    + rewrite IH; rewrite <- app_assoc; [reflexivity|exact Hnd].
    + rewrite map_app in Hnd. apply NoDup_app in Hnd as (_ & Hdis & _).
      intros Hin. apply (Hdis k Hin). cbn. left.
Qed.

(** A dictionary without a repeated key is the dictionary of its items. *)
Lemma dict_of_pairs_nodup items : NoDup (map fst items) -> dict_of_pairs items = items.
Proof. intros H. apply (dict_of_pairs_acc [] items H). Qed.

Section RoundTrip.
Variable indent : option nat.
Variables ws1 ws2 : text.
Hypothesis ws1_ws : all_ws ws1.
Hypothesis ws2_ws : all_ws ws2.

#[local] Abbreviation enc := (iterencode indent (Ch.comma :: ws1) (Ch.colon :: ws2)).
#[local] Abbreviation nl := (newline_indent indent).
#[local] Abbreviation scan := (scan_once default_parse_constant).

Lemma newline_indent_ws level : all_ws (nl level).
Proof.
  unfold newline_indent, all_ws. destruct indent; [|constructor].
  constructor; [reflexivity|]. apply Forall_forall. intros c Hc.
  apply list_elem_of_In, repeat_spec in Hc. subst c. reflexivity.
Qed.

Lemma array_loop depth level closing items :
  items <> [] -> Forall (reads_back indent ws1 ws2 depth level) items -> all_ws closing ->
  forall fuel acc rest, (length items <= fuel)%nat ->
  JSONArray_loop (scan depth) fuel
    (join (Ch.comma :: ws1 ++ nl level) (map (fun v => enc v level) items)
       ++ closing ++ Ch.rbracket :: rest) acc
  = Scanned (VList (rev acc ++ items), rest).
Proof.
  intros Hne Hitems Hclosing. induction Hitems as [|v items Hv Hitems IH]; [contradiction|].
  intros fuel acc rest Hfuel. destruct fuel as [|fuel]; [cbn in Hfuel; lia|].
  cbn [JSONArray_loop]. destruct items as [|w items].
  - cbn [map join]. rewrite Hv by (apply number_stop_closing; auto).
    cbn [expecting_value]. rewrite skip_ws_app by assumption.
    rewrite skip_ws_head by reflexivity.
    change (Ch.rbracket =? Ch.rbracket) with true. cbv iota.
    cbn [rev]. reflexivity.
  - change (map (fun v => enc v level) (v :: w :: items))
      with (enc v level :: map (fun v => enc v level) (w :: items)).
    change (join ?sep (?a :: map ?f (w :: items)))
      with (a ++ sep ++ join sep (map f (w :: items))).
    rewrite <- !app_assoc. rewrite Hv by (cbn [app]; apply number_stop_comma).
    cbn [expecting_value app]. rewrite skip_ws_head by reflexivity.
    change (Ch.comma =? Ch.rbracket) with false.
    change (Ch.comma =? Ch.comma) with true. cbv iota.
    rewrite <- !app_assoc.
    rewrite skip_ws_app by assumption.
    rewrite skip_ws_app by apply newline_indent_ws.
    specialize (IH ltac:(discriminate) fuel (v :: acc) rest ltac:(cbn in *; lia)).
    assert (Hskip : forall X, JSONArray_loop (scan depth) fuel X (v :: acc)
                              = Scanned (VList (rev (v :: acc) ++ w :: items), rest) ->
                    skip_ws X = X).
    { intros X HX. destruct fuel as [|fuel']; [discriminate|].
      cbn [JSONArray_loop] in HX.
      destruct (scan depth X) as [x|e] eqn:Hs; [|destruct e; discriminate].
      eapply skip_ws_scanned; eassumption. }
    rewrite (Hskip _ IH), IH. cbn [rev]. rewrite <- app_assoc. reflexivity.
Qed.

Lemma chunk_unfold level k v X :
  chunk indent ws1 ws2 level (k, v) ++ X
  = Ch.quote :: concat (map escape_char k) ++ Ch.quote :: Ch.colon :: ws2 ++ enc v level ++ X.
Proof.
  unfold chunk, encode_basestring_ascii. cbn [fst snd app].
  rewrite <- !app_assoc. cbn [app]. rewrite <- !app_assoc. reflexivity.
Qed.

Lemma object_loop depth level closing items :
  items <> [] ->
  Forall (fun kv => str_ok kv.1 /\ reads_back indent ws1 ws2 depth level kv.2) items ->
  all_ws closing ->
  forall fuel begin acc rest tx, (length items <= fuel)%nat ->
  Ch.quote :: tx
    = join (Ch.comma :: ws1 ++ nl level) (map (chunk indent ws1 ws2 level) items)
        ++ closing ++ Ch.rbrace :: rest ->
  JSONObject_loop (scan depth) fuel tx begin acc
  = Scanned (VDict (dict_of_pairs (rev acc ++ items)), rest).
Proof.
  intros Hne Hitems Hclosing.
  induction Hitems as [|[k v] items [Hk Hv] Hitems IH]; [contradiction|].
  intros fuel begin acc rest tx Hfuel Htx. destruct fuel as [|fuel]; [cbn in Hfuel; lia|].
  cbn [fst snd] in Hk, Hv. cbn [JSONObject_loop]. destruct items as [|kv items].
  - cbn [map join] in Htx. rewrite chunk_unfold in Htx.
    apply (f_equal (@List.tl N)) in Htx. cbn [List.tl] in Htx. subst tx.
    rewrite scanstring_escape by assumption.
    rewrite skip_ws_head by reflexivity.
    change (Ch.colon =? Ch.colon) with true. cbv iota.
    rewrite skip_ws_app by assumption.
    pose proof (Hv _ (number_stop_closing closing Ch.rbrace rest Hclosing (or_intror eq_refl)))
      as Hscan.
    rewrite (skip_ws_scanned _ _ _ _ Hscan), Hscan. cbn [expecting_value].
    rewrite skip_ws_app by assumption. rewrite skip_ws_head by reflexivity.
    change (Ch.rbrace =? Ch.rbrace) with true. cbv iota. cbn [rev]. reflexivity.
  - change (map (chunk indent ws1 ws2 level) ((k, v) :: kv :: items))
      with (chunk indent ws1 ws2 level (k, v) :: map (chunk indent ws1 ws2 level) (kv :: items)) in Htx.
    change (join ?sep (?a :: map ?f (kv :: items)))
      with (a ++ sep ++ join sep (map f (kv :: items))) in Htx.
    rewrite <- !app_assoc in Htx. rewrite chunk_unfold in Htx.
    apply (f_equal (@List.tl N)) in Htx. cbn [List.tl] in Htx. subst tx.
    rewrite scanstring_escape by assumption.
    rewrite skip_ws_head by reflexivity.
    change (Ch.colon =? Ch.colon) with true. cbv iota.
    rewrite skip_ws_app by assumption.
    cbn [app].
    pose proof (Hv _ (number_stop_comma
      ((ws1 ++ nl level) ++ join (Ch.comma :: ws1 ++ nl level) (map (chunk indent ws1 ws2 level) (kv :: items))
         ++ closing ++ Ch.rbrace :: rest))) as Hscan.
    rewrite (skip_ws_scanned _ _ _ _ Hscan), Hscan. cbn [expecting_value].
    rewrite skip_ws_head by reflexivity.
    change (Ch.comma =? Ch.rbrace) with false.
    change (Ch.comma =? Ch.comma) with true. cbv iota.
    rewrite <- !app_assoc.
    rewrite skip_ws_app by assumption.
    rewrite skip_ws_app by apply newline_indent_ws.
    destruct kv as [k' v'].
    change (map (chunk indent ws1 ws2 level) ((k', v') :: items))
      with (chunk indent ws1 ws2 level (k', v') :: map (chunk indent ws1 ws2 level) items).
    assert (Hhead : exists body,
      join (Ch.comma :: ws1 ++ nl level) (chunk indent ws1 ws2 level (k', v') :: map (chunk indent ws1 ws2 level) items)
        ++ closing ++ Ch.rbrace :: rest = Ch.quote :: body).
    { destruct items as [|kv'' items'].
      - cbn [map join]. rewrite chunk_unfold. eexists. reflexivity.
      - change (join ?sep (?a :: map ?f (kv'' :: items')))
          with (a ++ sep ++ join sep (map f (kv'' :: items'))).
        rewrite <- !app_assoc, chunk_unfold. eexists. reflexivity. }
    destruct Hhead as [body Hbody]. rewrite Hbody.
    rewrite skip_ws_head by reflexivity.
    change (Ch.quote =? Ch.quote) with true. cbv iota.
    rewrite (IH ltac:(discriminate) fuel _ ((k, v) :: acc) rest body
                ltac:(cbn in *; lia) (eq_sym Hbody)).
    cbn [rev]. rewrite <- app_assoc. reflexivity.
Qed.

Lemma join_length sep chunks :
  Forall (fun c : text => c <> []) chunks -> (length chunks <= length (join sep chunks))%nat.
Proof.
  induction 1 as [|c chunks Hc Hchunks IH]; [cbn; lia|].
  destruct chunks as [|c' chunks].
  - cbn [join]. destruct c; [contradiction|cbn; lia].
  - change (join sep (c :: c' :: chunks)) with (c ++ sep ++ join sep (c' :: chunks)).
    rewrite !length_app. destruct c; [contradiction|]. cbn [length] in *. lia.
Qed.

Lemma reads_back_nonempty depth level v : reads_back indent ws1 ws2 depth level v -> enc v level <> [].
Proof.
  intros H Hnil. specialize (H [] I). rewrite Hnil in H.
  rewrite scan_once_eq in H. discriminate.
Qed.

Lemma foldr_max_le {A} (f : A -> nat) items d :
  (foldr (fun x m => Nat.max (f x) m) 0%nat items <= d)%nat ->
  Forall (fun x => (f x <= d)%nat) items.
Proof.
  induction items as [|x items IH]; cbn [foldr]; intros H; constructor; [lia|].
  apply IH. lia.
Qed.

(** Every well-formed value whose floats read back reads back, at any
    level of indentation and before any text at which a number stops. *)
Lemma scan_once_iterencode v :
  well_formed v -> floats_read_back v = true ->
  forall depth level, (value_depth v <= depth)%nat -> reads_back indent ws1 ws2 depth level v.
Proof.
  induction v as [|b|z|f|s|items IH|items IH] using value_ind;
    intros Hwf Hfl depth level Hdepth rest Hstop.
  - rewrite scan_once_eq. reflexivity.
  - rewrite scan_once_eq. destruct b; reflexivity.
  - apply scan_once_int. assumption.
  - apply scan_once_float; assumption.
  - inversion Hwf as [| | | |? Hs| |]; subst.
    cbn [iterencode]. unfold encode_basestring_ascii. cbn [app].
    rewrite scan_once_eq. change (Ch.quote =? Ch.quote) with true. cbv iota.
    rewrite <- app_assoc. cbn [app]. rewrite scanstring_escape by assumption. reflexivity.
  - destruct depth as [|depth]; [cbn in Hdepth; lia|].
    destruct items as [|x xs]; [rewrite scan_once_eq; reflexivity|].
    inversion Hwf as [| | | | |? Hitems|]; subst.
    cbn [floats_read_back] in Hfl. cbn [value_depth] in Hdepth.
    assert (Hall : Forall (reads_back indent ws1 ws2 depth (S level)) (x :: xs)).
    { apply Forall_forall. intros v Hin.
      rewrite Forall_forall in IH, Hitems.
      apply IH; auto.
      - rewrite forallb_forall in Hfl. apply Hfl. apply list_elem_of_In. assumption.
      - apply le_S_n, (foldr_max_le _ _ depth) in Hdepth.
        rewrite Forall_forall in Hdepth. apply (Hdepth _ Hin). }
    change (enc (VList (x :: xs)) level)
      with (T "[" ++ nl (S level)
              ++ join (Ch.comma :: ws1 ++ nl (S level))
                      (map (fun v => enc v (S level)) (x :: xs))
              ++ nl level ++ T "]").
    change (T "[") with [Ch.lbracket]. change (T "]") with [Ch.rbracket].
    rewrite <- !app_assoc. rewrite scan_once_eq. cbn [app].
    change (Ch.lbracket =? Ch.quote) with false.
    change (Ch.lbracket =? Ch.lbrace) with false.
    change (Ch.lbracket =? Ch.lbracket) with true. cbv iota.
    unfold JSONArray. rewrite skip_ws_app by apply newline_indent_ws.
    pose proof (array_loop depth (S level) (nl level) (x :: xs) ltac:(discriminate) Hall
                  (newline_indent_ws level)) as Hloop.
    set (s := join _ _ ++ nl level ++ Ch.rbracket :: rest) in *.
    assert (Hlen : (length (x :: xs) <= length s)%nat).
    { unfold s. rewrite length_app.
      pose proof (join_length (Ch.comma :: ws1 ++ nl (S level))
                    (map (fun v => enc v (S level)) (x :: xs))) as Hj.
      rewrite length_map in Hj. etransitivity; [apply Hj|lia].
      apply Forall_map. eapply Forall_impl; [exact Hall|].
      intros v Hv. eapply reads_back_nonempty. exact Hv. }
    specialize (Hloop (S (length s)) [] rest ltac:(lia)). cbn [rev app] in Hloop.
    fold s in Hloop.
    assert (Hs : skip_ws s = s /\ exists c r, s = c :: r /\ c <> Ch.rbracket).
    { cbn [JSONArray_loop] in Hloop. fold s in Hloop.
      destruct (scan depth s) as [y|e] eqn:Hy; [|destruct e; discriminate].
      split; [eapply skip_ws_scanned; eassumption|].
      destruct (scan_once_head _ _ _ _ Hy) as (c & r & Hc & _ & Hb & _). eauto. }
    destruct Hs as [Hskip (c & r & Hc & Hb)]. rewrite Hskip.
    rewrite Hc in *. destruct (N.eqb_spec c Ch.rbracket); [contradiction|].
    exact Hloop.
  - destruct depth as [|depth]; [cbn in Hdepth; lia|].
    destruct items as [|[k x] xs]; [rewrite scan_once_eq; reflexivity|].
    inversion Hwf as [| | | | | |? Hnd Hitems]; subst.
    cbn [floats_read_back] in Hfl. cbn [value_depth] in Hdepth.
    assert (Hall : Forall (fun kv => str_ok kv.1 /\ reads_back indent ws1 ws2 depth (S level) kv.2)
                          ((k, x) :: xs)).
    { apply Forall_forall. intros kv Hin.
      rewrite Forall_forall in IH, Hitems. destruct (Hitems kv Hin) as [Hk Hv].
      split; [assumption|]. apply IH; auto.
      - rewrite forallb_forall in Hfl. apply Hfl. apply list_elem_of_In. assumption.
      - apply le_S_n, (foldr_max_le _ _ depth) in Hdepth.
        rewrite Forall_forall in Hdepth. apply (Hdepth _ Hin). }
    change (enc (VDict ((k, x) :: xs)) level)
      with (T "{" ++ nl (S level)
              ++ join (Ch.comma :: ws1 ++ nl (S level))
                      (map (chunk indent ws1 ws2 (S level)) ((k, x) :: xs))
              ++ nl level ++ T "}").
    change (T "{") with [Ch.lbrace]. change (T "}") with [Ch.rbrace].
    rewrite <- !app_assoc. rewrite scan_once_eq. cbn [app].
    change (Ch.lbrace =? Ch.quote) with false.
    change (Ch.lbrace =? Ch.lbrace) with true. cbv iota.
    unfold JSONObject. rewrite skip_ws_app by apply newline_indent_ws.
    set (s := join _ _ ++ nl level ++ Ch.rbrace :: rest) in *.
    assert (Hhead : exists body, s = Ch.quote :: body).
    { unfold s. change (map (chunk indent ws1 ws2 (S level)) ((k, x) :: xs))
        with (chunk indent ws1 ws2 (S level) (k, x) :: map (chunk indent ws1 ws2 (S level)) xs).
      destruct xs as [|kv' xs'].
      - cbn [map join]. rewrite chunk_unfold. eexists. reflexivity.
      - change (join ?sep (?a :: map ?f (kv' :: xs')))
          with (a ++ sep ++ join sep (map f (kv' :: xs'))).
        rewrite <- !app_assoc, chunk_unfold. eexists. reflexivity. }
    destruct Hhead as [body Hbody].
    assert (Hlen : (length ((k, x) :: xs) <= length s)%nat).
    { unfold s. rewrite length_app.
      pose proof (join_length (Ch.comma :: ws1 ++ nl (S level))
                    (map (chunk indent ws1 ws2 (S level)) ((k, x) :: xs))) as Hj.
      rewrite length_map in Hj. etransitivity; [apply Hj|lia].
      apply Forall_map. apply Forall_forall. intros kv _.
      unfold chunk, encode_basestring_ascii. discriminate. }
    pose proof (object_loop depth (S level) (nl level) ((k, x) :: xs) ltac:(discriminate)
                  Hall (newline_indent_ws level) (S (length s)) (length s) [] rest body
                  ltac:(lia) (eq_sym Hbody)) as Hloop.
    assert (Hskip : skip_ws s = s).
    { rewrite Hbody. apply skip_ws_head. reflexivity. }
    rewrite !Hskip. rewrite Hbody at 1.
    change (Ch.quote =? Ch.quote) with true. cbv iota.
    rewrite Hloop. cbn [rev app].
    rewrite dict_of_pairs_nodup by assumption. reflexivity.
Qed.
End RoundTrip.

(** ** What the decoder returns: strings *)

Lemma hex_value_bound c d : hex_value c = Some d -> d < 16.
Proof.
  unfold hex_value.
  destruct ((48 <=? c) && (c <=? 57)) eqn:H1.
  { apply andb_true_iff in H1 as [?%N.leb_le ?%N.leb_le]. intros [= <-]. lia. }
  destruct ((97 <=? c) && (c <=? 102)) eqn:H2.
  { apply andb_true_iff in H2 as [?%N.leb_le ?%N.leb_le]. intros [= <-]. lia. }
  destruct ((65 <=? c) && (c <=? 70)) eqn:H3; [|discriminate].
  apply andb_true_iff in H3 as [?%N.leb_le ?%N.leb_le]. intros [= <-]. lia.
Qed.

Lemma hex4_bound a b c d u : hex4 a b c d = Some u -> u < 65536.
Proof.
  unfold hex4.
  destruct (hex_value a) as [x|] eqn:Ha; [|discriminate].
  destruct (hex_value b) as [y|] eqn:Hb; [|discriminate].
  destruct (hex_value c) as [z|] eqn:Hc; [|discriminate].
  destruct (hex_value d) as [w|] eqn:Hd; [|discriminate].
  apply hex_value_bound in Ha, Hb, Hc, Hd. intros [= <-]. lia.
Qed.

Lemma surrogate_split c :
  Utf8.is_surrogate c = false -> is_high_surrogate c = false /\ is_low_surrogate c = false.
Proof.
  unfold Utf8.is_surrogate, is_high_surrogate, is_low_surrogate.
  intros H. apply andb_false_iff in H.
  split; apply andb_false_iff; destruct H as [H%N.leb_gt|H%N.leb_gt];
    try (left; apply N.leb_gt; lia); try (right; apply N.leb_gt; lia).
Qed.

Lemma high_not_low u : is_high_surrogate u = true -> is_low_surrogate u = false.
Proof.
  unfold is_high_surrogate, is_low_surrogate. intros H.
  apply andb_true_iff in H as [_ H%N.leb_le]. apply andb_false_iff. left.
  apply N.leb_gt. lia.
Qed.

Lemma backslash_char_plain esc ch :
  backslash_char esc = Some ch -> ch < 128.
Proof.
  unfold backslash_char.
  repeat match goal with
         | |- context [if ?b then _ else _] => destruct b
         end; intros [= <-]; reflexivity || discriminate.
Qed.

Lemma small_not_surrogate c :
  c < 55296 -> is_high_surrogate c = false /\ is_low_surrogate c = false.
Proof.
  intros H. unfold is_high_surrogate, is_low_surrogate.
  split; apply andb_false_iff; left; apply N.leb_gt; lia.
Qed.

Lemma join_surrogates_bound u u2 :
  is_high_surrogate u = true -> is_low_surrogate u2 = true ->
  65536 <= join_surrogates u u2 <= 1114111.
Proof.
  unfold is_high_surrogate, is_low_surrogate.
  intros [H1%N.leb_le H2%N.leb_le]%andb_true_iff [H3%N.leb_le H4%N.leb_le]%andb_true_iff.
  rewrite join_surrogates_eq by lia. lia.
Qed.

(** What [push] adds in front of a string that is good so far. *)
Lemma str_ok_push c str :
  code_point c -> str_ok str ->
  is_high_surrogate c = false
  \/ match str with b :: _ => is_low_surrogate b = false | [] => True end ->
  str_ok (c :: str).
Proof.
  intros Hc [Hcp Hnp] Hpair. split; [constructor; assumption|].
  cbn [no_surrogate_pair]. split; [|assumption].
  destruct str as [|b str]; [exact I|]. intros [Hh Hl].
  destruct Hpair as [H|H]; congruence.
Qed.

(** The result of [scanstring]: a shorter rest, and on a text of scalar
    values a string without a surrogate pair; the string starts with a low
    surrogate only when the text starts with its escape. *)
Lemma scanstring_result s begin str rest :
  py_scanstring s begin = Scanned (str, rest) ->
  (length rest < length s)%nat
  /\ (Forall scalar s ->
      str_ok str /\ Forall scalar rest
      /\ (forall b t, str = b :: t -> is_low_surrogate b = true -> low_escape_head s b)).
Proof.
  remember (length s) as n eqn:Hn. revert s Hn begin str rest.
  induction n as [n IH] using lt_wf_ind. intros s -> begin str rest.
  assert (Hpush : forall c r,
    (length r < length s)%nat ->
    (Forall scalar s -> Forall scalar r) ->
    (Forall scalar s -> code_point c) ->
    (Forall scalar s -> is_high_surrogate c = true ->
     forall b, low_escape_head r b -> is_low_surrogate b = false) ->
    (Forall scalar s -> is_low_surrogate c = true -> low_escape_head s c) ->
    push c (py_scanstring r begin) = Scanned (str, rest) ->
    (length rest < length s)%nat
    /\ (Forall scalar s ->
        str_ok str /\ Forall scalar rest
        /\ (forall b t, str = b :: t -> is_low_surrogate b = true -> low_escape_head s b))).
  { intros c r Hlen Hsc Hcp Hhigh Hlow Hp. unfold push in Hp.
    destruct (py_scanstring r begin) as [[str' rest']|e] eqn:Hr; [|discriminate].
    injection Hp as <- <-.
    destruct (IH (length r) Hlen r eq_refl begin str' rest' Hr) as [Hl Hrest].
    split; [lia|]. intros Hs. destruct (Hrest (Hsc Hs)) as (Hok & Hsr & Hhead).
    split; [|split; [assumption|]].
    - apply str_ok_push; auto.
      destruct (is_high_surrogate c) eqn:Hh; [right|left; reflexivity].
      destruct str' as [|b t]; [exact I|].
      destruct (is_low_surrogate b) eqn:Hb; [|reflexivity].
      exfalso. pose proof (Hhigh Hs eq_refl b (Hhead b t eq_refl Hb)). congruence.
    - intros b t [= <- <-] Hb. auto. }
  destruct s as [|c r]; [discriminate|]. cbn [py_scanstring].
  destruct (N.eqb_spec c Ch.quote) as [->|Hq].
  { intros [= <- <-]. split; [cbn; lia|]. intros Hs. inversion Hs; subst.
    repeat split; try constructor; auto. intros b t [=]. }
  destruct (N.eqb_spec c Ch.backslash) as [->|Hb].
  - destruct r as [|esc r1]; [discriminate|].
    destruct (N.eqb_spec esc 117) as [->|Hu].
    + destruct r1 as [|h1 [|h2 [|h3 [|h4 r2]]]]; try discriminate.
      destruct (hex4 h1 h2 h3 h4) as [uni|] eqn:Hh; [|discriminate].
      pose proof (hex4_bound _ _ _ _ _ Hh) as Hub.
      assert (Hsc2 : Forall scalar (Ch.backslash :: 117 :: h1 :: h2 :: h3 :: h4 :: r2) ->
                     Forall scalar r2).
      { intros Hs. do 6 (apply Forall_cons in Hs as [_ Hs]). exact Hs. }
      assert (Hself : low_escape_head (Ch.backslash :: 117 :: h1 :: h2 :: h3 :: h4 :: r2) uni).
      { do 5 eexists. split; [reflexivity|exact Hh]. }
      assert (Hplain : forall Hcase : is_high_surrogate uni = true ->
                         forall b, low_escape_head r2 b -> is_low_surrogate b = false,
        push uni (py_scanstring r2 begin) = Scanned (str, rest) ->
        (length rest < length (Ch.backslash :: 117%N :: h1 :: h2 :: h3 :: h4 :: r2))%nat
        /\ (Forall scalar (Ch.backslash :: 117 :: h1 :: h2 :: h3 :: h4 :: r2) ->
            str_ok str /\ Forall scalar rest
            /\ (forall b t, str = b :: t -> is_low_surrogate b = true ->
                low_escape_head (Ch.backslash :: 117 :: h1 :: h2 :: h3 :: h4 :: r2) b))).
      { intros Hcase. apply Hpush; auto.
        - cbn; lia.
        - intros _. unfold code_point. lia. }
      destruct (is_high_surrogate uni) eqn:Hhigh; [|apply Hplain; discriminate].
      destruct r2 as [|b [|u r3]].
      * apply Hplain. intros _ b (? & ? & ? & ? & ? & [=] & _).
      * apply Hplain. intros _ b' (? & ? & ? & ? & ? & [=] & _).
      * destruct ((b =? Ch.backslash) && (u =? 117)) eqn:Hbu.
        2:{ apply Hplain. intros _ b' (? & ? & ? & ? & ? & [= -> -> _] & _).
            discriminate Hbu. }
        apply andb_true_iff in Hbu as [->%N.eqb_eq ->%N.eqb_eq].
        destruct r3 as [|g1 [|g2 [|g3 [|g4 r4]]]]; try discriminate.
        destruct (hex4 g1 g2 g3 g4) as [uni2|] eqn:Hg; [|discriminate].
        destruct (is_low_surrogate uni2) eqn:Hlow.
        -- pose proof (join_surrogates_bound _ _ Hhigh Hlow) as Hj.
           apply Hpush.
           ++ cbn; lia.
           ++ intros Hs. do 12 (apply Forall_cons in Hs as [_ Hs]). exact Hs.
           ++ intros _. unfold code_point. lia.
           ++ intros _ Hjh. exfalso. unfold is_high_surrogate in Hjh.
              apply andb_true_iff in Hjh as [_ Hjh%N.leb_le]. lia.
           ++ intros _ Hjl. exfalso. unfold is_low_surrogate in Hjl.
              apply andb_true_iff in Hjl as [_ Hjl%N.leb_le]. lia.
        -- apply Hplain.
           intros _ b' (? & ? & ? & ? & ? & [= <- <- <- <- _] & Hb').
           congruence.
    + destruct (backslash_char esc) as [ch|] eqn:Hbc; [|discriminate].
      pose proof (backslash_char_plain _ _ Hbc) as Hch.
      destruct (small_not_surrogate ch ltac:(lia)) as [Hnh Hnl].
      apply Hpush.
      * cbn; lia.
      * intros Hs. do 2 (apply Forall_cons in Hs as [_ Hs]). exact Hs.
      * intros _. unfold code_point. lia.
      * intros _ Hh. congruence.
      * intros _ Hl. congruence.
  - destruct (N.ltb_spec c 32); [discriminate|].
    apply Hpush.
    + cbn; lia.
    + intros Hs. apply Forall_cons in Hs as [_ Hs]. exact Hs.
    + intros Hs. apply Forall_cons in Hs as [[Hc _] _]. exact Hc.
    + intros Hs Hh. apply Forall_cons in Hs as [[_ Hc] _].
      apply surrogate_split in Hc as [Hc _]. congruence.
    + intros Hs Hl. apply Forall_cons in Hs as [[_ Hc] _].
      apply surrogate_split in Hc as [_ Hc]. congruence.
Qed.

(** ** What the decoder returns: values *)

(** *** The groups of a number are consecutive pieces of the text *)

Lemma span_digits_split s ds r : span_digits s = (ds, r) -> s = ds ++ r.
Proof.
  revert ds r. induction s as [|c s IH]; intros ds r; cbn [span_digits].
  - intros [= <- <-]. reflexivity.
  - destruct (is_digit c); [|intros [= <- <-]; reflexivity].
    destruct (span_digits s) as [ds' r'] eqn:Hs. intros [= <- <-].
    rewrite (IH _ _ eq_refl). reflexivity.
Qed.

Lemma match_integer_split s i r : match_integer s = Some (i, r) -> s = i ++ r /\ i <> [].
Proof.
  unfold match_integer.
  assert (Hcore : forall sign s1,
    match s1 with
    | c :: r0 =>
        if c =? Ch.zero then Some (sign ++ [c], r0)
        else if is_digit c then let '(ds, r') := span_digits r0 in Some (sign ++ c :: ds, r')
        else None
    | [] => None
    end = Some (i, r) -> sign ++ s1 = i ++ r /\ i <> []).
  { intros sign [|c r0]; [discriminate|].
    destruct (c =? Ch.zero).
    { intros [= <- <-]. rewrite <- app_assoc. split; [reflexivity|]. destruct sign; discriminate. }
    destruct (is_digit c); [|discriminate].
    destruct (span_digits r0) as [ds r'] eqn:Hs. intros [= <- <-].
    rewrite (span_digits_split _ _ _ Hs). cbn [app]. rewrite <- ?app_assoc.
    split; [reflexivity|]. destruct sign; discriminate. }
  destruct s as [|c s]; [discriminate|].
  destruct (c =? Ch.minus) eqn:Hc.
  - apply N.eqb_eq in Hc as ->. apply (Hcore [Ch.minus] s).
  - apply (Hcore [] (c :: s)).
Qed.

Lemma match_frac_split s f r : match_frac s = (f, r) -> s = f ++ r.
Proof.
  unfold match_frac. destruct s as [|c s]; [intros [= <- <-]; reflexivity|].
  destruct (c =? Ch.dot); [|intros [= <- <-]; reflexivity].
  destruct (span_digits s) as [ds r'] eqn:Hs.
  destruct ds; intros [= <- <-]; [reflexivity|].
  rewrite (span_digits_split _ _ _ Hs). reflexivity.
Qed.

Lemma match_exp_split s x r : match_exp s = (x, r) -> s = x ++ r.
Proof.
  unfold match_exp. destruct s as [|c s]; [intros [= <- <-]; reflexivity|].
  destruct ((c =? 101) || (c =? 69)); [|intros [= <- <-]; reflexivity].
  assert (Hcore : forall sign r1,
    match span_digits r1 with
    | ([], _) => ([], c :: s)
    | (ds, r') => (c :: sign ++ ds, r')
    end = (x, r) -> s = sign ++ r1 -> c :: s = x ++ r).
  { intros sign r1 H Hs. destruct (span_digits r1) as [ds r'] eqn:Hd.
    destruct ds; injection H as <- <-; [reflexivity|].
    rewrite Hs, (span_digits_split _ _ _ Hd). cbn [app]. rewrite <- ?app_assoc. reflexivity. }
  destruct s as [|d s'].
  - intros H. apply (Hcore [] [] H). reflexivity.
  - destruct ((d =? Ch.minus) || (d =? Ch.plus)).
    + intros H. apply (Hcore [d] s' H). reflexivity.
    + intros H. apply (Hcore [] (d :: s') H). reflexivity.
Qed.

Lemma match_number_split s i f x r :
  match_number s = Some (i, f, x, r) -> s = i ++ f ++ x ++ r /\ i <> [].
Proof.
  unfold match_number. destruct (match_integer s) as [[i0 r0]|] eqn:Hi; [|discriminate].
  destruct (match_frac r0) as [f0 r1] eqn:Hf. destruct (match_exp r1) as [x0 r2] eqn:Hx.
  intros [= <- <- <- <-]. apply match_integer_split in Hi as [-> Hne].
  apply match_frac_split in Hf as ->. apply match_exp_split in Hx as ->. auto.
Qed.

(** *** Dictionaries built by the decoder *)

Lemma dict_set_keys d k v :
  map fst (dict_set d k v) = if bool_decide (k ∈ map fst d) then map fst d else map fst d ++ [k].
Proof.
  induction d as [|[k' v'] d IH]; cbn [dict_set map fst]; [reflexivity|].
  unfold text_eqb. destruct (bool_decide (k = k')) eqn:Hk.
  - apply bool_decide_eq_true in Hk as ->. rewrite bool_decide_eq_true_2 by left. reflexivity.
  - apply bool_decide_eq_false in Hk. cbn [map fst]. rewrite IH.
    destruct (bool_decide (k ∈ map fst d)) eqn:Hd.
    + apply bool_decide_eq_true in Hd. rewrite bool_decide_eq_true_2 by (right; assumption).
      reflexivity.
    + apply bool_decide_eq_false in Hd.
      rewrite bool_decide_eq_false_2; [reflexivity|].
      intros [?|?]%elem_of_cons; contradiction.
Qed.

Lemma dict_set_nodup d k v : NoDup (map fst d) -> NoDup (map fst (dict_set d k v)).
Proof.
  intros H. rewrite dict_set_keys. destruct (bool_decide (k ∈ map fst d)) eqn:Hd; [assumption|].
  apply bool_decide_eq_false in Hd. apply NoDup_app. repeat split; auto.
  - intros x Hx [->|[]%elem_of_nil]%elem_of_cons. contradiction.
  - apply NoDup_singleton.
Qed.

Lemma dict_set_Forall (P : text * value -> Prop) d k v :
  Forall P d -> P (k, v) -> Forall P (dict_set d k v).
Proof.
  intros Hd Hkv. induction Hd as [|[k' v'] d Hp Hd IH]; cbn [dict_set]; [repeat constructor; auto|].
  unfold text_eqb. destruct (bool_decide (k = k')) eqn:Hk.
  - apply bool_decide_eq_true in Hk as <-. constructor; assumption.
  - constructor; assumption.
Qed.

Lemma dict_of_pairs_good (P : text * value -> Prop) pairs :
  Forall P pairs ->
  NoDup (map fst (dict_of_pairs pairs)) /\ Forall P (dict_of_pairs pairs).
Proof.
  unfold dict_of_pairs. intros Hp.
  assert (Hacc : forall acc, NoDup (map fst acc) -> Forall P acc ->
                 NoDup (map fst (fold_left (fun d kv => dict_set d kv.1 kv.2) pairs acc))
                 /\ Forall P (fold_left (fun d kv => dict_set d kv.1 kv.2) pairs acc)).
  { induction Hp as [|[k v] pairs Hkv Hp IH]; intros acc Hnd Hall; cbn [fold_left].
    - auto.
    - apply IH; [apply dict_set_nodup; assumption|apply dict_set_Forall; assumption]. }
  apply Hacc; constructor.
Qed.

Lemma foldr_max_bound {A} (f : A -> nat) items d :
  Forall (fun x => (f x <= d)%nat) items ->
  (foldr (fun x m => Nat.max (f x) m) 0%nat items <= d)%nat.
Proof. induction 1; cbn [foldr]; lia. Qed.

Lemma skip_ws_length s : (length (skip_ws s) <= length s)%nat.
Proof.
  induction s as [|c s IH]; cbn [skip_ws]; [lia|]. destruct (is_ws c); cbn [length]; lia.
Qed.

Lemma skip_ws_Forall (P : N -> Prop) s : Forall P s -> Forall P (skip_ws s).
Proof.
  induction 1 as [|c s Hc Hs IH]; cbn [skip_ws]; [constructor|].
  destruct (is_ws c); [assumption|constructor; assumption].
Qed.

(** *** What the decoder returns *)

Lemma expecting_value_scanned {A} (r : scanned A) x :
  expecting_value r = Scanned x -> r = Scanned x.
Proof. destruct r as [a|[]]; cbn; congruence. Qed.

Lemma expecting_value_exhausted {A} (r : scanned A) :
  expecting_value r = Failed Exhausted -> r = Failed Exhausted.
Proof. destruct r as [a|[]]; cbn; congruence. Qed.

Section Loops.
Variable scan : text -> scanned (value * text).
Variable d : nat.
Hypothesis scan_good : good_scan scan d.

Lemma array_loop_good fuel :
  forall s acc, (length s < fuel)%nat ->
  Forall (fun x => (value_depth x <= d)%nat) acc ->
  JSONArray_loop scan fuel s acc <> Failed Exhausted
  /\ forall v r, JSONArray_loop scan fuel s acc = Scanned (v, r) ->
       (length r < length s)%nat /\ (value_depth v <= S d)%nat
       /\ (Forall scalar s -> Forall well_formed acc -> well_formed v /\ Forall scalar r).
Proof.
  induction fuel as [|fuel IH]; intros s acc Hfuel Hacc; [lia|].
  cbn [JSONArray_loop]. destruct (scan_good s) as [Hex Hok].
  destruct (expecting_value (scan s)) as [[v r]|e] eqn:Hs.
  2:{ split; [|discriminate]. intros [= ->]. apply expecting_value_exhausted in Hs. auto. }
  apply expecting_value_scanned in Hs. destruct (Hok v r Hs) as (Hlen & Hdv & Hwf).
  pose proof (skip_ws_length r) as Hsl.
  destruct (skip_ws r) as [|c r'] eqn:Hr; [split; discriminate|].
  destruct (c =? Ch.rbracket).
  { split; [discriminate|]. intros v0 r0 [= <- <-]. cbn [length] in Hsl.
    change (rev acc ++ [v]) with (rev (v :: acc)).
    split; [lia|]. split.
    - cbn [value_depth]. apply le_n_S, foldr_max_bound.
      apply Forall_rev. constructor; assumption.
    - intros Hsc Haccwf. destruct (Hwf Hsc) as [Hv Hrs]. split.
      + constructor. apply Forall_rev. constructor; assumption.
      + apply (skip_ws_Forall scalar) in Hrs. rewrite Hr in Hrs.
        apply Forall_cons in Hrs as [_ Hrs]. exact Hrs. }
  destruct (c =? Ch.comma); [|split; discriminate].
  pose proof (skip_ws_length r') as Hsl'. cbn [length] in Hsl.
  destruct (IH (skip_ws r') (v :: acc) ltac:(lia) ltac:(constructor; assumption))
    as [Hex' Hok'].
  split; [assumption|]. intros v0 r0 H0. destruct (Hok' v0 r0 H0) as (Hl0 & Hd0 & Hwf0).
  split; [lia|split; [assumption|]]. intros Hsc Haccwf. destruct (Hwf Hsc) as [Hv Hrs].
  apply Hwf0; [|constructor; assumption].
  apply skip_ws_Forall. apply (skip_ws_Forall scalar) in Hrs. rewrite Hr in Hrs.
  apply Forall_cons in Hrs as [_ Hrs]. exact Hrs.
Qed.

Lemma JSONArray_good : good_scan (JSONArray scan) (S d).
Proof.
  intros s. unfold JSONArray. pose proof (skip_ws_length s) as Hsl.
  assert (Hloop : forall s', s' = skip_ws s ->
    JSONArray_loop scan (S (length s')) s' [] <> Failed Exhausted
    /\ forall v r, JSONArray_loop scan (S (length s')) s' [] = Scanned (v, r) ->
         (length r < length s)%nat /\ (value_depth v <= S d)%nat
         /\ (Forall scalar s -> well_formed v /\ Forall scalar r)).
  { intros s' ->.
    destruct (array_loop_good (S (length (skip_ws s))) (skip_ws s) [] ltac:(lia)
                ltac:(constructor)) as [Hex Hok].
    split; [assumption|]. intros v r H. destruct (Hok v r H) as (Hl & Hd & Hwf).
    split; [lia|split; [assumption|]]. intros Hsc.
    apply Hwf; [apply skip_ws_Forall; assumption|constructor]. }
  destruct (skip_ws s) as [|c r] eqn:Hs; [apply Hloop; reflexivity|].
  destruct (c =? Ch.rbracket); [|apply Hloop; reflexivity].
  split; [discriminate|]. intros v r0 [= <- <-]. cbn [length] in Hsl.
  split; [lia|split; [cbn; lia|]]. intros Hsc. split; [repeat constructor|].
  apply (skip_ws_Forall scalar) in Hsc. rewrite Hs in Hsc.
  apply Forall_cons in Hsc as [_ Hsc]. exact Hsc.
Qed.

Lemma object_loop_good fuel :
  forall s begin acc, (length s < fuel)%nat ->
  Forall (fun kv => (value_depth kv.2 <= d)%nat) acc ->
  JSONObject_loop scan fuel s begin acc <> Failed Exhausted
  /\ forall v r, JSONObject_loop scan fuel s begin acc = Scanned (v, r) ->
       (length r < length s)%nat /\ (value_depth v <= S d)%nat
       /\ (Forall scalar s -> Forall good_pair acc -> well_formed v /\ Forall scalar r).
Proof.
  induction fuel as [|fuel IH]; intros s begin acc Hfuel Hacc; [lia|].
  cbn [JSONObject_loop].
  destruct (py_scanstring s begin) as [[key r]|e] eqn:Hkey.
  2:{ split; [|discriminate]. intros [= ->].
      clear - Hkey. exfalso. revert begin Hkey.
      remember (length s) as n eqn:Hn. revert s Hn.
      induction n as [n IHn] using lt_wf_ind. intros s -> begin.
      assert (Hpush : forall c r, (length r < length s)%nat ->
                push c (py_scanstring r begin) = Failed Exhausted -> False).
      { intros c r Hl Hp. unfold push in Hp.
        destruct (py_scanstring r begin) as [[? ?]|e] eqn:Hr; [discriminate|].
        injection Hp as ->. exact (IHn _ Hl r eq_refl begin Hr). }
      destruct s as [|c r]; [discriminate|]. cbn [py_scanstring].
      repeat match goal with
             | |- context [if ?b then _ else _] => destruct b
             | |- context [match ?l with [] => _ | _ :: _ => _ end] => destruct l
             | |- context [match ?o with Some _ => _ | None => _ end] => destruct o
             end;
        try discriminate; intros H; eapply Hpush; try exact H; cbn; lia. }
  destruct (scanstring_result _ _ _ _ Hkey) as (Hlk & Hkwf).
  pose proof (skip_ws_length r) as Hsl.
  destruct (skip_ws r) as [|c r1] eqn:Hr; [split; discriminate|].
  destruct (c =? Ch.colon); [|split; discriminate].
  pose proof (skip_ws_length r1) as Hsl1. cbn [length] in Hsl.
  destruct (scan_good (skip_ws r1)) as [Hex Hok].
  destruct (expecting_value (scan (skip_ws r1))) as [[v r2]|e] eqn:Hs.
  2:{ split; [|discriminate]. intros [= ->]. apply expecting_value_exhausted in Hs. auto. }
  apply expecting_value_scanned in Hs. destruct (Hok v r2 Hs) as (Hlen & Hdv & Hwf).
  pose proof (skip_ws_length r2) as Hsl2.
  assert (Hscr1 : Forall scalar s -> Forall scalar (skip_ws r1)).
  { intros Hsc. destruct (Hkwf Hsc) as (_ & Hrs & _).
    apply skip_ws_Forall. apply (skip_ws_Forall scalar) in Hrs. rewrite Hr in Hrs.
    apply Forall_cons in Hrs as [_ Hrs]. exact Hrs. }
  assert (Hdall : Forall (fun kv => (value_depth kv.2 <= d)%nat) ((key, v) :: acc)).
  { constructor; assumption. }
  assert (Hgall : Forall scalar s -> Forall good_pair acc ->
                  Forall good_pair ((key, v) :: acc)).
  { intros Hsc Hg. constructor; [|assumption]. split; cbn [fst snd].
    - apply (Hkwf Hsc).
    - apply (Hwf (Hscr1 Hsc)). }
  destruct (skip_ws r2) as [|c2 r3] eqn:Hr2; [split; discriminate|].
  cbn [length] in Hsl2.
  destruct (c2 =? Ch.rbrace).
  { split; [discriminate|]. intros v0 r0 [= <- <-].
    change (rev acc ++ [(key, v)]) with (rev ((key, v) :: acc)).
    split; [lia|]. split.
    - cbn [value_depth]. apply le_n_S, foldr_max_bound.
      apply (dict_of_pairs_good (fun kv => (value_depth kv.2 <= d)%nat)).
      apply Forall_rev. exact Hdall.
    - intros Hsc Hg.
      destruct (dict_of_pairs_good good_pair (rev ((key, v) :: acc))
                  (Forall_rev (Hgall Hsc Hg))) as [Hnd Hall].
      split; [constructor; assumption|].
      destruct (Hwf (Hscr1 Hsc)) as [_ Hrs].
      apply (skip_ws_Forall scalar) in Hrs. rewrite Hr2 in Hrs.
      apply Forall_cons in Hrs as [_ Hrs]. exact Hrs. }
  destruct (c2 =? Ch.comma); [|split; discriminate].
  pose proof (skip_ws_length r3) as Hsl3.
  destruct (skip_ws r3) as [|q r4] eqn:Hr3; [split; discriminate|].
  cbn [length] in Hsl3.
  destruct (q =? Ch.quote); [|split; discriminate].
  destruct (IH r4 (S (length r4)) ((key, v) :: acc) ltac:(lia) Hdall) as [Hex' Hok'].
  split; [assumption|]. intros v0 r0 H0. destruct (Hok' v0 r0 H0) as (Hl0 & Hd0 & Hwf0).
  split; [lia|split; [assumption|]]. intros Hsc Hg.
  apply Hwf0; [|apply Hgall; assumption].
  destruct (Hwf (Hscr1 Hsc)) as [_ Hrs].
  apply (skip_ws_Forall scalar) in Hrs. rewrite Hr2 in Hrs.
  apply Forall_cons in Hrs as [_ Hrs].
  apply (skip_ws_Forall scalar) in Hrs. rewrite Hr3 in Hrs.
  apply Forall_cons in Hrs as [_ Hrs]. exact Hrs.
Qed.
End Loops.

(** ** Decoding then encoding then decoding *)

Lemma JSONObject_good scan d : good_scan scan d -> good_scan (JSONObject scan) (S d).
Proof.
  intros Hscan s. unfold JSONObject. pose proof (skip_ws_length s) as Hsl.
  destruct (skip_ws s) as [|c r] eqn:Hs; [split; discriminate|].
  cbn [length] in Hsl.
  destruct (c =? Ch.quote).
  - destruct (object_loop_good scan d Hscan (S (S (length r))) r (S (length r)) []
                ltac:(lia) ltac:(constructor)) as [Hex Hok].
    split; [assumption|]. intros v r0 H. destruct (Hok v r0 H) as (Hl & Hd & Hwf).
    split; [lia|split; [assumption|]]. intros Hsc. apply Hwf; [|constructor].
    apply (skip_ws_Forall scalar) in Hsc. rewrite Hs in Hsc.
    apply Forall_cons in Hsc as [_ Hsc]. exact Hsc.
  - destruct (c =? Ch.rbrace); [|split; discriminate].
    split; [discriminate|]. intros v r0 [= <- <-].
    split; [lia|split; [cbn; lia|]]. intros Hsc. split; [repeat constructor|].
    apply (skip_ws_Forall scalar) in Hsc. rewrite Hs in Hsc.
    apply Forall_cons in Hsc as [_ Hsc]. exact Hsc.
Qed.

Lemma default_parse_constant_good : good_constant default_parse_constant.
Proof.
  intros name v. unfold default_parse_constant.
  repeat match goal with
         | |- context [if ?b then _ else _] => destruct b
         end; intros [= <-]; split; constructor; reflexivity.
Qed.

Lemma scan_once_good pc depth : good_constant pc -> good_scan (scan_once pc depth) depth.
Proof.
  intros Hpc. induction depth as [depth IH] using lt_wf_ind. intros s.
  rewrite scan_once_eq. destruct s as [|c r]; [split; discriminate|].
  assert (Hdrop : forall n v, (0 < n)%nat ->
    value_depth v = 0%nat -> well_formed v ->
    (length (drop n (c :: r)) < length (c :: r))%nat /\ (value_depth v <= depth)%nat
    /\ (Forall scalar (c :: r) -> well_formed v /\ Forall scalar (drop n (c :: r)))).
  { intros n v Hn Hd Hv. rewrite length_drop. cbn [length]. split; [lia|split; [lia|]].
    intros Hsc. split; [assumption|]. apply Forall_drop. assumption. }
  destruct (c =? Ch.quote).
  { destruct (py_scanstring r (length (c :: r))) as [[str rest]|e] eqn:Hstr.
    - split; [discriminate|]. intros v r0 [= <- <-].
      destruct (scanstring_result _ _ _ _ Hstr) as (Hl & Hwf).
      cbn [length value_depth]. split; [lia|split; [lia|]]. intros Hsc.
      apply Forall_cons in Hsc as [_ Hsc]. destruct (Hwf Hsc) as (Hok & Hrs & _).
      split; [constructor|]; assumption.
    - split; [|discriminate]. intros [= ->]. exfalso. clear - Hstr.
      pose proof (object_loop_good (fun _ => Failed (StopIteration 0)) 0
                    ltac:(intros s; split; discriminate)
                    (S (length r)) r (length (c :: r)) [] ltac:(lia) ltac:(constructor))
        as [Hex _].
      apply Hex. cbn [JSONObject_loop]. rewrite Hstr. reflexivity. }
  destruct (c =? Ch.lbrace).
  { destruct depth as [|depth']; [split; discriminate|].
    destruct (JSONObject_good _ _ (IH depth' ltac:(lia)) r) as [Hex Hok].
    split; [assumption|]. intros v r0 H. destruct (Hok v r0 H) as (Hl & Hd & Hwf).
    cbn [length]. split; [lia|split; [assumption|]]. intros Hsc.
    apply Forall_cons in Hsc as [_ Hsc]. auto. }
  destruct (c =? Ch.lbracket).
  { destruct depth as [|depth']; [split; discriminate|].
    destruct (JSONArray_good _ _ (IH depth' ltac:(lia)) r) as [Hex Hok].
    split; [assumption|]. intros v r0 H. destruct (Hok v r0 H) as (Hl & Hd & Hwf).
    cbn [length]. split; [lia|split; [assumption|]]. intros Hsc.
    apply Forall_cons in Hsc as [_ Hsc]. auto. }
  destruct (startswith (T "null") (c :: r)).
  { split; [discriminate|]. intros v r0 [= <- <-].
    apply (Hdrop 4%nat VNone); [lia|reflexivity|constructor]. }
  destruct (startswith (T "true") (c :: r)).
  { split; [discriminate|]. intros v r0 [= <- <-].
    apply (Hdrop 4%nat (VBool true)); [lia|reflexivity|constructor]. }
  destruct (startswith (T "false") (c :: r)).
  { split; [discriminate|]. intros v r0 [= <- <-].
    apply (Hdrop 5%nat (VBool false)); [lia|reflexivity|constructor]. }
  destruct (match_number (c :: r)) as [[[[i f] x] rest]|] eqn:Hm.
  { apply match_number_split in Hm as [Hm Hi].
    assert (Hrest : (length rest < length (c :: r))%nat
                    /\ (Forall scalar (c :: r) -> Forall scalar rest)).
    { rewrite Hm. rewrite !length_app. destruct i; [contradiction|]. cbn [length].
      split; [lia|]. intros Hsc. rewrite !app_assoc in Hsc.
      apply Forall_app in Hsc as [_ Hsc]. exact Hsc. }
    destruct Hrest as [Hl Hsc].
    destruct f, x; (split; [discriminate|]); intros v r0 [= <- <-];
      (split; [assumption|split; [cbn; lia|]]); intros Hs;
      (split; [constructor; try apply parse_float_valid|auto]). }
  assert (Hconst : forall name n, (0 < n)%nat ->
    constant pc name (drop n (c :: r)) <> Failed Exhausted
    /\ forall v r0, constant pc name (drop n (c :: r)) = Scanned (v, r0) ->
         (length r0 < length (c :: r))%nat /\ (value_depth v <= depth)%nat
         /\ (Forall scalar (c :: r) -> well_formed v /\ Forall scalar r0)).
  { intros name n Hn. unfold constant. destruct (pc name) as [v|e] eqn:Hname.
    - split; [discriminate|]. intros v0 r0 [= <- <-].
      destruct (Hpc _ _ Hname). apply (Hdrop n v); assumption.
    - split; discriminate. }
  destruct (startswith (T "NaN") (c :: r)); [apply Hconst; lia|].
  destruct (startswith (T "Infinity") (c :: r)); [apply Hconst; lia|].
  destruct (startswith (T "-Infinity") (c :: r)); [apply Hconst; lia|].
  split; discriminate.
Qed.

(** The iteration budgets of the decoder's loops never run out. *)
Lemma scan_once_never_exhausted pc depth s :
  good_constant pc -> scan_once pc depth s <> Failed Exhausted.
Proof. intros Hpc. apply (scan_once_good pc depth Hpc s). Qed.

(** What [json.loads] returns on a text of scalar values is well formed and
    no deeper than the recursion limit allows. *)
Lemma loads_well_formed depth s v :
  Forall scalar s -> loads depth s = Ok v ->
  well_formed v /\ (value_depth v <= depth)%nat.
Proof.
  intros Hsc. unfold loads, decode.
  destruct (startswith [65279] s); [discriminate|].
  destruct (expecting_value (scan_once default_parse_constant depth (skip_ws s)))
    as [[obj r]|e] eqn:Hs.
  - apply expecting_value_scanned in Hs.
    destruct (scan_once_good _ depth default_parse_constant_good (skip_ws s)) as [_ Hok].
    destruct (Hok obj r Hs) as (_ & Hd & Hwf).
    destruct (skip_ws r); [|discriminate]. intros [= <-].
    split; [|assumption]. apply Hwf. apply skip_ws_Forall. assumption.
  - destruct e; discriminate.
Qed.

(** The floats of a well formed value read back from their [repr]. *)
Lemma well_formed_floats_read_back v : well_formed v -> floats_read_back v = true.
Proof.
  induction v as [| | | | |items IH|items IH] using value_ind; intros Hwf;
    try reflexivity.
  - inversion Hwf; subst. cbn [floats_read_back]. apply float_reads_back_valid. assumption.
  - inversion Hwf as [| | | | |? Hitems|]; subst. cbn [floats_read_back].
    apply forallb_forall. intros x Hx. rewrite Forall_forall in IH, Hitems.
    apply list_elem_of_In in Hx. auto.
  - inversion Hwf as [| | | | | |? _ Hitems]; subst. cbn [floats_read_back].
    apply forallb_forall. intros x Hx. rewrite Forall_forall in IH, Hitems.
    apply list_elem_of_In in Hx. apply IH; [assumption|]. apply Hitems. assumption.
Qed.

Section Dumped.
Variable indent : option nat.
Variables ws1 ws2 : text.
Hypothesis ws1_ws : all_ws ws1.
Hypothesis ws2_ws : all_ws ws2.

(** [json.loads] reads back what the encoder wrote. *)
Lemma loads_iterencode depth v :
  well_formed v -> floats_read_back v = true -> (value_depth v <= depth)%nat ->
  loads depth (iterencode indent (Ch.comma :: ws1) (Ch.colon :: ws2) v 0) = Ok v.
Proof.
  intros Hwf Hfl Hd.
  pose proof (scan_once_iterencode indent ws1 ws2 ws1_ws ws2_ws v Hwf Hfl depth 0%nat Hd
                [] I) as Hscan.
  rewrite app_nil_r in Hscan.
  destruct (scan_once_head _ _ _ _ Hscan) as (c & r & Hc & Hws & _).
  unfold loads, decode. rewrite Hc in *.
  assert (Hbom : startswith [65279] (c :: r) = false).
  { cbn [startswith]. destruct (N.eqb_spec 65279 c) as [<-|]; [|reflexivity].
    rewrite scan_once_eq in Hscan. discriminate. }
  rewrite Hbom, skip_ws_head, Hscan by assumption. reflexivity.
Qed.
End Dumped.

(** What [json.dump(obj, fp, indent=2)] writes reads back as [obj]. *)
Lemma loads_dump_indent depth v :
  well_formed v -> floats_read_back v = true -> (value_depth v <= depth)%nat ->
  loads depth (dump_indent 2 v) = Ok v.
Proof. apply (loads_iterencode (Some 2%nat) [] [Ch.space]); repeat constructor. Qed.

(** What [json.dumps(obj)] returns reads back as [obj]. *)
Lemma loads_dumps depth v :
  well_formed v -> floats_read_back v = true -> (value_depth v <= depth)%nat ->
  loads depth (dumps v) = Ok v.
Proof. apply (loads_iterencode None [Ch.space] [Ch.space]); repeat constructor. Qed.

(** ** UTF-8 *)

Lemma continuation_range b : Utf8.is_continuation b = true <-> 128 <= b < 192.
Proof. unfold Utf8.is_continuation. rewrite andb_true_iff, N.leb_le, N.ltb_lt. reflexivity. Qed.

Lemma scalar_intro c :
  c < 55296 \/ 57344 <= c <= 1114111 -> scalar c.
Proof.
  intros H. unfold scalar, Utf8.is_surrogate. split; [lia|].
  apply andb_false_iff. destruct H as [H|H]; [left|right]; apply N.leb_gt; lia.
Qed.

(** UTF-8 decodes to scalar values. *)
Lemma decode_from_scalar object s pos t :
  Utf8.decode_from object s pos = Ok t -> Forall scalar t.
Proof.
  remember (length s) as n eqn:Hn. revert s Hn pos t.
  induction n as [n IH] using lt_wf_ind. intros s -> pos t.
  assert (Hpre : forall c r p,
    (length r < length s)%nat -> (c < 55296 \/ 57344 <= c <= 1114111) ->
    Utf8.prepend c (Utf8.decode_from object r p) = Ok t -> Forall scalar t).
  { intros c r p Hl Hc Hp. unfold Utf8.prepend in Hp.
    destruct (Utf8.decode_from object r p) as [t'|e] eqn:Hr; [|discriminate].
    injection Hp as <-. constructor; [apply scalar_intro; assumption|].
    exact (IH _ Hl r eq_refl p t' Hr). }
  destruct s as [|ch r]; cbn [Utf8.decode_from].
  { intros [= <-]. constructor. }
  destruct (N.ltb_spec ch 128) as [H1|H1].
  { apply Hpre; [cbn; lia|lia]. }
  destruct (N.ltb_spec ch 194) as [H2|H2]; [discriminate|].
  destruct (N.ltb_spec ch 224) as [H3|H3].
  { destruct r as [|ch2 r2]; [discriminate|].
    destruct (Utf8.is_continuation ch2) eqn:Hc2; [|discriminate].
    apply continuation_range in Hc2. cbn [negb].
    apply Hpre; [cbn; lia|lia]. }
  destruct (N.ltb_spec ch 240) as [H4|H4].
  { destruct r as [|ch2 r2]; [discriminate|].
    destruct (Utf8.is_continuation ch2) eqn:Hc2; [|discriminate].
    apply continuation_range in Hc2. cbn [negb orb].
    destruct (N.ltb_spec ch2 160) as [Hlo|Hhi].
    - destruct (N.eqb_spec ch 224) as [|Hne]; [discriminate|].
      destruct r2 as [|ch3 r3]; [discriminate|].
      destruct (Utf8.is_continuation ch3) eqn:Hc3; [|discriminate].
      apply continuation_range in Hc3. cbn [negb].
      apply Hpre; [cbn; lia|lia].
    - destruct (N.eqb_spec ch 237) as [|Hne]; [discriminate|].
      destruct r2 as [|ch3 r3]; [discriminate|].
      destruct (Utf8.is_continuation ch3) eqn:Hc3; [|discriminate].
      apply continuation_range in Hc3. cbn [negb].
      apply Hpre; [cbn; lia|lia]. }
  destruct (N.ltb_spec ch 245) as [H5|H5]; [|discriminate].
  destruct r as [|ch2 r2]; [discriminate|].
  destruct (Utf8.is_continuation ch2) eqn:Hc2; [|discriminate].
  apply continuation_range in Hc2. cbn [negb orb].
  assert (Hrest : forall (Hok : ch = 240 -> 144 <= ch2) (Hok' : ch = 244 -> ch2 < 144),
    match r2 with
    | [] => Utf8.truncated object pos
    | ch3 :: r3 =>
        if negb (Utf8.is_continuation ch3)
        then Utf8.invalid object pos 2 "invalid continuation byte"
        else
          match r3 with
          | [] => Utf8.truncated object pos
          | ch4 :: r4 =>
              if negb (Utf8.is_continuation ch4)
              then Utf8.invalid object pos 3 "invalid continuation byte"
              else Utf8.prepend (ch * 262144 + ch2 * 4096 + ch3 * 64 + ch4 - 63447168)
                                (Utf8.decode_from object r4 (pos + 4))
          end
    end = Ok t -> Forall scalar t).
  { intros Hok Hok'. destruct r2 as [|ch3 r3]; [discriminate|].
    destruct (Utf8.is_continuation ch3) eqn:Hc3; [|discriminate].
    apply continuation_range in Hc3. cbn [negb].
    destruct r3 as [|ch4 r4]; [discriminate|].
    destruct (Utf8.is_continuation ch4) eqn:Hc4; [|discriminate].
    apply continuation_range in Hc4. cbn [negb].
    apply Hpre; [cbn; lia|].
    assert (ch = 240 \/ 241 <= ch <= 243 \/ ch = 244) as [->|[?| ->]] by lia;
      [specialize (Hok eq_refl)| |specialize (Hok' eq_refl)]; lia. }
  destruct (N.ltb_spec ch2 144) as [Hlo|Hhi].
  - destruct (N.eqb_spec ch 240) as [|Hne]; [discriminate|].
    apply Hrest; intros; lia.
  - destruct (N.eqb_spec ch 244) as [|Hne]; [discriminate|].
    apply Hrest; intros; lia.
Qed.

Lemma decode_scalar b s : Utf8.decode b = Ok s -> Forall scalar s.
Proof. apply decode_from_scalar. Qed.

(** ** The blocks of the handler *)

Ltac monad :=
  unfold send_response, send_header, end_headers, wfile_write;
  unfold mbind, lift, ret, raise, write, print, set_fs, get_fs.

Lemma except_block_spec env e w :
  except_block env e w =
    (responded w (failure_response env e) (T "Error saving episode: " ++ exn_str e), Ok tt).
Proof.
  unfold except_block. monad. rewrite error_body_eq. cbn [fs wfile stdout].
  unfold responded, failure_response, server_headers.
  rewrite <- !app_assoc. reflexivity.
Qed.

Lemma dump_to_file_spec env t data w :
  dump_to_file env (episode_path t) data w =
    if negb (is_directory (fs w) EPISODES_DIR) then
      (w, Raise (OSError (T "[Errno 2] No such file or directory: '" ++ episode_path t ++ T "'")))
    else if is_directory (fs w) (episode_path t) then
      (w, Raise (OSError (T "[Errno 21] Is a directory: '" ++ episode_path t ++ T "'")))
    else
      match open_raises env, dump_raises env with
      | Some e, _ => (w, Raise e)
      | None, Some (written, e) =>
          (with_fs w (<[episode_path t := File (take written (dump_indent 2 data))]> (fs w)),
           Raise e)
      | None, None =>
          (with_fs w (<[episode_path t := File (dump_indent 2 data)]> (fs w)), Ok tt)
      end.
Proof.
  unfold dump_to_file. monad. rewrite dirname_episode_path.
  rewrite (bool_decide_eq_false_2 (EPISODES_DIR = [])) by discriminate.
  cbn [negb andb].
  destruct (is_directory (fs w) EPISODES_DIR); cbn [negb]; [|reflexivity].
  destruct (is_directory (fs w) (episode_path t)); [reflexivity|].
  destruct (open_raises env); [reflexivity|].
  destruct (dump_raises env) as [[written e]|]; reflexivity.
Qed.

Lemma try_block_spec env post_data w :
  try_block env post_data w =
    match payload env post_data with
    | Raise e => (w, Raise e)
    | Ok data =>
        match PyFloat.int_of_float (time_time env) with
        | Raise e => (w, Raise e)
        | Ok t =>
            match dump_to_file env (episode_path t) data w with
            | (w1, Raise e) => (w1, Raise e)
            | (w1, Ok _) =>
                (responded w1 (success_response env (episode_name t))
                           (T "Saved episode to " ++ episode_path t), Ok tt)
            end
        end
    end.
Proof.
  unfold try_block, payload.
  unfold mbind at 1, lift at 1.
  destruct (let* s := Utf8.decode post_data in loads (recursion_depth env) s)
    as [data|e]; [|reflexivity].
  unfold mbind at 1, lift at 1.
  destruct (PyFloat.int_of_float (time_time env)) as [t|e]; [|reflexivity].
  rewrite path_join_episode.
  unfold mbind at 1.
  destruct (dump_to_file env (episode_path t) data w) as [w1 [[]|e]]; [|reflexivity].
  monad. fold (episode_name t). rewrite (success_body_eq _ (episode_name_plain t)).
  cbn [fs wfile stdout].
  unfold responded, success_response, server_headers.
  rewrite <- !app_assoc. reflexivity.
Qed.

Lemma send_error_spec env self code w :
  send_error env self code w =
    ({| fs := fs w; wfile := wfile w ++ error_response env self code; stdout := stdout w |},
     Ok tt).
Proof.
  unfold send_error. monad. unfold error_response, server_headers.
  cbn [fs wfile stdout].
  destruct (bool_decide (command self = T "HEAD") || bool_decide (error_page env code = []));
    cbn [fs wfile stdout]; rewrite <- ?app_assoc, ?app_nil_r; reflexivity.
Qed.

Lemma do_POST_spec env self w :
  do_POST env self w =
    if text_eqb (path self) (T "/save") then
      match content_length self with
      | Raise e => (w, Raise e)
      | Ok n =>
          match try_block env (read (rfile self) n) w with
          | (w1, Raise e) => except_block env e w1
          | done => done
          end
      end
    else send_error env self 404 w.
Proof.
  unfold do_POST, content_length.
  destruct (text_eqb (path self) (T "/save")); [|reflexivity].
  unfold mbind, lift, try_except.
  destruct (int_of_header _); reflexivity.
Qed.

(** ** One request *)

Lemma process_request_POST env self state :
  command self = T "POST" ->
  process_request env self state =
    let '(w, r) := do_POST env self {| fs := state.1; wfile := []; stdout := state.2 |} in
    ((fs w, stdout w),
     {| sent := wfile w; uncaught := match r with Ok _ => None | Raise e => Some e end |}).
Proof.
  intros Hc. unfold process_request, handle_one_request.
  rewrite Hc, text_eqb_refl. reflexivity.
Qed.

(** A save without a usable length: nothing is sent, nothing changes. *)
Lemma process_save_no_length env self state e :
  is_save self -> content_length self = Raise e ->
  process_request env self state = (state, {| sent := []; uncaught := Some e |}).
Proof.
  intros [Hc Hp] Hn. rewrite process_request_POST by assumption.
  rewrite do_POST_spec, Hp, text_eqb_refl, Hn. destruct state; reflexivity.
Qed.

(** A save whose [try] block fails. *)
Lemma process_save_fails env self state n e :
  is_save self -> content_length self = Ok n ->
  save_fails env state.1 (read (rfile self) n) e ->
  exists f,
    process_request env self state =
      ((f, state.2 ++ [T "Error saving episode: " ++ exn_str e]),
       {| sent := failure_response env e; uncaught := None |})
    /\ (payload env (read (rfile self) n) = Raise e -> f = state.1).
Proof.
  intros [Hc Hp] Hn Hf. rewrite process_request_POST by assumption.
  rewrite do_POST_spec, Hp, text_eqb_refl, Hn, try_block_spec.
  destruct Hf as [e He|v e Hv He|v t Hv Ht Hd|v t Hv Ht Hd Hd'|v t e Hv Ht Hd Hd' Ho
                 |v t written e Hv Ht Hd Hd' Ho Hw];
    rewrite ?Hv, ?He, ?Ht, ?dump_to_file_spec; cbn [fs wfile stdout];
    rewrite ?Hd, ?Hd', ?Ho, ?Hw; cbn [negb];
    rewrite except_block_spec; unfold responded, with_fs; cbn [fs wfile stdout app];
    eexists; (split; [reflexivity|]); try reflexivity; intros; congruence.
Qed.

(** A save that goes through. *)
Lemma process_save_ok env self state n v t :
  is_save self -> content_length self = Ok n ->
  payload env (read (rfile self) n) = Ok v ->
  PyFloat.int_of_float (time_time env) = Ok t ->
  writable env state.1 t ->
  process_request env self state =
    ((<[episode_path t := File (dump_indent 2 v)]> state.1,
      state.2 ++ [T "Saved episode to " ++ episode_path t]),
     {| sent := success_response env (episode_name t); uncaught := None |}).
Proof.
  intros [Hc Hp] Hn Hv Ht (Hd & Hd' & Ho & Hw). rewrite process_request_POST by assumption.
  rewrite do_POST_spec, Hp, text_eqb_refl, Hn, try_block_spec, Hv, Ht, dump_to_file_spec.
  cbn [fs wfile stdout]. rewrite Hd, Hd', Ho, Hw. reflexivity.
Qed.

(** Any request: the files it can touch. *)
Lemma process_request_fs env self state :
  (process_request env self state).1.1 = state.1
  \/ exists t content,
       PyFloat.int_of_float (time_time env) = Ok t
       /\ is_directory state.1 (episode_path t) = false
       /\ (process_request env self state).1.1 = <[episode_path t := File content]> state.1.
Proof.
  unfold process_request, handle_one_request.
  destruct (text_eqb (command self) (T "POST")).
  - rewrite do_POST_spec. destruct (text_eqb (path self) (T "/save")).
    + destruct (content_length self) as [n|e]; [|left; reflexivity].
      rewrite try_block_spec.
      destruct (payload env _) as [v|e]; [|rewrite except_block_spec; left; reflexivity].
      destruct (PyFloat.int_of_float _) as [t|e] eqn:Ht;
        [|rewrite except_block_spec; left; reflexivity].
      rewrite dump_to_file_spec. cbn [fs wfile stdout].
      destruct (is_directory state.1 EPISODES_DIR); cbn [negb];
        [|rewrite except_block_spec; left; reflexivity].
      destruct (is_directory state.1 (episode_path t)) eqn:Hd;
        [rewrite except_block_spec; left; reflexivity|].
      destruct (open_raises env); [rewrite except_block_spec; left; reflexivity|].
      destruct (dump_raises env) as [[written e]|].
      * rewrite except_block_spec. right. do 2 eexists. repeat split; eauto.
      * right. do 2 eexists. repeat split; eauto.
    + rewrite send_error_spec. left. reflexivity.
  - destruct (_ || _); [left; reflexivity|]. rewrite send_error_spec. left. reflexivity.
Qed.

(** ** The body of the answer *)

Lemma byte_of_N_to_N c : c < 256 -> Byte.to_N (Utf8.byte_of_N c) = c.
Proof.
  intros Hc. unfold Utf8.byte_of_N. destruct (Byte.of_N c) as [b|] eqn:Hb.
  - apply Byte.to_of_N. assumption.
  - apply Byte.of_N_None_iff in Hb. lia.
Qed.

Lemma decode_from_ascii object s pos :
  Forall is_ascii s -> Utf8.decode_from object s pos = Ok s.
Proof.
  intros H. revert pos. induction H as [|c s Hc _ IH]; intros pos; cbn [Utf8.decode_from].
  - reflexivity.
  - unfold is_ascii in Hc. destruct (N.ltb_spec c 128); [|lia]. rewrite IH. reflexivity.
Qed.

(** ASCII text encoded and decoded is the text. *)
Lemma decode_ascii s : Forall is_ascii s -> Utf8.decode (map Utf8.byte_of_N s) = Ok s.
Proof.
  intros H. unfold Utf8.decode. rewrite map_map.
  rewrite (map_ext_Forall _ id).
  - rewrite map_id. apply decode_from_ascii. assumption.
  - eapply Forall_impl; [exact H|]. intros c Hc. apply byte_of_N_to_N.
    unfold is_ascii, id in *. lia.
Qed.

Lemma plain_str_ok s : Forall plain s -> str_ok s.
Proof.
  intros H. split.
  - eapply Forall_impl; [exact H|]. intros c (Hc & _). unfold code_point. lia.
  - induction H as [|c s Hc _ IH]; cbn [no_surrogate_pair]; [exact I|].
    split; [|exact IH]. destruct s; [exact I|]. intros [Hh _].
    unfold is_high_surrogate in Hh. apply andb_true_iff in Hh as [Hh%N.leb_le _].
    destruct Hc as (Hc & _). lia.
Qed.

Lemma T_plain_status :
  Forall plain (T "status") /\ Forall plain (T "file") /\ Forall plain (T "success").
Proof. repeat split; repeat constructor; unfold plain; cbn; lia. Qed.

(** The body of the success response is JSON for a dictionary with the
    status and the file name. *)
Lemma success_body_reads_back filename :
  Forall plain filename ->
  exists body,
    success_body filename = Ok body
    /\ (let* s := Utf8.decode body in loads 1 s)
       = Ok (VDict [(T "status", VStr (T "success")); (T "file", VStr filename)]).
Proof.
  intros Hp. unfold success_body.
  set (answer := VDict [(T "status", VStr (T "success")); (T "file", VStr filename)]).
  assert (Hascii : Forall is_ascii (dumps answer)).
  { unfold answer, dumps. cbn -[T encode_basestring_ascii]. ascii_text. }
  rewrite (encode_ascii _ Hascii). eexists; split; [reflexivity|].
  rewrite (decode_ascii _ Hascii). cbn [bind].
  pose proof T_plain_status as (Hs & Hf & Hsu).
  apply loads_dumps.
  - unfold answer. constructor.
    + cbn [map fst]. apply NoDup_cons. split; [|apply NoDup_singleton].
      intros [H|H]%elem_of_cons; [discriminate|]. apply elem_of_nil in H. exact H.
    + apply Forall_cons. split; [|apply Forall_cons; split; [|constructor]].
      * split; [apply plain_str_ok|apply wf_str, plain_str_ok]; assumption.
      * split; [apply plain_str_ok|apply wf_str, plain_str_ok]; assumption.
  - reflexivity.
  - cbn. lia.
Qed.

(** ** Serving *)

Lemma int_of_float_truncates f t : PyFloat.int_of_float f = Ok t -> truncates f t.
Proof.
  destruct f as [s|s| |s m e]; cbn [PyFloat.int_of_float truncates]; try discriminate.
  - intros [= <-]. reflexivity.
  - intros [= <-].
    assert (Ha : forall a, (if s then - (if s then - a else a) else (if s then - a else a))%Z = a).
    { intros a. destruct s; lia. }
    rewrite Ha. destruct e as [|k|k].
    + change (Z.max (- 0) 0) with 0%Z. change (Z.max 0 0) with 0%Z.
      rewrite !Z.pow_0_r. lia.
    + rewrite Z.max_r, Z.max_l by lia. rewrite Z.pow_0_r. 
      pose proof (Z.pow_pos_nonneg 2 (Zpos k) ltac:(lia) ltac:(lia)). nia.
    + rewrite Z.max_l, Z.max_r by lia. rewrite Z.pow_0_r.
      change (- Z.neg k)%Z with (Zpos k).
      pose proof (Z.pow_pos_nonneg 2 (Zpos k) ltac:(lia) ltac:(lia)) as Hp.
      pose proof (Z.div_mod (Zpos m) (2 ^ Zpos k) ltac:(lia)) as Hdm.
      pose proof (Z.mod_pos_bound (Zpos m) (2 ^ Zpos k) Hp) as Hmb.
      pose proof (Z.div_pos (Zpos m) (2 ^ Zpos k) ltac:(lia) Hp).
      nia.
Qed.

Lemma episode_path_not_dir t : episode_path t <> EPISODES_DIR.
Proof.
  intros H. apply (f_equal length) in H. unfold episode_path in H.
  rewrite !length_app in H. cbn in H. lia.
Qed.

Lemma is_directory_insert_file f p content q :
  is_directory (<[p := File content]> f) q = if bool_decide (q = p) then false else is_directory f q.
Proof.
  unfold is_directory. destruct (bool_decide (q = p)) eqn:Hq.
  - apply bool_decide_eq_true in Hq as ->. rewrite lookup_insert_eq. reflexivity.
  - apply bool_decide_eq_false in Hq. rewrite lookup_insert_ne by congruence. reflexivity.
Qed.

Lemma serve_forever_app state before after :
  serve_forever state (before ++ after)
  = (let '(s1, xs1) := serve_forever state before in
     let '(s2, xs2) := serve_forever s1 after in (s2, xs1 ++ xs2)).
Proof.
  revert state. induction before as [|[env self] before IH]; intros state; cbn [app serve_forever].
  - destruct (serve_forever state after). reflexivity.
  - destruct (process_request env self state) as [s x]. rewrite IH.
    destruct (serve_forever s before) as [s1 xs1].
    destruct (serve_forever s1 after) as [s2 xs2]. reflexivity.
Qed.

Lemma serve_forever_length state incoming :
  length (serve_forever state incoming).2 = length incoming.
Proof.
  revert state. induction incoming as [|[env self] incoming IH]; intros state;
    cbn [serve_forever]; [reflexivity|].
  destruct (process_request env self state) as [s x]. specialize (IH s).
  destruct (serve_forever s incoming) as [s' xs]. cbn [snd length] in *. lia.
Qed.

(** * The claims *)

Import Scenario.

(** ** C1: the answer to a successful save *)



(** ** C2: the stored file reads back as the payload *)



(** ** C3: the answer to a body that is rejected *)




(** ** C4: the other requests *)




(** ** C5: the name of the file *)



(** ** C6: two saves in one second *)



(** ** C7: the files stored before *)




(** ** C8: errors do not stop the server *)



(** ** C9: a save without a usable length *)

(** Claim C9. A POST to [/save] without a [Content-Length] header, or with
    one that [int] does not accept, raises before the [try] block is
    entered: the handler sends nothing at all (no status line, no header,
    no body), changes no file and logs no line. *)
Theorem no_length_no_response env self state :
  is_save self ->
  get_header (headers self) (T "Content-Length") = None
  \/ (exists value e, get_header (headers self) (T "Content-Length") = Some value
                      /\ int_of_str value = Raise e) ->
  exists e,
    process_request env self state = (state, {| sent := []; uncaught := Some e |}).
Proof.
  intros Hsave [Hnone|(value & e & Hsome & Hint)].
  - eexists. apply process_save_no_length; [assumption|].
    unfold content_length. rewrite Hnone. reflexivity.
  - exists e. apply process_save_no_length; [assumption|].
    unfold content_length. rewrite Hsome. exact Hint.
Qed.

Lemma no_length_no_response_witness :
  exists e,
    process_request env (request_without_length (T "POST") (T "/save") (T "{}")) start
    = (start, {| sent := []; uncaught := Some e |}).
Proof.
  apply (no_length_no_response env
           (request_without_length (T "POST") (T "/save") (T "{}")) start).
  - split; reflexivity.
  - left. reflexivity.
Defined.

(** ** C10: the headers of the answer to a failure *)



(** * Further properties of the handler and of start-up *)

(** ** Every save is answered *)

(** The [try] block goes through or fails: there is no third way. *)
Lemma save_succeeds_or_fails env f post_data :
  (exists v t, payload env post_data = Ok v
               /\ PyFloat.int_of_float (time_time env) = Ok t /\ writable env f t)
  \/ exists e, save_fails env f post_data e.
Proof.
  destruct (payload env post_data) as [v|e] eqn:Hp;
    [|right; exists e; apply payload_fails; assumption].
  destruct (PyFloat.int_of_float (time_time env)) as [t|e] eqn:Ht;
    [|right; exists e; eapply clock_fails; eassumption].
  destruct (is_directory f EPISODES_DIR) eqn:Hd;
    [|right; eexists; eapply missing_directory; eassumption].
  destruct (is_directory f (episode_path t)) eqn:Hd';
    [right; eexists; eapply path_is_directory; eassumption|].
  destruct (open_raises env) as [e|] eqn:Ho;
    [right; exists e; eapply open_fails; eassumption|].
  destruct (dump_raises env) as [[written e]|] eqn:Hw;
    [right; exists e; eapply dump_fails; eassumption|].
  left. exists v, t. repeat split; assumption.
Qed.



(** ** The paths a request touches *)

(** X2. A request changes at most one path of the file system: the file
    [episodes/episode_<t>.json] of the second [t] at which it is handled,
    which lies in the output directory and holds a file afterwards. *)
Theorem request_changes_one_path env self state p :
  (process_request env self state).1.1 !! p <> state.1 !! p ->
  exists t content,
    PyFloat.int_of_float (time_time env) = Ok t
    /\ p = EPISODES_DIR ++ T "/" ++ T "episode_" ++ str_of_int t ++ T ".json"
    /\ dirname p = EPISODES_DIR
    /\ (process_request env self state).1.1 !! p = Some (File content).
Proof.
  intros Hp.
  destruct (process_request_fs env self state) as [E|(t & content & Ht & _ & E)];
    rewrite E in Hp |- *; [contradiction|].
  destruct (decide (p = episode_path t)) as [->|Hne].
  - exists t, content. split; [assumption|]. split; [reflexivity|].
    split; [apply dirname_episode_path|]. apply lookup_insert_eq.
  - exfalso. apply Hp. apply lookup_insert_ne. congruence.
Qed.

Lemma request_changes_one_path_witness :
  exists t content,
    PyFloat.int_of_float (time_time env) = Ok t
    /\ T "episodes/episode_1700000000.json"
       = EPISODES_DIR ++ T "/" ++ T "episode_" ++ str_of_int t ++ T ".json"
    /\ dirname (T "episodes/episode_1700000000.json") = EPISODES_DIR
    /\ (process_request env save_request start).1.1 !! T "episodes/episode_1700000000.json"
       = Some (File content).
Proof.
  apply (request_changes_one_path env save_request start).
  vm_compute. discriminate.
Defined.

(** ** What serving keeps *)

Lemma request_keeps_path env self state p node :
  state.1 !! p = Some node ->
  exists node', (process_request env self state).1.1 !! p = Some node'
                /\ (node = Directory <-> node' = Directory).
Proof.
  intros Hp.
  destruct (process_request_fs env self state) as [E|(t & content & _ & Hd & E)]; rewrite E.
  - exists node. split; [assumption|reflexivity].
  - destruct (decide (p = episode_path t)) as [->|Hne].
    + exists (File content). split; [apply lookup_insert_eq|].
      unfold is_directory in Hd. rewrite Hp in Hd.
      destruct node; [|discriminate]. split; discriminate.
    + exists node. split; [|reflexivity]. rewrite lookup_insert_ne by congruence. assumption.
Qed.

(** X3. Serving never deletes: whatever requests arrive, a path that exists
    still exists afterwards, a directory is still a directory and a file
    still a file. In particular the output directory stays. *)
Theorem serving_keeps_every_path state incoming p node :
  state.1 !! p = Some node ->
  exists node', (serve_forever state incoming).1.1 !! p = Some node'
                /\ (node = Directory <-> node' = Directory).
Proof.
  revert state node. induction incoming as [|[e self] incoming IH]; intros state node Hp.
  - exists node. split; [assumption|reflexivity].
  - cbn [serve_forever].
    destruct (request_keeps_path e self state p node Hp) as (node1 & H1 & Hk1).
    destruct (process_request e self state) as [state1 x]. cbn [fst] in H1.
    destruct (IH state1 node1 H1) as (node2 & H2 & Hk2).
    destruct (serve_forever state1 incoming) as [final xs]. cbn [fst] in *.
    exists node2. split; [assumption|]. rewrite Hk1. exact Hk2.
Qed.

Lemma serving_keeps_every_path_witness :
  exists node',
    (serve_forever start
       [(env, save_request); (env, request_of (T "POST") (T "/save") (T "not json"))]).1.1
      !! EPISODES_DIR = Some node'
    /\ (Directory = Directory <-> node' = Directory).
Proof.
  apply (serving_keeps_every_path start _ EPISODES_DIR Directory).
  vm_compute; reflexivity.
Defined.

(** ** Saves that fail in writing *)





(** ** The body that is read *)



Lemma payload_empty env :
  payload env [] = Raise (JSONDecodeError (T "Expecting value") [] 0).
Proof. unfold payload. cbn. destruct (recursion_depth env); reflexivity. Qed.



(** ** The text that is stored *)

Ltac ascii_chars :=
  repeat first
    [ apply List.Forall_nil
    | apply List.Forall_cons; [exact eq_refl|] ].

Lemma digits_ascii s : Forall (fun c => 48 <= c <= 57) s -> Forall is_ascii s.
Proof.
  intros H. eapply Forall_impl; [exact H|]. intros c Hc. unfold is_ascii. simpl in Hc. lia.
Qed.

Lemma str_of_N_ascii n : Forall is_ascii (str_of_N n).
Proof. apply digits_ascii, str_of_N_digits. Qed.

Lemma str_of_int_ascii z : Forall is_ascii (str_of_int z).
Proof.
  destruct z; cbn [str_of_int]; [apply str_of_N_ascii|apply str_of_N_ascii|].
  constructor; [exact eq_refl|apply str_of_N_ascii].
Qed.

Lemma zeros_ascii n : Forall is_ascii (PyFloat.zeros n).
Proof.
  unfold PyFloat.zeros. apply Forall_forall. intros c Hc.
  apply list_elem_of_In, repeat_spec in Hc. subst c. exact eq_refl.
Qed.

Lemma format_repr_ascii ds decpt :
  Forall is_ascii ds -> Forall is_ascii (PyFloat.format_repr ds decpt).
Proof.
  intros Hds. unfold PyFloat.format_repr.
  destruct (_ || _).
  - apply Forall_app. split; [apply Forall_take; assumption|].
    apply Forall_app. split.
    { destruct (_ <? _)%Z; [|constructor].
      constructor; [exact eq_refl|apply Forall_drop; assumption]. }
    apply Forall_app. split; [ascii_chars|].
    apply Forall_app. split.
    { constructor; [|constructor]. destruct (_ <? _)%Z; exact eq_refl. }
    destruct (_ <? _)%Z; [constructor; [exact eq_refl|]|]; apply str_of_N_ascii.
  - destruct (_ <=? _)%Z.
    + apply Forall_app. split; [ascii_chars|].
      apply Forall_app. split; [apply zeros_ascii|assumption].
    + destruct (_ <? _)%Z.
      * apply Forall_app. split; [apply Forall_take; assumption|].
        constructor; [exact eq_refl|apply Forall_drop; assumption].
      * apply Forall_app. split; [assumption|].
        apply Forall_app. split; [apply zeros_ascii|ascii_chars].
Qed.

Lemma float_repr_ascii f : Forall is_ascii (PyFloat.float_repr f).
Proof.
  destruct f as [s|s| |s m e]; cbn [PyFloat.float_repr].
  - destruct s; ascii_chars.
  - destruct s; ascii_chars.
  - ascii_chars.
  - unfold PyFloat.shortest_digits.
    destruct (PyFloat.shortest_from _ _ _ _ _) as [d0 s0].
    destruct (PyFloat.strip_zeros _ _ _) as [d1 s1].
    apply Forall_app. split; [destruct s; ascii_chars|].
    apply format_repr_ascii, str_of_N_ascii.
Qed.

Lemma floatstr_ascii f : Forall is_ascii (floatstr f).
Proof.
  unfold floatstr. destruct (negb _); [ascii_chars|].
  destruct (PyFloat.eqb f PyFloat.inf); [ascii_chars|].
  destruct (PyFloat.eqb f PyFloat.neginf); [ascii_chars|]. apply float_repr_ascii.
Qed.

Lemma join_ascii sep chunks :
  Forall is_ascii sep -> Forall (Forall is_ascii) chunks -> Forall is_ascii (join sep chunks).
Proof.
  intros Hsep. induction 1 as [|c chunks Hc Hchunks IH]; [constructor|].
  destruct chunks as [|c' chunks]; [exact Hc|].
  change (join sep (c :: c' :: chunks)) with (c ++ sep ++ join sep (c' :: chunks)).
  apply Forall_app. split; [assumption|]. apply Forall_app. split; assumption.
Qed.

Lemma newline_indent_ascii indent level : Forall is_ascii (newline_indent indent level).
Proof.
  unfold newline_indent. destruct indent as [n|]; [|constructor].
  constructor; [exact eq_refl|]. apply Forall_forall. intros c Hc.
  apply list_elem_of_In, repeat_spec in Hc. subst c. exact eq_refl.
Qed.

(** What the encoder writes is ASCII, whatever the value holds. *)
Lemma iterencode_ascii indent isep ksep v :
  Forall is_ascii isep -> Forall is_ascii ksep ->
  forall level, Forall is_ascii (iterencode indent isep ksep v level).
Proof.
  intros Hi Hk.
  induction v as [|b|z|f|s|items IH|items IH] using value_ind; intros level.
  - ascii_chars.
  - destruct b; ascii_chars.
  - apply str_of_int_ascii.
  - apply floatstr_ascii.
  - apply encode_basestring_ascii_ascii.
  - destruct items as [|x items]; [ascii_chars|].
    cbn [iterencode]. apply Forall_app. split; [ascii_chars|].
    apply Forall_app. split; [apply newline_indent_ascii|].
    apply Forall_app. split; [|apply Forall_app; split;
                                [apply newline_indent_ascii|ascii_chars]].
    apply join_ascii; [apply Forall_app; split; [assumption|apply newline_indent_ascii]|].
    apply Forall_map. eapply Forall_impl; [exact IH|]. intros v Hv. apply Hv.
  - destruct items as [|x items]; [ascii_chars|].
    cbn [iterencode]. apply Forall_app. split; [ascii_chars|].
    apply Forall_app. split; [apply newline_indent_ascii|].
    apply Forall_app. split; [|apply Forall_app; split;
                                [apply newline_indent_ascii|ascii_chars]].
    apply join_ascii; [apply Forall_app; split; [assumption|apply newline_indent_ascii]|].
    apply Forall_map. eapply Forall_impl; [exact IH|]. intros kv Hv. cbn beta.
    apply Forall_app. split; [apply encode_basestring_ascii_ascii|].
    apply Forall_app. split; [assumption|apply Hv].
Qed.

Lemma dump_indent_ascii n v : Forall is_ascii (dump_indent n v).
Proof. apply iterencode_ascii; ascii_chars. Qed.

(** The files a request writes, with what they hold. *)
Lemma process_request_writes env self state :
  (process_request env self state).1.1 = state.1
  \/ exists t v written,
       (process_request env self state).1.1
       = <[episode_path t := File (take written (dump_indent 2 v))]> state.1.
Proof.
  unfold process_request, handle_one_request.
  destruct (text_eqb (command self) (T "POST")).
  - rewrite do_POST_spec. destruct (text_eqb (path self) (T "/save")).
    + destruct (content_length self) as [n|e]; [|left; reflexivity].
      rewrite try_block_spec.
      destruct (payload env _) as [v|e]; [|rewrite except_block_spec; left; reflexivity].
      destruct (PyFloat.int_of_float _) as [t|e] eqn:Ht;
        [|rewrite except_block_spec; left; reflexivity].
      rewrite dump_to_file_spec. cbn [fs wfile stdout].
      destruct (is_directory state.1 EPISODES_DIR); cbn [negb];
        [|rewrite except_block_spec; left; reflexivity].
      destruct (is_directory state.1 (episode_path t)) eqn:Hd;
        [rewrite except_block_spec; left; reflexivity|].
      destruct (open_raises env); [rewrite except_block_spec; left; reflexivity|].
      destruct (dump_raises env) as [[written e]|].
      * rewrite except_block_spec. right. exists t, v, written. reflexivity.
      * right. exists t, v, (length (dump_indent 2 v)). rewrite firstn_all. reflexivity.
    + rewrite send_error_spec. left. reflexivity.
  - destruct (_ || _); [left; reflexivity|]. rewrite send_error_spec. left. reflexivity.
Qed.

(** X8. Whatever a request writes to a file is ASCII text: the payload's
    characters outside ASCII are stored as escapes. *)
Theorem written_files_are_ascii env self state p content :
  (process_request env self state).1.1 !! p = Some (File content) ->
  state.1 !! p <> Some (File content) ->
  Forall is_ascii content.
Proof.
  intros Hp Hnew.
  destruct (process_request_writes env self state) as [E|(t & v & written & E)];
    rewrite E in Hp; [contradiction|].
  destruct (decide (p = episode_path t)) as [->|Hne].
  - rewrite lookup_insert_eq in Hp. injection Hp as <-.
    apply Forall_take, dump_indent_ascii.
  - rewrite lookup_insert_ne in Hp by congruence. contradiction.
Qed.

Lemma written_files_are_ascii_witness :
  Forall is_ascii
    (T "[" ++ [Ch.lf] ++ T "  " ++ quoted (T "\u00e9\u20ac\ud83d\ude00") ++ [Ch.lf] ++ T "]").
Proof.
  apply (written_files_are_ascii env
           {| command := T "POST"; path := T "/save";
              headers := [(T "Content-Length", T "13")];
              rfile := [Byte.x5b; Byte.x22; Byte.xc3; Byte.xa9; Byte.xe2; Byte.x82;
                        Byte.xac; Byte.xf0; Byte.x9f; Byte.x98; Byte.x80; Byte.x22;
                        Byte.x5d] |}
           start (T "episodes/episode_1700000000.json")).
  - vm_compute. reflexivity.
  - vm_compute. discriminate.
Defined.



(** ** The body of the answer to a failure *)

Lemma error_text_reads_back e :
  str_ok (exn_str e) ->
  (let* s := Utf8.decode
               (map Utf8.byte_of_N
                  (T "{" ++ quoted (T "status") ++ T ": " ++ quoted (T "error")
                     ++ T ", " ++ quoted (T "message") ++ T ": "
                     ++ encode_basestring_ascii (exn_str e) ++ T "}")) in
   loads 1 s)
  = Ok (VDict [(T "status", VStr (T "error")); (T "message", VStr (exn_str e))]).
Proof.
  intros Hok.
  set (answer := VDict [(T "status", VStr (T "error")); (T "message", VStr (exn_str e))]).
  change (T "{" ++ quoted (T "status") ++ T ": " ++ quoted (T "error")
            ++ T ", " ++ quoted (T "message") ++ T ": "
            ++ encode_basestring_ascii (exn_str e) ++ T "}") with (dumps answer).
  assert (Hascii : Forall is_ascii (dumps answer)) by (apply iterencode_ascii; ascii_chars).
  rewrite (decode_ascii _ Hascii). cbn [bind].
  apply loads_dumps.
  - unfold answer. constructor.
    + cbn [map fst]. apply NoDup_cons. split; [|apply NoDup_singleton].
      intros [H|H]%elem_of_cons; [discriminate|]. apply elem_of_nil in H. exact H.
    + apply Forall_cons. split; [|apply Forall_cons; split; [|constructor]].
      * split; [|apply wf_str]; apply plain_str_ok;
          repeat constructor; unfold plain; cbn; lia.
      * split; [|apply wf_str; assumption]. apply plain_str_ok.
        repeat constructor; unfold plain; cbn; lia.
  - reflexivity.
  - cbn. lia.
Qed.



(** ** The console *)

(** X11. The handler never reads what was printed before and only appends
    to it: the answer and the files are the same after any console
    contents, and the lines printed are added at the end. *)
Theorem console_is_only_appended env self f log :
  process_request env self (f, log)
  = (((process_request env self (f, [])).1.1,
      log ++ (process_request env self (f, [])).1.2),
     (process_request env self (f, [])).2).
Proof.
  unfold process_request, handle_one_request. cbn [fst snd].
  destruct (text_eqb (command self) (T "POST")).
  - rewrite !do_POST_spec. destruct (text_eqb (path self) (T "/save")).
    + destruct (content_length self) as [n|e]; [|cbn; rewrite app_nil_r; reflexivity].
      rewrite !try_block_spec.
      destruct (payload env _) as [v|e];
        [|rewrite !except_block_spec; cbn; reflexivity].
      destruct (PyFloat.int_of_float _) as [t|e];
        [|rewrite !except_block_spec; cbn; reflexivity].
      rewrite !dump_to_file_spec. cbn [fs wfile stdout].
      destruct (is_directory f EPISODES_DIR); cbn [negb];
        [|rewrite !except_block_spec; cbn; reflexivity].
      destruct (is_directory f (episode_path t));
        [rewrite !except_block_spec; cbn; reflexivity|].
      destruct (open_raises env); [rewrite !except_block_spec; cbn; reflexivity|].
      destruct (dump_raises env) as [[written e]|];
        [rewrite !except_block_spec; cbn; reflexivity|].
      cbn. reflexivity.
    + rewrite !send_error_spec. cbn. rewrite app_nil_r. reflexivity.
  - destruct (_ || _); [cbn; rewrite app_nil_r; reflexivity|].
    rewrite !send_error_spec. cbn. rewrite app_nil_r. reflexivity.
Qed.

(** ** The declared length *)

Lemma int_digits_digits s acc :
  Forall (fun c => is_digit c = true) s -> s <> [] ->
  forall b, int_digits s b acc = Some (fold_left (fun a c => a * 10 + (c - 48)) s acc).
Proof.
  intros H. revert acc. induction H as [|c s Hc Hs IH]; intros acc Hne b; [congruence|].
  cbn [int_digits fold_left]. rewrite Hc. destruct s as [|c' s'].
  - reflexivity.
  - apply IH. discriminate.
Qed.

Lemma digit_not_space c : is_digit c = true -> is_space c = false.
Proof.
  intros H%is_digit_iff. unfold is_space.
  repeat match goal with
         | |- context [?a <=? ?b] =>
             first [ replace (a <=? b) with false by (symmetry; apply N.leb_gt; lia)
                   | replace (a <=? b) with true by (symmetry; apply N.leb_le; lia) ]
         | |- context [?a =? ?b] =>
             replace (a =? b) with false by (symmetry; apply N.eqb_neq; lia)
         end.
  reflexivity.
Qed.

Lemma lstrip_digit c s : is_digit c = true -> lstrip (c :: s) = c :: s.
Proof. intros H. cbn [lstrip]. rewrite (digit_not_space c H). reflexivity. Qed.

Lemma strip_digits s : Forall (fun c => is_digit c = true) s -> strip s = s.
Proof.
  intros H. unfold strip. destruct H as [|c s Hc Hs]; [reflexivity|].
  rewrite (lstrip_digit c s Hc).
  assert (Hr : Forall (fun c => is_digit c = true) (rev (c :: s))).
  { apply Forall_rev. constructor; assumption. }
  destruct (rev (c :: s)) as [|d r] eqn:Hrev.
  - apply (f_equal length) in Hrev. rewrite length_rev in Hrev. discriminate.
  - apply Forall_cons in Hr as [Hd _]. rewrite (lstrip_digit d r Hd).
    rewrite <- Hrev. apply rev_involutive.
Qed.

Lemma str_of_N_all_digits n :
  Forall (fun c => is_digit c = true) (str_of_N n) /\ str_of_N n <> [].
Proof.
  destruct (str_of_N_shape n) as [->|(c & r & -> & Hc & Hr)].
  - split; [|discriminate]. repeat constructor.
  - split; [|discriminate]. constructor; [|assumption]. apply is_digit_iff. lia.
Qed.

Lemma int_of_str_str_of_N n : int_of_str (str_of_N n) = Ok (Z.of_N n).
Proof.
  destruct (str_of_N_all_digits n) as [Hd Hne]. unfold int_of_str.
  rewrite (strip_digits _ Hd). destruct (str_of_N n) as [|c r] eqn:Hs; [congruence|].
  assert (Hc : is_digit c = true) by (apply Forall_cons in Hd as [Hc _]; exact Hc).
  apply is_digit_iff in Hc.
  destruct (N.eqb_spec c Ch.minus) as [->|_]; [unfold Ch.minus, Ch.plus in Hc; lia|].
  destruct (N.eqb_spec c Ch.plus) as [->|_]; [unfold Ch.minus, Ch.plus in Hc; lia|].
  rewrite (int_digits_digits _ 0 Hd Hne false).
  change (fold_left _ (c :: r) 0) with (digits_value (c :: r)).
  rewrite <- Hs, digits_value_str_of_N. reflexivity.
Qed.

(** X12. A [Content-Length] header (the name in any case) whose value is
    the decimal length of the stream makes the handler read the whole
    body: [int] of the header is that length and [rfile.read] returns the
    stream. *)
Theorem declared_length_reads_the_body self :
  get_header (headers self) (T "Content-Length") = Some (str_of_nat (length (rfile self))) ->
  content_length self = Ok (Z.of_nat (length (rfile self)))
  /\ read (rfile self) (Z.of_nat (length (rfile self))) = rfile self.
Proof.
  intros H. split.
  - unfold content_length. rewrite H. cbn [int_of_header]. unfold str_of_nat.
    rewrite int_of_str_str_of_N. f_equal. lia.
  - unfold read. destruct (Z.ltb_spec (Z.of_nat (length (rfile self))) 0); [lia|].
    rewrite Nat2Z.id. apply firstn_all.
Qed.

Lemma declared_length_reads_the_body_witness :
  let self :=
    {| command := T "POST"; path := T "/save";
       headers := [(T "Host", T "localhost:8100"); (T "content-length", T "8")];
       rfile := map Utf8.byte_of_N (T "[1, 2.5]") |} in
  content_length self = Ok 8%Z
  /\ read (rfile self) 8 = rfile self.
Proof.
  intros self. apply (declared_length_reads_the_body self). reflexivity.
Defined.

(** ** File names *)

Lemma episode_path_inj t1 t2 : episode_path t1 = episode_path t2 -> t1 = t2.
Proof.
  unfold episode_path, episode_name. intros H.
  apply app_inv_head in H. apply app_inv_head in H. apply app_inv_head in H.
  apply app_inv_tail in H.
  rewrite <- (int_of_literal_str_of_int t1), <- (int_of_literal_str_of_int t2), H.
  reflexivity.
Qed.

(** X13. The path of an episode names its second: two seconds have the
    same path only when they are the same second, so saves of different
    seconds never share a file. *)
Theorem episode_path_names_its_second t1 t2 :
  episode_path t1 = episode_path t2 <-> t1 = t2.
Proof. split; [apply episode_path_inj|intros ->; reflexivity]. Qed.

(** ** What other seconds leave alone *)

Lemma request_of_other_second env self state p :
  (forall t, PyFloat.int_of_float (time_time env) = Ok t -> p <> episode_path t) ->
  (process_request env self state).1.1 !! p = state.1 !! p.
Proof.
  intros H. destruct (process_request_fs env self state) as [->|(t & content & Ht & _ & ->)].
  - reflexivity.
  - apply lookup_insert_ne. intros Heq. apply (H t Ht). symmetry. exact Heq.
Qed.

(** X14. A path is read and written by the requests of its own second
    only: when no request arrives in a second whose episode file is [p],
    serving leaves [p] exactly as it was, present or absent. *)
Theorem other_seconds_leave_path state incoming p :
  (forall env self t, In (env, self) incoming ->
     PyFloat.int_of_float (time_time env) = Ok t -> p <> episode_path t) ->
  (serve_forever state incoming).1.1 !! p = state.1 !! p.
Proof.
  revert state. induction incoming as [|[env self] rest IH]; intros state H.
  - reflexivity.
  - cbn [serve_forever].
    destruct (process_request env self state) as [state' x] eqn:Hx.
    specialize (IH state' (fun env' self' t Hin => H env' self' t (or_intror Hin))).
    destruct (serve_forever state' rest) as [final xs]. cbn [fst] in *.
    rewrite IH. replace state' with (process_request env self state).1 by (rewrite Hx; reflexivity).
    apply request_of_other_second. intros t Ht. apply (H env self t); [left; reflexivity|exact Ht].
Qed.

Lemma other_seconds_leave_path_witness :
  let old := File (T "[]") in
  let state := (<[episode_path 1699999999 := old]> disk, []) in
  (serve_forever state [(env, save_request); (env, save_request)]).1.1
    !! episode_path 1699999999
  = Some old.
Proof.
  intros old state.
  rewrite (other_seconds_leave_path state [(env, save_request); (env, save_request)]
             (episode_path 1699999999)).
  - apply lookup_insert_eq.
  - intros env' self' t [Heq|[Heq|[]]] Ht; injection Heq as <- <-;
      vm_compute in Ht; injection Ht as <-; intros Hp%episode_path_inj; discriminate.
Defined.



(** ** From start-up to the first save *)



(** ** A byte order mark *)

Lemma payload_byte_order_mark env0 rest :
  exists e, payload env0 (Byte.xef :: Byte.xbb :: Byte.xbf :: rest) = Raise e.
Proof.
  unfold payload, Utf8.decode. cbn [map Byte.to_N Utf8.decode_from].
  change (239 <? 128) with false. change (239 <? 194) with false.
  change (239 <? 224) with false. change (239 <? 240) with true.
  change (Utf8.is_continuation 187) with true. change (Utf8.is_continuation 191) with true.
  change (187 <? 160) with false. change (239 =? 237) with false.
  cbn [negb orb].
  change (239 * 4096 + 187 * 64 + 191 - 925824) with 65279.
  destruct (Utf8.decode_from _ _ _) as [s|e]; cbn [Utf8.prepend bind].
  - unfold loads. cbn [startswith]. eexists. reflexivity.
  - eexists. reflexivity.
Qed.


